(** * antigravity-trace: the tracing engine of [antigravity-trace.py]

    A shallow embedding of the wire decoder ([pretty_proto]), the payload
    normalizer ([pretty]), the diff engine ([delta]), the trace log ([Log]),
    the argument parser ([parse_argv]) and the command line that [shim]
    builds, with the properties the design document states about them and
    further properties read off the code.

    Python values are embedded as the inductive [value]; text is a list of
    code points, a byte string a list of [byte]; a raised exception is the
    [Raise] outcome of the [res] monad, and [try ... except Exception] is a
    match on it.  The library functions the program calls and does not
    define ([json.loads], [repr] of a float, BLAKE2b, [str.lower]) are the
    fields of the class [Environment]: every theorem holds whatever they
    compute.  The file system accepts every write; renaming fails when
    the file does not exist and when the operating system refuses the new
    name, which is also a field of [Environment].  The interpreter has
    its default limit on the conversion of integers to text: [json.dumps]
    raises on an integer of more than 4300 digits.

    The file has the model first (text and bytes, values, the decoder and
    the normalizer, the diff engine, the trace log, [parse_argv], the
    command line of [shim]), then the definitions the statements need,
    then the lemmas, the claims of the design document, further
    properties of the code, and all of them on concrete inputs. *)

From Stdlib Require Import ZArith NArith List String Ascii Bool Lia.
From Stdlib Require Import PrimFloat FloatOps SpecFloat.
From Stdlib Require DecimalZ.
From Stdlib.Strings Require Import Byte.
From stdpp Require Import base gmap.
Import ListNotations.

Local Open Scope Z_scope.

Set Warnings "-register-all".

(* ===================================================================== *)
(** ** Text, bytes and exceptions *)
(* ===================================================================== *)

(** A Python [str] is a sequence of Unicode code points. *)
Abbreviation str := (list N).

(** A Rocq string literal read as Python text (one code point per
    character; the literals of the program are all ASCII). *)
Definition py (s : string) : str := map N_of_ascii (list_ascii_of_string s).

Abbreviation bytes := (list Byte.byte).

Definition byte_val (b : Byte.byte) : Z := Z.of_N (Byte.to_N b).

(** The exceptions the program can raise.  [OutOfFuel] is no exception of
    Python: it is the bound of the loops of the model, and is never
    reached ([pretty_proto_fuel]). *)
Inductive exn : Type :=
| AssertionError
| TypeError
| KeyError
| IndexError
| AttributeError
| ValueError
| OSError
| OutOfFuel.

(** A computation returns or raises. *)
Inductive res (A : Type) : Type :=
| Ok (a : A)
| Raise (e : exn).
Arguments Ok {A} a.
Arguments Raise {A} e.

Definition bind {A B} (c : res A) (k : A -> res B) : res B :=
  match c with
  | Ok a => k a
  | Raise e => Raise e
  end.

Notation "'let*' x ':=' c1 'in' c2" := (bind c1 (fun x => c2))
  (at level 10, x pattern, c1 at level 100, c2 at level 200).

(** [assert c, "..."] *)
Definition assert (c : bool) : res unit :=
  if c then Ok tt else Raise AssertionError.

(** [try: c  except Exception: handler] *)
Definition try_except {A} (c : res A) (handler : res A) : res A :=
  match c with
  | Ok a => Ok a
  | Raise _ => handler
  end.

Fixpoint mapM {A B} (f : A -> res B) (l : list A) : res (list B) :=
  match l with
  | [] => Ok []
  | a :: l' => let* b := f a in let* bs := mapM f l' in Ok (b :: bs)
  end.

(* --------------------------------------------------------------------- *)
(** *** Operations of [str] *)
(* --------------------------------------------------------------------- *)

Definition str_eqb (a b : str) : bool := bool_decide (a = b).

(** [s.startswith(p)] *)
Fixpoint startswith (p s : str) : bool :=
  match p, s with
  | [], _ => true
  | _ :: _, [] => false
  | a :: p', b :: s' => N.eqb a b && startswith p' s'
  end.

(** [p in s] for two strings: [p] occurs in [s] as a substring. *)
Fixpoint contains (p s : str) : bool :=
  startswith p s ||
  match s with
  | [] => false
  | _ :: s' => contains p s'
  end.

(** Python's [str.isspace] on one code point. *)
Definition is_space (c : N) : bool :=
  ((9 <=? c) && (c <=? 13) || (28 <=? c) && (c <=? 32) ||
   (c =? 133) || (c =? 160) || (c =? 5760) ||
   (8192 <=? c) && (c <=? 8202) || (c =? 8232) || (c =? 8233) ||
   (c =? 8239) || (c =? 8287) || (c =? 12288))%N.

(** [s.lstrip()], [s.rstrip()], [s.strip()] *)
Fixpoint lstrip_by (f : N -> bool) (s : str) : str :=
  match s with
  | [] => []
  | c :: s' => if f c then lstrip_by f s' else s
  end.
Definition strip_by (f : N -> bool) (s : str) : str :=
  rev (lstrip_by f (rev (lstrip_by f s))).
Definition lstrip (s : str) : str := lstrip_by is_space s.
Definition strip (s : str) : str := strip_by is_space s.

(** A line boundary of [str.splitlines] other than the pair CR LF. *)
Definition is_linebreak (c : N) : bool :=
  ((10 <=? c) && (c <=? 13) || (28 <=? c) && (c <=? 30) ||
   (c =? 133) || (c =? 8232) || (c =? 8233))%N.

(** [s.splitlines()]: [cur] is the line being read, reversed. *)
Fixpoint splitlines_from (cur : str) (s : str) : list str :=
  match s with
  | [] => match cur with [] => [] | _ => [rev cur] end
  | c :: s' =>
      if is_linebreak c then
        match c, s' with
        | 13%N, 10%N :: s'' => rev cur :: splitlines_from [] s''
        | _, _ => rev cur :: splitlines_from [] s'
        end
      else splitlines_from (c :: cur) s'
  end.
Definition splitlines (s : str) : list str := splitlines_from [] s.

(** [sep.join(parts)] *)
Fixpoint join (sep : str) (parts : list str) : str :=
  match parts with
  | [] => []
  | [p] => p
  | p :: rest => p ++ sep ++ join sep rest
  end.

(** Lexicographic order on code points: the order of [sorted] on keys. *)
Fixpoint str_leb (a b : str) : bool :=
  match a, b with
  | [], _ => true
  | _ :: _, [] => false
  | x :: a', y :: b' => (x <? y)%N || (x =? y)%N && str_leb a' b'
  end.

Fixpoint insert_sorted (k : str) (l : list str) : list str :=
  match l with
  | [] => [k]
  | x :: l' => if str_leb k x then k :: l else x :: insert_sorted k l'
  end.

(** [sorted(keys)] *)
Definition sorted (l : list str) : list str := fold_right insert_sorted [] l.

(* --------------------------------------------------------------------- *)
(** *** Operations of [bytes] *)
(* --------------------------------------------------------------------- *)

Definition hex_digit (n : N) : N :=
  (if n <? 10 then 48 + n else 87 + n)%N.

(** [buf.hex()] *)
Definition hex (buf : bytes) : str :=
  flat_map (fun b => [hex_digit (Byte.to_N b / 16); hex_digit (Byte.to_N b mod 16)]) buf.

(** [int.from_bytes(b, "little")] *)
Definition from_bytes_little (b : bytes) : Z :=
  fold_right (fun x acc => byte_val x + 256 * acc) 0 b.

(** [buf[lo:hi]] for [0 <= lo <= hi] *)
Definition slice {A} (buf : list A) (lo hi : nat) : list A :=
  firstn (hi - lo) (skipn lo buf).

Definition is_cont (b : N) : bool := ((128 <=? b) && (b <=? 191))%N.

(** [buf.decode('utf-8')] in strict mode: [None] stands for
    [UnicodeDecodeError].  Overlong forms, surrogates and code points above
    U+10FFFF are rejected. *)
Fixpoint utf8_decode (buf : list N) : option str :=
  match buf with
  | [] => Some []
  | b0 :: r0 =>
      if (b0 <? 128)%N then option_map (cons b0) (utf8_decode r0)
      else if ((194 <=? b0) && (b0 <=? 223))%N then
        match r0 with
        | b1 :: r1 =>
            if is_cont b1
            then option_map (cons ((b0 - 192) * 64 + (b1 - 128))%N) (utf8_decode r1)
            else None
        | _ => None
        end
      else if ((224 <=? b0) && (b0 <=? 239))%N then
        match r0 with
        | b1 :: b2 :: r2 =>
            if is_cont b1 && is_cont b2 &&
               (if (b0 =? 224)%N then (160 <=? b1)%N else true) &&
               (if (b0 =? 237)%N then (b1 <=? 159)%N else true)
            then option_map
                   (cons ((b0 - 224) * 4096 + (b1 - 128) * 64 + (b2 - 128))%N)
                   (utf8_decode r2)
            else None
        | _ => None
        end
      else if ((240 <=? b0) && (b0 <=? 244))%N then
        match r0 with
        | b1 :: b2 :: b3 :: r3 =>
            if is_cont b1 && is_cont b2 && is_cont b3 &&
               (if (b0 =? 240)%N then (144 <=? b1)%N else true) &&
               (if (b0 =? 244)%N then (b1 <=? 143)%N else true)
            then option_map
                   (cons ((b0 - 240) * 262144 + (b1 - 128) * 4096 +
                          (b2 - 128) * 64 + (b3 - 128))%N)
                   (utf8_decode r3)
            else None
        | _ => None
        end
      else None
  end.

Definition decode_utf8 (buf : bytes) : option str :=
  utf8_decode (map Byte.to_N buf).

(** [s.encode('utf-8')]: a surrogate code point cannot be encoded
    ([UnicodeEncodeError], a [ValueError]). *)
Definition utf8_encode_char (c : N) : res (list N) :=
  (if c <? 128 then Ok [c]
   else if c <? 2048 then Ok [192 + c / 64; 128 + c mod 64]
   else if (55296 <=? c) && (c <=? 57343) then Raise ValueError
   else if c <? 65536 then
     Ok [224 + c / 4096; 128 + (c / 64) mod 64; 128 + c mod 64]
   else
     Ok [240 + c / 262144; 128 + (c / 4096) mod 64;
         128 + (c / 64) mod 64; 128 + c mod 64])%N.

Definition byte_of_N (n : N) : Byte.byte :=
  match Byte.of_N n with
  | Some b => b
  | None => x00
  end.

Definition encode_utf8 (s : str) : res bytes :=
  let* chunks := mapM utf8_encode_char s in
  Ok (map byte_of_N (concat chunks)).

(* ===================================================================== *)
(** ** Python values *)
(* ===================================================================== *)

(** The values the normalizer produces and the diff engine consumes: what
    [json.loads] returns, plus the lists and dicts of [pretty_proto].  A
    dict keeps its insertion order; its keys are text. *)
Inductive value : Type :=
| VNone
| VBool (b : bool)
| VInt (z : Z)
| VFloat (f : float)
| VStr (s : str)
| VList (l : list value)
| VDict (d : list (str * value)).

(** [d.get(k)] *)
Fixpoint dict_get {V} (k : str) (d : list (str * V)) : option V :=
  match d with
  | [] => None
  | (k', v) :: d' => if str_eqb k k' then Some v else dict_get k d'
  end.

(** [d[k] = v]: an existing key keeps its place, a new key goes last. *)
Fixpoint dict_set {V} (k : str) (v : V) (d : list (str * V)) : list (str * V) :=
  match d with
  | [] => [(k, v)]
  | (k', v') :: d' =>
      if str_eqb k k' then (k, v) :: d' else (k', v') :: dict_set k v d'
  end.

Definition dict_keys {V} (d : list (str * V)) : list str := map fst d.

(** [k in d] *)
Definition dict_has {V} (k : str) (d : list (str * V)) : bool :=
  match dict_get k d with
  | Some _ => true
  | None => false
  end.

(** [float == int], exact as in Python: the float is finite and its value
    is the integer. *)
Definition float_eq_int (f : float) (z : Z) : bool :=
  match Prim2SF f with
  | S754_zero _ => z =? 0
  | S754_finite s m e =>
      let sm := if s then Z.neg m else Z.pos m in
      if 0 <=? e then z =? sm * 2 ^ e else z * 2 ^ (- e) =? sm
  | _ => false
  end.

(** [a == b] *)
Fixpoint py_eq (a b : value) {struct a} : bool :=
  match a, b with
  | VNone, VNone => true
  | VBool x, VBool y => Bool.eqb x y
  | VBool x, VInt y => Z.b2z x =? y
  | VInt x, VBool y => x =? Z.b2z y
  | VBool x, VFloat y => float_eq_int y (Z.b2z x)
  | VFloat x, VBool y => float_eq_int x (Z.b2z y)
  | VInt x, VInt y => x =? y
  | VInt x, VFloat y => float_eq_int y x
  | VFloat x, VInt y => float_eq_int x y
  | VFloat x, VFloat y => PrimFloat.eqb x y
  | VStr x, VStr y => str_eqb x y
  | VList x, VList y =>
      (fix all2 (x y : list value) : bool :=
         match x, y with
         | [], [] => true
         | a' :: x', b' :: y' => py_eq a' b' && all2 x' y'
         | _, _ => false
         end) x y
  | VDict x, VDict y =>
      Nat.eqb (length x) (length y) &&
      (fix each (x : list (str * value)) : bool :=
         match x with
         | [] => true
         | (k, v) :: x' =>
             match dict_get k y with
             | Some w => py_eq v w
             | None => false
             end && each x'
         end) x
  | _, _ => false
  end.

(** [bool(v)]: the truth value of [if v]. *)
Definition truthy (v : value) : bool :=
  match v with
  | VNone => false
  | VBool b => b
  | VInt z => negb (z =? 0)
  | VFloat f => negb (PrimFloat.eqb f 0%float)
  | VStr s => negb (Nat.eqb (length s) 0)
  | VList l => negb (Nat.eqb (length l) 0)
  | VDict d => negb (Nat.eqb (length d) 0)
  end.

Definition is_dict (v : value) : bool :=
  match v with VDict _ => true | _ => false end.
Definition is_list (v : value) : bool :=
  match v with VList _ => true | _ => false end.
Definition is_str (v : value) : bool :=
  match v with VStr _ => true | _ => false end.

(** [for x in v]: the elements of a list, the keys of a dict, the
    characters of a string; anything else is not iterable. *)
Definition py_iter (v : value) : res (list value) :=
  match v with
  | VList l => Ok l
  | VDict d => Ok (map VStr (dict_keys d))
  | VStr s => Ok (map (fun c => VStr [c]) s)
  | _ => Raise TypeError
  end.

(** [len(v)] *)
Definition py_len (v : value) : res nat :=
  match v with
  | VList l => Ok (length l)
  | VDict d => Ok (length d)
  | VStr s => Ok (length s)
  | _ => Raise TypeError
  end.

(** [k in v] for a text [k]: a key of a dict, an element of a list, a
    substring of a string. *)
Definition py_in (k : str) (v : value) : res bool :=
  match v with
  | VDict d => Ok (dict_has k d)
  | VList l => Ok (existsb (fun x => py_eq x (VStr k)) l)
  | VStr s => Ok (contains k s)
  | _ => Raise TypeError
  end.

(** [v[k]] for a text [k] *)
Definition py_getitem (v : value) (k : str) : res value :=
  match v with
  | VDict d =>
      match dict_get k d with
      | Some x => Ok x
      | None => Raise KeyError
      end
  | _ => Raise TypeError
  end.

(** [v[0]] *)
Definition py_first (v : value) : res value :=
  match v with
  | VList (x :: _) => Ok x
  | VList [] => Raise IndexError
  | VStr (c :: _) => Ok (VStr [c])
  | VStr [] => Raise IndexError
  | VDict _ => Raise KeyError
  | _ => Raise TypeError
  end.

(** [v.get(k, default)]: only a dict has the method. *)
Definition py_get (v : value) (k : str) (default : value) : res value :=
  match v with
  | VDict d =>
      match dict_get k d with
      | Some x => Ok x
      | None => Ok default
      end
  | _ => Raise AttributeError
  end.

(** [dict(v)] for [v] a dict or an iterable of two-element lists headed by
    a text key (the only arguments [pretty_proto] passes): the pairs are
    stored in order, a repeated key keeps its place and takes the later
    value. *)
Fixpoint dict_of_items (d : list (str * value)) (items : list value)
  : res (list (str * value)) :=
  match items with
  | [] => Ok d
  | VList [VStr k; w] :: items' => dict_of_items (dict_set k w d) items'
  | _ => Raise TypeError
  end.

Definition py_dict (v : value) : res value :=
  match v with
  | VDict d => Ok (VDict d)
  | _ =>
      let* items := py_iter v in
      let* d := dict_of_items [] items in
      Ok (VDict d)
  end.

(* ===================================================================== *)
(** ** The environment of the program *)
(* ===================================================================== *)

(** What the program takes from its environment: the library functions it
    calls and does not define, and the two texts of its installation.
    - [json_loads text] is [json.loads(text)], [None] when it raises;
    - [float_repr f] is [repr(f)], as [json.dumps] prints a float;
    - [hashlib_blake2b data] is
      [hashlib.blake2b(data, digest_size=20).digest()];
    - [str_lower s] is [s.lower()], with the case tables of Unicode;
    - [LOGDIR] is [str(LOGDIR)], the directory of the logs;
    - [preamble_text] is the template with the viewer script in it;
    - [os_rename_error path] is the exception [Path.rename] raises for the
      destination [path], [None] when the operating system takes it: an
      [OSError] for a name longer than the file system allows, a
      [UnicodeEncodeError] (which is a [ValueError]) for a name that
      cannot be encoded. *)
Class Environment : Type := {
  json_loads : str -> option value;
  float_repr : float -> str;
  hashlib_blake2b : bytes -> bytes;
  str_lower : str -> str;
  LOGDIR : str;
  preamble_text : str;
  os_rename_error : str -> option exn
}.

(* ===================================================================== *)
(** ** WireDecoder and PayloadNormalizer: [pretty_proto], [pretty] *)
(* ===================================================================== *)

(** [read_varint(data, pos)]: [rest] is [data[pos:]], so the test
    [pos < len(data)] of the [while] is [rest] being non-empty and
    [data[pos]] is its head. *)
Fixpoint read_varint_loop (rest : bytes) (pos : nat) (shift value : Z)
  : res (Z * nat) :=
  match rest with
  | [] => Raise AssertionError
  | b :: rest' =>
      let value := Z.lor value (Z.shiftl (Z.land (byte_val b) 0x7F) shift) in
      if byte_val b <? 0x80 then Ok (value, S pos)
      else read_varint_loop rest' (S pos) (shift + 7) value
  end.

Definition read_varint (data : bytes) (pos : nat) : res (Z * nat) :=
  read_varint_loop (skipn pos data) pos 0 0.

(** The test of the readability collapse on one element of [out[0]]:
    [isinstance(x, list) and len(x) == 2 and isinstance(x[0], str)]. *)
Definition is_entry (x : value) : bool :=
  match x with
  | VList l =>
      Nat.eqb (length l) 2 &&
      match l with
      | k :: _ => is_str k
      | [] => false
      end
  | _ => false
  end.

(** The tail of [pretty_proto], after the stream is consumed. *)
Definition collapse (out : list value) : res value :=
  match out with
  | [x] =>
      let* items := py_iter x in
      if forallb is_entry items then py_dict x else Ok (VList out)
  | _ => Ok (VList out)
  end.

(** The [while pos < len(buf)] loop of [pretty_proto].  Every iteration
    consumes at least one byte, so [fuel = len(buf)] iterations are enough;
    [OutOfFuel] is the loop bound of the model, not a Python exception
    ([proto_fields_fuel] shows it is never reached). *)
Fixpoint proto_fields (pretty_blob : bytes -> res value) (fuel : nat)
    (buf : bytes) (pos : nat) (out : list value) : res (nat * list value) :=
  if (pos <? length buf)%nat then
    match fuel with
    | O => Raise OutOfFuel
    | S fuel' =>
        let* (key, pos) := read_varint buf pos in
        let wire := Z.land key 0x7 in
        if wire =? 0 then
          let* (val, pos) := read_varint buf pos in
          proto_fields pretty_blob fuel' buf pos (out ++ [VInt val])
        else if wire =? 1 then
          let* _ := assert (pos + 8 <=? length buf)%nat in
          proto_fields pretty_blob fuel' buf (pos + 8)
            (out ++ [VInt (from_bytes_little (slice buf pos (pos + 8)))])
        else if wire =? 2 then
          let* (len, pos) := read_varint buf pos in
          let* _ := assert (Z.of_nat pos + len <=? Z.of_nat (length buf)) in
          let* v := pretty_blob (slice buf pos (pos + Z.to_nat len)) in
          proto_fields pretty_blob fuel' buf (pos + Z.to_nat len) (out ++ [v])
        else if wire =? 5 then
          let* _ := assert (pos + 4 <=? length buf)%nat in
          proto_fields pretty_blob fuel' buf (pos + 4)
            (out ++ [VInt (from_bytes_little (slice buf pos (pos + 4)))])
        else Raise AssertionError
    end
  else Ok (pos, out).

Section Normalizer.

Context {env : Environment}.

(** [not s.strip()] *)
Definition is_blank (s : str) : bool := Nat.eqb (length (strip s)) 0.

Definition is_data (s : str) : bool := startswith (py "data:") s.

(** The text half of [pretty]: server-sent events are reassembled, then
    the text is read as JSON, as JSON lines, or kept. *)
Definition pretty_text (buf : str) : res value :=
  let buf :=
    if forallb (fun s => is_data s || is_blank s) (splitlines buf)
    then join [10%N]
           (map (fun s => lstrip (skipn 5 s)) (List.filter is_data (splitlines buf)))
    else buf in
  match json_loads buf with
  | Some v => Ok v
  | None =>
      match
        mapM (fun line => match json_loads line with
                          | Some v => Ok v
                          | None => Raise ValueError
                          end)
             (List.filter (fun line => negb (is_blank line)) (splitlines buf))
      with
      | Ok vs => Ok (VList vs)
      | Raise _ => Ok (VStr buf)
      end
  end.

(** The binary half of [pretty], over the decoder [proto] it tries
    first. *)
Definition pretty_bytes (proto : bytes -> res value) (buf : bytes) : res value :=
  try_except (proto buf)
    (let hex := hex buf in
     match decode_utf8 buf with
     | Some text =>
         let buf := strip text in
         if (length hex <? length buf)%nat then Ok (VStr hex)
         else pretty_text buf
     | None => Ok (VStr hex)
     end).

(** [pretty_proto(buf)] with the nesting of length-delimited fields
    bounded by [n].  A nested blob is shorter than the buffer around
    it, so [n = len(buf) + 1] is enough ([pretty_proto_fuel]). *)
Fixpoint pretty_proto_n (n : nat) (buf : bytes) : res value :=
  match n with
  | O => Raise OutOfFuel
  | S n' =>
      let* (pos, out) :=
        proto_fields (pretty_bytes (pretty_proto_n n')) n' buf 0 [] in
      let* _ := assert (Nat.eqb pos (length buf)) in
      collapse out
  end.

Definition pretty_proto (buf : bytes) : res value :=
  pretty_proto_n (S (length buf)) buf.

(** The argument of [pretty]: [bytes | str | None]. *)
Inductive payload : Type :=
| PNone
| PBytes (b : bytes)
| PStr (s : str).

Definition pretty (buf : payload) : res value :=
  match buf with
  | PNone => Ok VNone
  | PBytes b => pretty_bytes pretty_proto b
  | PStr s => pretty_text s
  end.

End Normalizer.

(* ===================================================================== *)
(** ** DiffEngine: [json.dumps], [blake2b], [delta] *)
(* ===================================================================== *)

Fixpoint uint_digits (d : Decimal.uint) : str :=
  match d with
  | Decimal.Nil => []
  | Decimal.D0 d => 48%N :: uint_digits d
  | Decimal.D1 d => 49%N :: uint_digits d
  | Decimal.D2 d => 50%N :: uint_digits d
  | Decimal.D3 d => 51%N :: uint_digits d
  | Decimal.D4 d => 52%N :: uint_digits d
  | Decimal.D5 d => 53%N :: uint_digits d
  | Decimal.D6 d => 54%N :: uint_digits d
  | Decimal.D7 d => 55%N :: uint_digits d
  | Decimal.D8 d => 56%N :: uint_digits d
  | Decimal.D9 d => 57%N :: uint_digits d
  end.

(** [str(z)] for an integer: its decimal digits. *)
Definition int_str (z : Z) : str :=
  match Z.to_int z with
  | Decimal.Pos d => uint_digits d
  | Decimal.Neg d => 45%N :: uint_digits d
  end.

Definition hex4 (n : N) : str :=
  [hex_digit (n / 4096); hex_digit ((n / 256) mod 16);
   hex_digit ((n / 16) mod 16); hex_digit (n mod 16)]%N.

(** One character of a JSON string under [ensure_ascii=True]. *)
Definition json_escape_char (c : N) : str :=
  (if c =? 34 then [92; 34]
   else if c =? 92 then [92; 92]
   else if c =? 10 then [92; 110]
   else if c =? 13 then [92; 114]
   else if c =? 9 then [92; 116]
   else if c =? 12 then [92; 102]
   else if c =? 8 then [92; 98]
   else if (32 <=? c) && (c <=? 126) then [c]
   else if c <? 65536 then [92; 117] ++ hex4 c
   else [92; 117] ++ hex4 (55296 + ((c - 65536) / 1024) mod 1024) ++
        [92; 117] ++ hex4 (56320 + (c - 65536) mod 1024))%N.

Definition json_string (s : str) : str :=
  [34%N] ++ flat_map json_escape_char s ++ [34%N].

Fixpoint insert_item {V} (kv : str * V) (l : list (str * V)) : list (str * V) :=
  match l with
  | [] => [kv]
  | x :: l' =>
      if str_leb (fst kv) (fst x) then kv :: l else x :: insert_item kv l'
  end.

(** The items of a dict in the order of their keys ([sort_keys=True]). *)
Definition sort_items {V} (l : list (str * V)) : list (str * V) :=
  fold_right insert_item [] l.

(** [set(keys)]: every key once. *)
Definition set_of (l : list str) : list str :=
  fold_right (fun k acc => if existsb (str_eqb k) acc then acc else k :: acc) [] l.

(** [a - b] and [a & b] on sets of keys. *)
Definition keys_minus (a b : list str) : list str :=
  List.filter (fun k => negb (existsb (str_eqb k) b)) a.
Definition keys_inter (a b : list str) : list str :=
  List.filter (fun k => existsb (str_eqb k) b) a.

(** The index of the first element that satisfies [f]:
    [next((i for i, x in enumerate(l) if f(x)), None)]. *)
Fixpoint find_index {A} (f : A -> bool) (l : list A) : option nat :=
  match l with
  | [] => None
  | x :: l' => if f x then Some O else option_map S (find_index f l')
  end.

Definition bytes_eqb (a b : bytes) : bool :=
  if Stdlib.Lists.List.list_eq_dec Byte.byte_eq_dec a b then true else false.

(** [sys.get_int_max_str_digits()], at its default: the most digits an
    integer may have to be converted to text. *)
Definition int_max_str_digits : nat := 4300.

(** The decimal digits of [z], without its sign. *)
Definition int_digits (z : Z) : str :=
  match Z.to_int z with
  | Decimal.Pos d | Decimal.Neg d => uint_digits d
  end.

(** [str(z)] returns. *)
Definition int_ok (z : Z) : bool :=
  (length (int_digits z) <=? int_max_str_digits)%nat.

(** Every integer in [v] can be converted to text. *)
Fixpoint ints_ok (v : value) : bool :=
  match v with
  | VInt z => int_ok z
  | VList l => forallb ints_ok l
  | VDict d => forallb (fun kv => ints_ok (snd kv)) d
  | _ => true
  end.

Section DiffEngine.

Context {env : Environment}.

(** The text [json.dumps(v, sort_keys=sort_keys)] returns, with the
    default separators, when it returns. *)
Fixpoint json_text (sort_keys : bool) (v : value) : str :=
  match v with
  | VNone => py "null"
  | VBool true => py "true"
  | VBool false => py "false"
  | VInt z => int_str z
  | VFloat f => float_repr f
  | VStr s => json_string s
  | VList l =>
      py "[" ++ join (py ", ") (map (json_text sort_keys) l) ++ py "]"
  | VDict d =>
      let items := map (fun '(k, x) => (k, json_text sort_keys x)) d in
      let items := if sort_keys then sort_items items else items in
      py "{" ++
      join (py ", ") (map (fun '(k, x) => json_string k ++ py ": " ++ x) items) ++
      py "}"
  end.

(** [json.dumps(v, sort_keys=sort_keys)]: the conversion of an integer
    of more than [int_max_str_digits] digits to text raises
    [ValueError], wherever the integer is in [v]. *)
Definition json_dumps (sort_keys : bool) (v : value) : res str :=
  if ints_ok v then Ok (json_text sort_keys v) else Raise ValueError.

(** [blake2b(s)] *)
Definition blake2b (s : str) : res bytes :=
  let* data := encode_utf8 s in
  Ok (hashlib_blake2b data).

(** [blake2b(json.dumps(v, sort_keys=True))] *)
Definition hash_of (v : value) : res bytes :=
  let* text := json_dumps true v in
  blake2b text.

(** [[(v, blake2b(json.dumps(v, sort_keys=True))) for v in l]] *)
Definition hashed (l : list value) : res (list (value * bytes)) :=
  mapM (fun v => let* h := hash_of v in Ok (v, h)) l.

(** One step of the walk over [prevl] in the list branch of [delta]. *)
Definition delta_list_step
    (st : list value * list value * list (value * bytes))
    (p : value * bytes)
  : list value * list value * list (value * bytes) :=
  let '(removals, additions, newl) := st in
  let '(pv, ph) := p in
  match find_index (fun '(_, nh) => bytes_eqb ph nh) newl with
  | None => (removals ++ [pv], additions, newl)
  | Some ni => (removals, additions ++ map fst (firstn ni newl), skipn (ni + 1) newl)
  end.

(** The list branch of [delta]. *)
Definition delta_list (prev new : list value) : res (bool * value) :=
  let* prevl := hashed prev in
  let* newl := hashed new in
  let '(removals, additions, newl) :=
    fold_left delta_list_step prevl ([], [], newl) in
  let additions := additions ++ map fst newl in
  let new2 := new in
  if Nat.eqb (length removals) 0 && Nat.eqb (length additions) 0 then
    Ok (true, VList new2)
  else if (length removals + length additions <? length new2)%nat then
    Ok (false,
        VList (if Nat.eqb (length removals) 0 then VStr (py "...") :: additions
               else if Nat.eqb (length additions) 0 then VStr (py "---") :: removals
               else VStr (py "...") :: additions ++ VStr (py "---") :: removals))
  else Ok (false, VList new2).

(** The body of the loop over the keys of both dicts, after
    [identical, subdelta = delta(prevl[k], newl[k])]. *)
Definition delta_entry (k : str) (newv : value) (r : bool * value)
    (d : list (str * value)) : res (list (str * value)) :=
  let '(identical, subdelta) := r in
  if identical then
    let* text := json_dumps false newv in
    if (length text <? 128)%nat then Ok (dict_set k newv d)
    else if is_dict newv then
      Ok (dict_set k (VDict [(py "unchanged", VStr (py "unchanged"))]) d)
    else if is_list newv then Ok (dict_set k (VList [VStr (py "...")]) d)
    else if is_str newv then Ok (dict_set k (VStr (py "unchanged")) d)
    else Ok d
  else
    match subdelta with
    | VList subdeltal =>
        let* x := py_first subdelta in
        if negb (py_eq x (VStr (py "---"))) && negb (py_eq x (VStr (py "...")))
        then Ok (dict_set (py "*" ++ k) subdelta d)
        else
          let iremove :=
            find_index (fun x => py_eq x (VStr (py "---"))) subdeltal in
          let removals :=
            match iremove with
            | None => []
            | Some i => skipn (i + 1) subdeltal
            end in
          let additions :=
            match iremove with
            | Some O => []
            | None => skipn 1 subdeltal
            | Some i => slice subdeltal 1 i
            end in
          let d := if (0 <? length removals)%nat
                   then dict_set (k ++ py "-") (VList removals) d else d in
          let d := if (0 <? length additions)%nat
                   then dict_set (k ++ py "+") (VList additions) d else d in
          Ok d
    | _ => Ok (dict_set (py "*" ++ k) subdelta d)
    end.

(** The dict branch of [delta]; [sub k] is [delta(prevl[k], newl[k])]. *)
Definition delta_dict (sub : str -> res (bool * value))
    (prevl newl : list (str * value)) : res (bool * value) :=
  let prev_keys := set_of (dict_keys prevl) in
  let new_keys := set_of (dict_keys newl) in
  let d := [] in
  let d :=
    fold_left (fun d k => dict_set (py "-" ++ k) VNone d)
      (sorted (keys_minus prev_keys new_keys)) d in
  let d :=
    fold_left
      (fun d k => match dict_get k newl with
                  | Some x => dict_set (py "+" ++ k) x d
                  | None => d
                  end)
      (sorted (keys_minus new_keys prev_keys)) d in
  let* d :=
    fold_left
      (fun acc k =>
         let* d := acc in
         let* r := sub k in
         match dict_get k newl with
         | Some newv => delta_entry k newv r d
         | None => Raise KeyError
         end)
      (sorted (keys_inter prev_keys new_keys)) (Ok d) in
  Ok (Nat.eqb (length d) 0,
      if Nat.eqb (length d) 0 then VStr (py "{repeat}") else VDict d).

(** [delta(prev, new)].  The recursion is on [prev]: [subs] holds, for
    every key of [prev], the diff against its value. *)
Fixpoint delta (prev new : value) {struct prev} : res (bool * value) :=
  match prev, new with
  | VDict prevl, VDict newl =>
      let subs :=
        (fix subs (es : list (str * value))
           : list (str * (value -> res (bool * value))) :=
           match es with
           | [] => []
           | (k, pv) :: es' => (k, delta pv) :: subs es'
           end) prevl in
      delta_dict
        (fun k => match dict_get k subs, dict_get k newl with
                  | Some sub, Some newv => sub newv
                  | _, _ => Raise KeyError
                  end)
        prevl newl
  | VList prevl, VList newl => delta_list prevl newl
  | _, _ => Ok (py_eq prev new, new)
  end.

(** [delta(prevl[k], newl[k])] *)
Definition delta_key (prevl newl : list (str * value)) (k : str)
  : res (bool * value) :=
  match dict_get k prevl, dict_get k newl with
  | Some pv, Some nv => delta pv nv
  | _, _ => Raise KeyError
  end.

(** The keys the loop over the common keys may assign for [k]: the
    plain key when the values are identical, the changed-marker or the
    two list suffixes when they are not. *)
Definition entry_keys (identical : bool) (k : str) : list str :=
  if identical then [k] else [py "*" ++ k; k ++ py "-"; k ++ py "+"].

End DiffEngine.

(* ===================================================================== *)
(** ** TraceLog: [Log] *)
(* ===================================================================== *)

(** [Log.mode] *)
Inductive log_mode : Type :=
| absent
| preambled
| renamed.

(** The fields of a [Log]. *)
Record Log : Type := mkLog {
  ts : str;
  path : str;
  mode : log_mode;
  prev_log : gmap str (value * value);
  verbose : bool
}.

(** The files of the log directory: path to content. *)
Abbreviation files := (gmap str str).

(** The characters [re.sub] replaces by an underscore in a summary: the
    nine characters no file name may hold (less-than, greater-than, colon,
    double quote, slash, backslash, bar, question mark, star) and the
    control characters below U+0020.  The result is stripped of spaces and
    dots at both ends. *)
Definition is_illegal (c : N) : bool :=
  ((c =? 60) || (c =? 62) || (c =? 58) || (c =? 34) || (c =? 47) ||
   (c =? 92) || (c =? 124) || (c =? 63) || (c =? 42) || (c <=? 31))%N.

Definition sanitize (summary : str) : str :=
  strip_by (fun c => (c =? 32) || (c =? 46))%N
    (map (fun c => if is_illegal c then 95%N else c) summary).

(** The header names whose values are never written. *)
Definition blocklist : list str :=
  [py "authorization"; py "cookie"; py "set-cookie"; py "proxy-authorization";
   py "x-goog-auth-user"; py "x-goog-iap-jwt-assertion"; py "x-goog-api-key";
   py "x-api-key"].

(** [s.replace(c, r)] for a one-character [c] *)
Definition replace_char (c : N) (r : str) (s : str) : str :=
  flat_map (fun x => if (x =? c)%N then r else [x]) s.

(** [x[:n]] *)
Definition py_prefix (n : nat) (x : value) : res value :=
  match x with
  | VStr s => Ok (VStr (firstn n s))
  | VList l => Ok (VList (firstn n l))
  | _ => Raise TypeError
  end.

(** [x + y] for the two operands the program adds. *)
Definition py_add (x y : value) : res value :=
  match x, y with
  | VStr a, VStr b => Ok (VStr (a ++ b))
  | VList a, VList b => Ok (VList (a ++ b))
  | _, _ => Raise TypeError
  end.

(** [[part['text'] for part in holder.get('parts', [])
      if 'text' in part and isinstance(part['text'], str)]] *)
Definition text_parts (holder : value) : res (list str) :=
  let* parts := py_get holder (py "parts") (VList []) in
  let* items := py_iter parts in
  let* texts :=
    mapM (fun part =>
            let* has := py_in (py "text") part in
            if has then
              let* t := py_getitem part (py "text") in
              match t with
              | VStr s => Ok [s]
              | _ => Ok []
              end
            else Ok [])
         items in
  Ok (concat texts).

Section TraceLog.

Context {env : Environment}.

(** [LOGDIR / name] *)
Definition in_logdir (name : str) : str := LOGDIR ++ py "/" ++ name.

(** [Log(verbose)], created at the time [now] (formatted as
    [%Y.%m.%d_%H.%M.%S]). *)
Definition Log_init (now : str) (verbose : bool) : Log :=
  mkLog now (in_logdir (now ++ py ".html")) absent ∅ verbose.

(** [Log._preamble(summary)].  Renaming raises what the operating
    system raises for the new name, and an [OSError] when the file does
    not exist; writing creates the file. *)
Definition _preamble (summary : option str) (st : Log * files)
  : (Log * files) * res unit :=
  let '(log, fs) := st in
  match log.(mode), summary with
  | renamed, _ => (st, Ok tt)
  | preambled, None => (st, Ok tt)
  | preambled, Some summary =>
      let sanitized := sanitize summary in
      let newpath :=
        in_logdir (log.(ts) ++ py " - " ++ firstn 120 sanitized ++ py ".html") in
      match os_rename_error newpath, fs !! log.(path) with
      | Some e, _ => (st, Raise e)
      | None, Some content =>
          ((mkLog log.(ts) newpath renamed log.(prev_log) log.(verbose),
            <[newpath := content]> (delete log.(path) fs)),
           Ok tt)
      | None, None => (st, Raise OSError)
      end
  | absent, _ =>
      ((mkLog log.(ts) log.(path)
          (match summary with Some _ => renamed | None => preambled end)
          log.(prev_log) log.(verbose),
        <[log.(path) := preamble_text]> fs),
       Ok tt)
  end.

(** [Log._redact_headers(h)] *)
Definition _redact_headers (h : list (str * str)) : list (str * str) :=
  fold_left
    (fun d '(k, v) =>
       dict_set k (if existsb (str_eqb (str_lower k)) blocklist
                   then py "[REDACTED]" else v) d)
    h [].

(** The summary of the conversation, when the exchange carries one: the
    body of the [try] in [Log.trace]. *)
Definition find_summary (endpoint : str) (k response2 : value)
  : res (option str) :=
  if contains (py "streamGenerateContent") endpoint && truthy k then
    let* contents := py_get k (py "contents") (VDict []) in
    let* contents := py_iter contents in
    let* requestParts := mapM text_parts contents in
    let requestParts := concat requestParts in
    if existsb (startswith (py "Generate a short conversation title")) requestParts
    then
      let kr := response2 in
      let responses := match kr with VList l => l | _ => [kr] end in
      let* texts :=
        mapM (fun response =>
                let* r := py_get response (py "response") (VDict []) in
                let* candidates := py_get r (py "candidates") (VList []) in
                let* candidates := py_iter candidates in
                let* texts :=
                  mapM (fun candidate =>
                          let* content :=
                            py_get candidate (py "content") (VDict []) in
                          text_parts content)
                       candidates in
                Ok (concat texts))
             responses in
      let responseText := concat (concat texts) in
      match splitlines (strip responseText) with
      | line :: _ => Ok (Some line)
      | [] => Raise IndexError
      end
    else Ok None
  else Ok None.

(** [summary], after the [try ... except Exception: pass]. *)
Definition summary_of (endpoint : str) (k response2 : value) : option str :=
  match find_summary endpoint k response2 with
  | Ok summary => summary
  | Raise _ => None
  end.

(** [k['request'] if isinstance(k, dict) and 'request' in k else None] *)
Definition request_of (request2 : value) : value :=
  match request2 with
  | VDict d =>
      match dict_get (py "request") d with
      | Some x => x
      | None => VNone
      end
  | _ => VNone
  end.

(** The key of the stored state: label, endpoint and, when the request
    has one, its system instruction. *)
Definition diff_key (label endpoint : str) (k : value) : res str :=
  let key := label ++ py ":" ++ endpoint in
  if truthy k then
    let* has := py_in (py "systemInstruction") k in
    if has then
      let* si := py_getitem k (py "systemInstruction") in
      let* text := json_dumps true si in
      Ok (key ++ py ":" ++ text)
    else Ok key
  else Ok key.

(** The first of the keys [a], [b] that [holder] has:
    [holder.get(a, holder.get(b, {}))] and where it was found. *)
Definition get_either (holder : value) (a b : str) : res (option str * value) :=
  match holder with
  | VDict d =>
      match dict_get a d, dict_get b d with
      | Some x, _ => Ok (Some a, x)
      | None, Some x => Ok (Some b, x)
      | None, None => Ok (None, VDict [])
      end
  | _ => Raise AttributeError
  end.

(** [holder[key] = x] on a dict, as a new dict. *)
Definition with_item (holder : value) (key : option str) (x : value) : value :=
  match holder, key with
  | VDict d, Some key => VDict (dict_set key x d)
  | _, _ => holder
  end.

(** The readability touch-up of the system instruction: the delta with
    [k3['parts'][0]] replaced, when it is the placeholder ["..."].  In
    Python the assignment changes a list in place.  When that list is the
    list of parts of [k] itself, its first element is the text ["..."]
    and the right-hand side raises before the assignment; otherwise the
    list is one the diff built.  So the values stored in [prev_log] are
    left as they are, and the model rebuilds [request2]. *)
Definition touch_up (k request2 : value) : res value :=
  let k1 := request2 in
  if truthy k && is_dict k1 then
    let* (key2, k2) := get_either k1 (py "request") (py "*request") in
    let* (key3, k3) :=
      get_either k2 (py "systemInstruction") (py "*systemInstruction") in
    if truthy k3 then
      let* has := py_in (py "parts") k3 in
      if has then
        let* parts := py_getitem k3 (py "parts") in
        let* n := py_len parts in
        if (1 <=? n)%nat then
          let* first := py_first parts in
          if py_eq first (VStr (py "...")) then
            let* si := py_getitem k (py "systemInstruction") in
            let* kparts := py_getitem si (py "parts") in
            let* kfirst := py_first kparts in
            let* text := py_getitem kfirst (py "text") in
            let* cut := py_prefix 256 text in
            let* shown := py_add cut (VStr (py "...")) in
            match parts with
            | VList (_ :: rest) =>
                let parts := VList (VDict [(py "text", shown)] :: rest) in
                let k3 := with_item k3 (Some (py "parts")) parts in
                let k2 := with_item k2 key3 k3 in
                Ok (with_item k1 key2 k2)
            | _ => Raise TypeError
            end
          else Ok request2
        else Ok request2
      else Ok request2
    else Ok request2
  else Ok request2.

(** [{k: v for k, v in request2.items() if k.startswith(("+", "-"))}] *)
Definition only_markers (request2 : value) : res value :=
  match request2 with
  | VDict d =>
      Ok (VDict (fold_left
                   (fun acc '(k, v) =>
                      if startswith (py "+") k || startswith (py "-") k
                      then dict_set k v acc else acc)
                   d []))
  | _ => Raise AttributeError
  end.

Definition headers_value (h : list (str * str)) : value :=
  VDict (map (fun '(k, v) => (k, VStr v)) (_redact_headers h)).

(** The dict [d] of [Log.trace]. *)
Definition record (label endpoint now : str) (request2 : value)
    (req_headers : option (list (str * str))) (response2 : value)
    (resp_headers : option (list (str * str))) : list (str * value) :=
  let d := [(py "label", VStr label); (py "endpoint", VStr endpoint);
            (py "time", VStr now)] in
  let d := match request2 with
           | VNone => d
           | _ => dict_set (py "request") request2 d
           end in
  let d := match req_headers with
           | Some h => dict_set (py "req_headers") (headers_value h) d
           | None => d
           end in
  let d := match response2 with
           | VNone => d
           | _ => dict_set (py "response") response2 d
           end in
  let d := match resp_headers with
           | Some h => dict_set (py "resp_headers") (headers_value h) d
           | None => d
           end in
  d.

(** The line written for a record. *)
Definition serialize (d : list (str * value)) : res str :=
  let* text := json_dumps false (VDict d) in
  Ok (replace_char 62 (py "&gt;")
        (replace_char 60 (py "&lt;")
           (replace_char 38 (py "&amp;") text))
      ++ [10%N]).

(** [with self.path.open("a") as f: f.write(line)] *)
Definition append_line (line : str) (st : Log * files) : Log * files :=
  let '(log, fs) := st in
  (log, <[log.(path) := default [] (fs !! log.(path)) ++ line]> fs).

(** What follows the update of the stored state in [Log.trace]: the two
    deltas, the touch-up, the volume control and the record. *)
Definition trace_line (label endpoint now : str) (k : value)
    (prev : option (value * value)) (request2 response2 : value)
    (req_headers resp_headers : option (list (str * str))) : res str :=
  let* (_, request2) :=
    match prev with
    | Some prev => delta (fst prev) request2
    | None => Ok (true, request2)
    end in
  let* (_, response2) :=
    match prev with
    | Some prev => delta (snd prev) response2
    | None => Ok (true, response2)
    end in
  let* request2 := touch_up k request2 in
  let* request2 :=
    if contains (py "UpdateCascadeTrajectorySummaries") endpoint
    then only_markers request2 else Ok request2 in
  serialize (record label endpoint now request2 req_headers
                    response2 resp_headers).

(** [Log.trace(label, endpoint, request, req_headers, response,
    resp_headers)] at the time [now] (formatted as [%H:%M:%S.mmm]): the
    log and the files after the call, and whether an exception
    escaped. *)
Definition trace (label endpoint : str) (request : payload)
    (req_headers : option (list (str * str))) (response : payload)
    (resp_headers : option (list (str * str))) (now : str)
    (st : Log * files) : (Log * files) * res unit :=
  if negb (fst st).(verbose) &&
     negb (contains (py "streamGenerateContent") endpoint)
  then (st, Ok tt)
  else
    match pretty request, pretty response with
    | Ok request2, Ok response2 =>
        let k := request_of request2 in
        let summary := summary_of endpoint k response2 in
        match _preamble summary st with
        | (st, Raise e) => (st, Raise e)
        | (st, Ok _) =>
            match diff_key label endpoint k with
            | Raise e => (st, Raise e)
            | Ok key =>
                let '(log, fs) := st in
                let prev := log.(prev_log) !! key in
                let log := mkLog log.(ts) log.(path) log.(mode)
                             (<[key := (request2, response2)]> log.(prev_log))
                             log.(verbose) in
                match trace_line label endpoint now k prev request2 response2
                                 req_headers resp_headers with
                | Raise e => ((log, fs), Raise e)
                | Ok line => (append_line line (log, fs), Ok tt)
                end
            end
        end
    | Raise e, _ => (st, Raise e)
    | _, Raise e => (st, Raise e)
    end.

End TraceLog.

(* ===================================================================== *)
(** ** [parse_argv] *)
(* ===================================================================== *)

(** [r[current].append(token)]: [KeyError] when [current] is no key. *)
Definition dict_append (current token : str) (r : list (str * list str))
  : res (list (str * list str)) :=
  match dict_get current r with
  | Some l => Ok (dict_set current (l ++ [token]) r)
  | None => Raise KeyError
  end.

(** The [for] loop of [parse_argv]. *)
Fixpoint parse_argv_loop (argv : list str) (current : str)
    (r : list (str * list str)) : res (list (str * list str)) :=
  match argv with
  | [] => Ok r
  | token :: argv' =>
      if startswith (py "--") token then
        parse_argv_loop argv' token (dict_set token [] r)
      else
        let* r := dict_append current token r in
        parse_argv_loop argv' current r
  end.

Definition parse_argv (argv : list str) : res (list (str * list str)) :=
  parse_argv_loop argv [] [].

(* ===================================================================== *)
(** ** The command line of the wrapped server: [shim] *)
(* ===================================================================== *)

(** [args[flag][0]] *)
Definition first_value (flag : str) (args : list (str * list str)) : res str :=
  match dict_get flag args with
  | Some (v :: _) => Ok v
  | Some [] => Raise IndexError
  | None => Raise KeyError
  end.

(** [[arg for k, v in args.items() for arg in [k, *v]]] *)
Definition args_to_argv (args : list (str * list str)) : list str :=
  flat_map (fun '(k, v) => k :: v) args.

Section Shim.

(** What [shim] takes from its environment between the lines that
    handle the arguments: [py_int s] is [int(s)], [None] when it raises
    [ValueError]; [extension_proxy port] is the text of the port of the
    proxy that [start_extension_proxy] starts in front of [port];
    [web_proxy url label] is the address of the proxy that
    [start_web_proxy] starts in front of [url]. *)
Variable py_int : str -> option Z.
Variable extension_proxy : Z -> str.
Variable web_proxy : str -> str -> str.

(** [argv2] of [shim]: the arguments of the program are parsed, the
    addresses of four servers are replaced by those of the proxies
    started in front of them, and the arguments are put back in a command
    line behind the path [server] of the wrapped program. *)
Definition shim_argv (server : str) (sys_argv : list str) : res (list str) :=
  let* args := parse_argv (skipn 1 sys_argv) in
  let* port := first_value (py "--extension_server_port") args in
  let* port := match py_int port with
               | Some p => Ok p
               | None => Raise ValueError
               end in
  let args :=
    dict_set (py "--extension_server_port") [extension_proxy port] args in
  let* url := first_value (py "--inference_api_server_url") args in
  let args :=
    dict_set (py "--inference_api_server_url")
      [web_proxy url (py "INFERENCE")] args in
  let* url := first_value (py "--api_server_url") args in
  let args := dict_set (py "--api_server_url") [web_proxy url (py "API")] args in
  let* url := first_value (py "--cloud_code_endpoint") args in
  let args :=
    dict_set (py "--cloud_code_endpoint") [web_proxy url (py "CLOUD")] args in
  Ok (server :: args_to_argv args).

(** One flag with its values, as the wrapped server gets it: the values
    of the four flags of the proxied servers are replaced. *)
Definition proxied (port : Z) (inference api cloud : str)
    (arg : str * list str) : str * list str :=
  let '(k, v) := arg in
  (k,
   if str_eqb k (py "--extension_server_port") then [extension_proxy port]
   else if str_eqb k (py "--inference_api_server_url")
        then [web_proxy inference (py "INFERENCE")]
   else if str_eqb k (py "--api_server_url") then [web_proxy api (py "API")]
   else if str_eqb k (py "--cloud_code_endpoint")
        then [web_proxy cloud (py "CLOUD")]
   else v).

End Shim.

(* ===================================================================== *)
(** ** Definitions of the statements *)
(* ===================================================================== *)

(** *** The wire format, as the design document words it *)

(** One variable-length integer: little-endian base 128, the top bit of
    a byte says that another byte follows. *)
Inductive varint_enc : bytes -> Prop :=
| varint_last b : byte_val b < 0x80 -> varint_enc [b]
| varint_more b k : 0x80 <= byte_val b -> varint_enc k -> varint_enc (b :: k).

Definition varint_val (k : bytes) : Z :=
  fold_right (fun b acc => Z.land (byte_val b) 0x7F + 128 * acc) 0 k.

(** One field: a tag whose low three bits select the representation. *)
Inductive wire_field : bytes -> Prop :=
| field_varint k v :
    varint_enc k -> Z.land (varint_val k) 7 = 0 -> varint_enc v ->
    wire_field (k ++ v)
| field_fixed64 k p :
    varint_enc k -> Z.land (varint_val k) 7 = 1 -> length p = 8%nat ->
    wire_field (k ++ p)
| field_blob k l p :
    varint_enc k -> Z.land (varint_val k) 7 = 2 -> varint_enc l ->
    Z.of_nat (length p) = varint_val l ->
    wire_field (k ++ l ++ p)
| field_fixed32 k p :
    varint_enc k -> Z.land (varint_val k) 7 = 5 -> length p = 4%nat ->
    wire_field (k ++ p).

(** A buffer that is fully consumed as a sequence of fields. *)
Inductive wire_stream : bytes -> Prop :=
| stream_end : wire_stream []
| stream_field f r : wire_field f -> wire_stream r -> wire_stream (f ++ r).

(** *** The reference encoder *)

(** Modelled from the spec: the reference encoder of the round-trip
    property (the repository holds no encoder).  A message is a sequence
    of fields; a field is a field number with a value of wire type 0
    (variable-length integer), 1 (eight bytes, little endian), 2
    (length-delimited bytes) or 5 (four bytes, little endian). *)
Inductive wire_value : Type :=
| Varint (n : Z)
| Fixed64 (n : Z)
| Blob (b : bytes)
| Fixed32 (n : Z).

Definition wire_type (v : wire_value) : Z :=
  match v with
  | Varint _ => 0
  | Fixed64 _ => 1
  | Blob _ => 2
  | Fixed32 _ => 5
  end.

Definition byte_of_Z (z : Z) : Byte.byte := byte_of_N (Z.to_N z).

(** Modelled from the spec: a variable-length integer, seven bits a byte
    from the low end, the top bit set on every byte but the last. *)
Fixpoint encode_varint_fuel (fuel : nat) (n : Z) : bytes :=
  match fuel with
  | O => [byte_of_Z (n mod 128)]
  | S fuel' =>
      if n <? 128 then [byte_of_Z n]
      else byte_of_Z (128 + n mod 128) :: encode_varint_fuel fuel' (n / 128)
  end.

Definition encode_varint (n : Z) : bytes :=
  encode_varint_fuel (Z.to_nat (Z.log2 n)) n.

(** Modelled from the spec: [width] bytes, little endian. *)
Fixpoint encode_fixed (width : nat) (n : Z) : bytes :=
  match width with
  | O => []
  | S width' => byte_of_Z (n mod 256) :: encode_fixed width' (n / 256)
  end.

(** Modelled from the spec: one field, its tag first. *)
Definition encode_field (f : Z * wire_value) : bytes :=
  let '(number, v) := f in
  encode_varint (number * 8 + wire_type v) ++
  match v with
  | Varint n => encode_varint n
  | Fixed64 n => encode_fixed 8 n
  | Blob b => encode_varint (Z.of_nat (length b)) ++ b
  | Fixed32 n => encode_fixed 4 n
  end.

Definition encode_message (fields : list (Z * wire_value)) : bytes :=
  flat_map encode_field fields.

(** The fields the encoder accepts: numbers and integers in range. *)
Definition encodable (f : Z * wire_value) : Prop :=
  0 <= fst f /\
  match snd f with
  | Varint n => 0 <= n
  | Fixed64 n => 0 <= n < 2 ^ 64
  | Blob _ => True
  | Fixed32 n => 0 <= n < 2 ^ 32
  end.

(** The element of the decoded sequence for a field: the integer, or
    what the blob normalizer [f] makes of the bytes. *)
Definition decoded (f : bytes -> res value) (v : wire_value) : res value :=
  match v with
  | Varint n | Fixed64 n | Fixed32 n => Ok (VInt n)
  | Blob b => f b
  end.

(** The ways a field at [pos] is malformed: its tag or one of its
    variable-length integers is cut by the end of the buffer, its fixed or
    length-delimited payload would end past the buffer, or the low three
    bits of its tag are none of 0, 1, 2, 5. *)
Inductive malformed_at (buf : bytes) (pos : nat) : Prop :=
| truncated_tag :
    Forall (fun b => 0x80 <= byte_val b) (skipn pos buf) ->
    malformed_at buf pos
| truncated_value key pos1 :
    read_varint buf pos = Ok (key, pos1) -> Z.land key 7 = 0 ->
    Forall (fun b => 0x80 <= byte_val b) (skipn pos1 buf) ->
    malformed_at buf pos
| short_fixed64 key pos1 :
    read_varint buf pos = Ok (key, pos1) -> Z.land key 7 = 1 ->
    (length buf < pos1 + 8)%nat ->
    malformed_at buf pos
| truncated_length key pos1 :
    read_varint buf pos = Ok (key, pos1) -> Z.land key 7 = 2 ->
    Forall (fun b => 0x80 <= byte_val b) (skipn pos1 buf) ->
    malformed_at buf pos
| short_blob key pos1 len pos2 :
    read_varint buf pos = Ok (key, pos1) -> Z.land key 7 = 2 ->
    read_varint buf pos1 = Ok (len, pos2) ->
    Z.of_nat (length buf) < Z.of_nat pos2 + len ->
    malformed_at buf pos
| short_fixed32 key pos1 :
    read_varint buf pos = Ok (key, pos1) -> Z.land key 7 = 5 ->
    (length buf < pos1 + 4)%nat ->
    malformed_at buf pos
| unknown_wire_type key pos1 :
    read_varint buf pos = Ok (key, pos1) ->
    Z.land key 7 <> 0 -> Z.land key 7 <> 1 ->
    Z.land key 7 <> 2 -> Z.land key 7 <> 5 ->
    malformed_at buf pos.

(** One iteration of the loop of [pretty_proto]: the field at [pos]. *)
Definition field_at (pretty_blob : bytes -> res value) (buf : bytes) (pos : nat)
  : res (value * nat) :=
  let* (key, pos) := read_varint buf pos in
  let wire := Z.land key 0x7 in
  if wire =? 0 then
    let* (val, pos) := read_varint buf pos in
    Ok (VInt val, pos)
  else if wire =? 1 then
    let* _ := assert (pos + 8 <=? length buf)%nat in
    Ok (VInt (from_bytes_little (slice buf pos (pos + 8))), (pos + 8)%nat)
  else if wire =? 2 then
    let* (len, pos) := read_varint buf pos in
    let* _ := assert (Z.of_nat pos + len <=? Z.of_nat (length buf)) in
    let* v := pretty_blob (slice buf pos (pos + Z.to_nat len)) in
    Ok (v, (pos + Z.to_nat len)%nat)
  else if wire =? 5 then
    let* _ := assert (pos + 4 <=? length buf)%nat in
    Ok (VInt (from_bytes_little (slice buf pos (pos + 4))), (pos + 4)%nat)
  else Raise AssertionError.

(** *** Text, dicts and headers *)

(** ASCII text. *)
Definition ascii_only (s : str) : Prop := Forall (fun c => (c < 128)%N) s.

(** A float that is not equal to itself. *)
Definition is_nan (v : value) : bool :=
  match v with
  | VFloat f => negb (PrimFloat.eqb f f)
  | _ => false
  end.

(** [d'] comes from [d] by assignments to keys in [K] only. *)
Definition sets_only {V} (K : str -> bool) (d d' : list (str * V)) : Prop :=
  (forall key, K key = false -> dict_get key d' = dict_get key d) /\
  (forall key, dict_has key d = true -> dict_has key d' = true).


(** *** [parse_argv], as its docstring words it *)

Definition is_flag (token : str) : bool := startswith (py "--") token.

(** The tokens up to the next flag. *)
Fixpoint values_until_flag (argv : list str) : list str :=
  match argv with
  | [] => []
  | token :: argv' =>
      if is_flag token then [] else token :: values_until_flag argv'
  end.

(** The values of [flag] in [argv]: the tokens that follow its last
    occurrence, up to the next flag; [None] when [flag] is no flag of
    [argv]. *)
Fixpoint last_values (flag : str) (argv : list str) : option (list str) :=
  match argv with
  | [] => None
  | token :: argv' =>
      match last_values flag argv' with
      | Some l => Some l
      | None =>
          if str_eqb flag token && is_flag token
          then Some (values_until_flag argv') else None
      end
  end.

Section Statements.

Context {env : Environment}.

(** [k.lower() in blocklist] *)
Definition blocked (k : str) : bool := existsb (str_eqb (str_lower k)) blocklist.

(** What the delta [(b, r)] of two dicts says about their keys. *)
Definition mapping_law (previous current : list (str * value))
    (b : bool) (r : value) : Prop :=
  exists d,
    b = Nat.eqb (length d) 0 /\
    r = (if Nat.eqb (length d) 0 then VStr (py "{repeat}") else VDict d) /\
    (forall k, dict_has k previous = true -> dict_has k current = false ->
               dict_has (py "-" ++ k) d = true) /\
    (forall k, dict_has k previous = false -> dict_has k current = true ->
               dict_has (py "+" ++ k) d = true) /\
    ((forall c, dict_has c previous = true -> dict_has c current = true ->
                startswith (py "-") c = false /\ startswith (py "+") c = false) ->
     (forall k, dict_has k previous = true -> dict_has k current = false ->
                dict_get (py "-" ++ k) d = Some VNone) /\
     (forall k, dict_has k previous = false -> dict_has k current = true ->
                dict_get (py "+" ++ k) d = dict_get k current)) /\
    (forall key, dict_has key d = true ->
       (exists k, dict_has k previous = true /\ dict_has k current = false /\
                  key = py "-" ++ k) \/
       (exists k, dict_has k previous = false /\ dict_has k current = true /\
                  key = py "+" ++ k) \/
       (exists k identical subdelta,
          dict_has k previous = true /\ dict_has k current = true /\
          delta_key previous current k = Ok (identical, subdelta) /\
          In key (entry_keys identical k))).

(** C7 as the design states it: besides the markers of the removed and
    the added keys, the delta holds a key only when the two values of a
    shared key differ. *)
Definition mapping_law_as_stated
    (previous current : list (str * value)) : Prop :=
  forall b d,
    delta (VDict previous) (VDict current) = Ok (b, VDict d) ->
    forall key, dict_has key d = true ->
      (exists k, dict_has k previous = true /\ dict_has k current = false /\
                 key = py "-" ++ k) \/
      (exists k, dict_has k previous = false /\ dict_has k current = true /\
                 key = py "+" ++ k) \/
      (exists k pv cv, dict_get k previous = Some pv /\
                       dict_get k current = Some cv /\ py_eq pv cv = false).

End Statements.

(** *** The further properties *)

(** The value the collapse keeps for the key [k]: that of the last pair
    of [items] with this key. *)
Fixpoint last_entry (k : str) (items : list value) : option value :=
  match items with
  | [] => None
  | x :: items' =>
      match last_entry k items' with
      | Some w => Some w
      | None =>
          match x with
          | VList [VStr k'; w] => if str_eqb k k' then Some w else None
          | _ => None
          end
      end
  end.

(** The list the list branch of [delta] returns for the additions and
    the removals it found, when they are fewer than the elements of the
    new list: [["...", *additions]], [["---", *removals]] or both. *)
Definition list_report (additions removals : list value) : list value :=
  if Nat.eqb (length removals) 0 then VStr (py "...") :: additions
  else if Nat.eqb (length additions) 0 then VStr (py "---") :: removals
  else VStr (py "...") :: additions ++ VStr (py "---") :: removals.

(** The walk of the list diff, as the design words it, over the
    elements of the previous and of the new list with their hashes, and
    the removals and additions it finds.  A previous element none of the
    new elements left has the hash of is a removal.  Otherwise it is
    matched with the first new element left that has its hash: the
    elements before that one are additions, and the walk goes on behind
    it.  The new elements left at the end are additions. *)
Inductive list_walk :
  list (value * bytes) -> list (value * bytes) ->
  list value -> list value -> Prop :=
| walk_end current : list_walk [] current [] (map fst current)
| walk_removed p previous current removals additions :
    Forall (fun n => snd n <> snd p) current ->
    list_walk previous current removals additions ->
    list_walk (p :: previous) current (fst p :: removals) additions
| walk_matched p previous before n after removals additions :
    Forall (fun m => snd m <> snd p) before -> snd n = snd p ->
    list_walk previous after removals additions ->
    list_walk (p :: previous) (before ++ n :: after)
      removals (map fst before ++ additions).

(** Printable ASCII text. *)
Definition printable (s : str) : Prop := Forall (fun c => (32 <= c <= 126)%N) s.

(** The file of a log that has its preamble exists. *)
Definition log_ok (st : Log * files) : Prop :=
  mode (fst st) = absent \/ is_Some (snd st !! path (fst st)).

(** The content of the file of the log before a record is appended: the
    preamble when the file is still to be written, what the file holds
    otherwise. *)
Definition log_content {env : Environment} (st : Log * files) : str :=
  match mode (fst st) with
  | absent => preamble_text
  | _ => default [] (snd st !! path (fst st))
  end.

(** *** An environment for the examples *)

(** [str.lower] on ASCII text. *)
Definition ascii_lower (s : str) : str :=
  map (fun c => if ((65 <=? c) && (c <=? 90))%N then (c + 32)%N else c) s.

(** An environment for the inputs below, which hold no JSON text and no
    float and compare no hashes: no text is read as JSON, a float prints
    as [nan], a digest is the data itself, header names are ASCII, and
    the operating system refuses no name. *)
Definition plain_env : Environment := {|
  json_loads := fun _ => None;
  float_repr := fun _ => py "nan";
  hashlib_blake2b := fun data => data;
  str_lower := ascii_lower;
  LOGDIR := py "/home/user/antigravity-trace";
  preamble_text := py "<!DOCTYPE html>";
  os_rename_error := fun _ => None
|}.

(** The last component of a path: what follows its last [/]. *)
Fixpoint basename (name path : str) : str :=
  match path with
  | [] => name
  | c :: path' =>
      if (c =? 47)%N then basename [] path' else basename (name ++ [c]) path'
  end.

(** What [Path.rename] raises for a destination on Linux: the path is
    encoded as UTF-8, which a lone surrogate does not allow
    ([UnicodeEncodeError], a [ValueError]), and a file name of more than
    255 bytes is refused ([OSError], with [ENAMETOOLONG]). *)
Definition linux_rename_error (path : str) : option exn :=
  match encode_utf8 (basename [] path) with
  | Raise e => Some e
  | Ok name => if (255 <? length name)%nat then Some OSError else None
  end.

(** The environment above on a Linux file system. *)
Definition linux_env : Environment := {|
  json_loads := fun _ => None;
  float_repr := fun _ => py "nan";
  hashlib_blake2b := fun data => data;
  str_lower := ascii_lower;
  LOGDIR := py "/home/user/antigravity-trace";
  preamble_text := py "<!DOCTYPE html>";
  os_rename_error := linux_rename_error
|}.

(** The integer written with [n] nines, and the one written as a one
    and [n] zeros. *)
Definition nines (n : nat) : Z :=
  Z.of_int (Decimal.Pos (Nat.iter n Decimal.D9 Decimal.Nil)).

Definition one_and_zeros (n : nat) : Z :=
  Z.of_int (Decimal.Pos (Decimal.D1 (Nat.iter n Decimal.D0 Decimal.Nil))).

(** A request for the title of a conversation, and an answer with the
    title [Fix login] on the first of its two lines. *)
Definition title_request : value :=
  VDict [(py "contents",
          VList [VDict [(py "parts",
                         VList [VDict [(py "text",
                                        VStr (py "Generate a short conversation title for this chat"))]])]])].

Definition title_response : value :=
  VDict [(py "response",
          VDict [(py "candidates",
                  VList [VDict [(py "content",
                                 VDict [(py "parts",
                                         VList [VDict [(py "text",
                                                        VStr ([32] ++ py "Fix login" ++ [10] ++ py "more")%N)]])])]])])].

(* ===================================================================== *)
(** ** Properties of the decoder *)
(* ===================================================================== *)

Lemma byte_val_range (b : Byte.byte) : 0 <= byte_val b < 256.
Proof.
  unfold byte_val. pose proof (Byte.to_N_bounded b). lia.
Qed.

Lemma low7_range (x : Z) : 0 <= Z.land x 0x7F < 128.
Proof.
  change 0x7F with (Z.ones 7). rewrite Z.land_ones by lia.
  apply Z.mod_pos_bound. reflexivity.
Qed.

(** Bits that do not overlap are added by [|]. *)
Lemma lor_shiftl_add (a b s : Z) :
  0 <= s -> 0 <= a < 2 ^ s -> 0 <= b ->
  Z.lor a (Z.shiftl b s) = a + b * 2 ^ s.
Proof.
  intros Hs Ha Hb.
  rewrite Z.shiftl_mul_pow2 by lia.
  assert (Hdisj : Z.land a (b * 2 ^ s) = 0).
  { apply Z.bits_inj'. intros n Hn. rewrite Z.land_spec, Z.bits_0.
    destruct (Z.lt_ge_cases n s) as [Hlt | Hge].
    - rewrite Z.mul_pow2_bits_low by lia. apply andb_false_r.
    - replace (Z.testbit a n) with false; [reflexivity|].
      symmetry. destruct (Z.eq_dec a 0) as [-> | Hne].
      + apply Z.bits_0.
      + apply Z.bits_above_log2; [lia|].
        apply Z.lt_le_trans with s; [|lia].
        apply Z.log2_lt_pow2; lia. }
  rewrite <- Z.lxor_lor by exact Hdisj.
  symmetry. now apply Z.add_nocarry_lxor.
Qed.

Lemma varint_val_range (k : bytes) :
  0 <= varint_val k < 2 ^ (7 * Z.of_nat (length k)).
Proof.
  induction k as [|b k IH]; simpl; [lia|].
  pose proof (low7_range (byte_val b)) as Hb.
  fold (varint_val k).
  replace (7 * Z.of_nat (S (length k))) with (7 + 7 * Z.of_nat (length k)) by lia.
  rewrite Z.pow_add_r by lia. change (2 ^ 7) with 128. nia.
Qed.

(** What [read_varint_loop] returns on success, and when it fails. *)
Lemma read_varint_loop_spec (rest : bytes) :
  forall pos shift value, 0 <= shift -> 0 <= value < 2 ^ shift ->
  match read_varint_loop rest pos shift value with
  | Ok (v, pos') =>
      exists k r, rest = k ++ r /\ varint_enc k /\
                  pos' = (pos + length k)%nat /\
                  v = value + varint_val k * 2 ^ shift
  | Raise e =>
      e = AssertionError /\ Forall (fun b => 0x80 <= byte_val b) rest
  end.
Proof.
  induction rest as [|b rest IH]; intros pos shift value Hs Hv; simpl.
  - split; [reflexivity | constructor].
  - pose proof (low7_range (byte_val b)) as Hb.
    rewrite lor_shiftl_add by lia.
    destruct (byte_val b <? 0x80) eqn:Hlt.
    + apply Z.ltb_lt in Hlt.
      exists [b], rest. repeat split.
      * now constructor.
      * simpl. lia.
      * simpl. f_equal. lia.
    + apply Z.ltb_ge in Hlt.
      specialize (IH (S pos) (shift + 7)
                     (value + Z.land (byte_val b) 0x7F * 2 ^ shift)).
      assert (Hnew : 0 <= value + Z.land (byte_val b) 127 * 2 ^ shift
                     < 2 ^ (shift + 7)).
      { rewrite Z.pow_add_r by lia. change (2 ^ 7) with 128. nia. }
      specialize (IH ltac:(lia) Hnew).
      destruct (read_varint_loop rest (S pos) (shift + 7) _) as [[v pos']|e].
      * destruct IH as (k & r & -> & Hk & -> & ->).
        exists (b :: k), r. repeat split.
        -- now constructor.
        -- simpl. lia.
        -- simpl. fold (varint_val k).
           rewrite Z.pow_add_r by lia. change (2 ^ 7) with 128. lia.
      * destruct IH as [-> HF]. split; [reflexivity|]. now constructor.
Qed.

Lemma read_varint_loop_enc (k : bytes) :
  varint_enc k ->
  forall r pos shift value, 0 <= shift -> 0 <= value < 2 ^ shift ->
  read_varint_loop (k ++ r) pos shift value
  = Ok (value + varint_val k * 2 ^ shift, (pos + length k)%nat).
Proof.
  induction 1 as [b Hb | b k Hb Hk IH]; intros r pos shift value Hs Hv; simpl.
  - pose proof (low7_range (byte_val b)).
    rewrite lor_shiftl_add by lia.
    apply Z.ltb_lt in Hb. rewrite Hb. do 2 f_equal; lia.
  - pose proof (low7_range (byte_val b)) as Hl.
    rewrite lor_shiftl_add by lia.
    assert (Hge : (byte_val b <? 128) = false) by (apply Z.ltb_ge; lia).
    rewrite Hge. rewrite IH.
    + fold (varint_val k). rewrite Z.pow_add_r by lia.
      change (2 ^ 7) with 128. do 2 f_equal; lia.
    + lia.
    + rewrite Z.pow_add_r by lia. change (2 ^ 7) with 128. nia.
Qed.

Lemma read_varint_spec (buf : bytes) (pos : nat) :
  match read_varint buf pos with
  | Ok (v, pos') =>
      exists k r, skipn pos buf = k ++ r /\ varint_enc k /\
                  pos' = (pos + length k)%nat /\ v = varint_val k
  | Raise e =>
      e = AssertionError /\ Forall (fun b => 0x80 <= byte_val b) (skipn pos buf)
  end.
Proof.
  unfold read_varint.
  pose proof (read_varint_loop_spec (skipn pos buf) pos 0 0) as H.
  specialize (H ltac:(lia) ltac:(simpl; lia)).
  destruct (read_varint_loop (skipn pos buf) pos 0 0) as [[v pos']|e]; [|exact H].
  destruct H as (k & r & Hk & Henc & -> & ->).
  exists k, r. repeat split; try assumption. simpl. lia.
Qed.

Lemma read_varint_enc (buf : bytes) (pos : nat) (k r : bytes) :
  skipn pos buf = k ++ r -> varint_enc k ->
  read_varint buf pos = Ok (varint_val k, (pos + length k)%nat).
Proof.
  intros Hsk Hk. unfold read_varint. rewrite Hsk.
  rewrite (read_varint_loop_enc k Hk) by (simpl; lia).
  do 2 f_equal. simpl. lia.
Qed.

Lemma varint_enc_nonempty (k : bytes) : varint_enc k -> (0 < length k)%nat.
Proof. destruct 1; simpl; lia. Qed.

Lemma skipn_app_length {A} (buf k r : list A) (pos : nat) :
  skipn pos buf = k ++ r -> skipn (pos + length k) buf = r.
Proof.
  intros H. rewrite Nat.add_comm, <- skipn_skipn, H.
  rewrite skipn_app, Nat.sub_diag, skipn_all. reflexivity.
Qed.

Lemma skipn_length_le {A} (buf k r : list A) (pos : nat) :
  skipn pos buf = k ++ r -> (pos <= length buf)%nat ->
  (pos + length k + length r = length buf)%nat.
Proof.
  intros H Hle. apply (f_equal (@length A)) in H.
  rewrite length_skipn, length_app in H. lia.
Qed.

Lemma proto_fields_step f fuel buf pos out :
  proto_fields f (S fuel) buf pos out
  = if (pos <? length buf)%nat then
      let* (v, pos') := field_at f buf pos in
      proto_fields f fuel buf pos' (out ++ [v])
    else Ok (pos, out).
Proof.
  cbn [proto_fields]. unfold field_at.
  destruct (pos <? length buf)%nat; [|reflexivity].
  destruct (read_varint buf pos) as [[key pos1]|e]; cbn [bind]; [|reflexivity].
  destruct (Z.land key 7 =? 0).
  { destruct (read_varint buf pos1) as [[val pos2]|e]; reflexivity. }
  destruct (Z.land key 7 =? 1).
  { destruct (assert (pos1 + 8 <=? length buf)%nat); reflexivity. }
  destruct (Z.land key 7 =? 2).
  { destruct (read_varint buf pos1) as [[len pos2]|e]; cbn [bind]; [|reflexivity].
    destruct (assert _); cbn [bind]; [|reflexivity].
    destruct (f _); reflexivity. }
  destruct (Z.land key 7 =? 5).
  { destruct (assert (pos1 + 4 <=? length buf)%nat); reflexivity. }
  reflexivity.
Qed.

Lemma assert_ok (c : bool) (u : unit) : assert c = Ok u -> c = true.
Proof. destruct c; [reflexivity | discriminate]. Qed.

(** A field that is read lies within the buffer and is a field of the
    wire format. *)
Lemma field_at_sound f buf pos v pos' :
  (pos <= length buf)%nat ->
  field_at f buf pos = Ok (v, pos') ->
  exists fb r, skipn pos buf = fb ++ r /\ wire_field fb /\
               pos' = (pos + length fb)%nat /\
               (pos < pos')%nat /\ (pos' <= length buf)%nat.
Proof.
  intros Hpos. unfold field_at.
  pose proof (read_varint_spec buf pos) as Hkey.
  destruct (read_varint buf pos) as [[key pos1]|e]; cbn [bind]; [|discriminate].
  destruct Hkey as (k & r & Hsk & Hk & -> & ->).
  pose proof (varint_enc_nonempty k Hk) as Hk0.
  pose proof (skipn_length_le buf k r pos Hsk Hpos) as Hlen.
  pose proof (skipn_app_length buf k r pos Hsk) as Hr.
  destruct (Z.land (varint_val k) 7 =? 0) eqn:W0.
  { apply Z.eqb_eq in W0.
    pose proof (read_varint_spec buf (pos + length k)) as Hval.
    destruct (read_varint buf (pos + length k)) as [[val pos2]|e];
      cbn [bind]; [|discriminate].
    destruct Hval as (kv & r' & Hsk' & Hkv & -> & ->).
    intros [= <- <-]. rewrite Hr in Hsk'. clear Hr. subst r.
    pose proof (varint_enc_nonempty kv Hkv).
    rewrite length_app in Hlen.
    exists (k ++ kv), r'. rewrite length_app, <- app_assoc.
    repeat split; try lia; try assumption. now apply field_varint. }
  destruct (Z.land (varint_val k) 7 =? 1) eqn:W1.
  { apply Z.eqb_eq in W1.
    destruct (assert _) eqn:Ha; cbn [bind]; [|discriminate].
    apply assert_ok, Nat.leb_le in Ha. intros [= <- <-].
    exists (k ++ firstn 8 r), (skipn 8 r).
    assert (Hl8 : length (firstn 8 r) = 8%nat) by (rewrite length_firstn; lia).
    rewrite length_app, Hl8, <- app_assoc, firstn_skipn.
    repeat split; try lia; try assumption. now apply field_fixed64. }
  destruct (Z.land (varint_val k) 7 =? 2) eqn:W2.
  { apply Z.eqb_eq in W2.
    pose proof (read_varint_spec buf (pos + length k)) as Hval.
    destruct (read_varint buf (pos + length k)) as [[len pos2]|e];
      cbn [bind]; [|discriminate].
    destruct Hval as (kl & r' & Hsk' & Hkl & -> & ->).
    destruct (assert _) eqn:Ha; cbn [bind]; [|discriminate].
    apply assert_ok, Z.leb_le in Ha.
    destruct (f _) as [w|e]; cbn [bind]; [|discriminate].
    intros [= <- <-]. rewrite Hr in Hsk'. clear Hr. subst r.
    pose proof (varint_enc_nonempty kl Hkl).
    pose proof (varint_val_range kl) as [Hv0 _].
    rewrite length_app in Hlen.
    set (n := Z.to_nat (varint_val kl)) in *.
    assert (Hn : (n <= length r')%nat) by lia.
    exists (k ++ kl ++ firstn n r'), (skipn n r').
    assert (Hln : length (firstn n r') = n) by (rewrite length_firstn; lia).
    rewrite !length_app, Hln, <- !app_assoc, firstn_skipn.
    repeat split; try lia; try assumption.
    apply field_blob; try assumption. rewrite Hln. lia. }
  destruct (Z.land (varint_val k) 7 =? 5) eqn:W5.
  { apply Z.eqb_eq in W5.
    destruct (assert _) eqn:Ha; cbn [bind]; [|discriminate].
    apply assert_ok, Nat.leb_le in Ha. intros [= <- <-].
    exists (k ++ firstn 4 r), (skipn 4 r).
    assert (Hl4 : length (firstn 4 r) = 4%nat) by (rewrite length_firstn; lia).
    rewrite length_app, Hl4, <- app_assoc, firstn_skipn.
    repeat split; try lia; try assumption. now apply field_fixed32. }
  discriminate.
Qed.

(** With a blob normalizer that always returns, a field that cannot be
    read is an [AssertionError]. *)
Lemma field_at_raise f buf pos e :
  (forall b, exists v, f b = Ok v) ->
  field_at f buf pos = Raise e -> e = AssertionError.
Proof.
  intros Hf. unfold field_at.
  pose proof (read_varint_spec buf pos) as Hkey.
  destruct (read_varint buf pos) as [[key pos1]|e1]; cbn [bind].
  2:{ destruct Hkey as [-> _]. now intros [= <-]. }
  clear Hkey.
  destruct (Z.land key 7 =? 0).
  { pose proof (read_varint_spec buf pos1) as Hval.
    destruct (read_varint buf pos1) as [[val pos2]|e1]; cbn [bind]; [discriminate|].
    destruct Hval as [-> _]. now intros [= <-]. }
  destruct (Z.land key 7 =? 1).
  { unfold assert. destruct (_ <=? _)%nat; cbn [bind]; [discriminate|].
    now intros [= <-]. }
  destruct (Z.land key 7 =? 2).
  { pose proof (read_varint_spec buf pos1) as Hval.
    destruct (read_varint buf pos1) as [[len pos2]|e1]; cbn [bind].
    2:{ destruct Hval as [-> _]. now intros [= <-]. }
    unfold assert. destruct (_ <=? _); cbn [bind]; [|now intros [= <-]].
    destruct (Hf (slice buf pos2 (pos2 + Z.to_nat len))) as [w ->].
    discriminate. }
  destruct (Z.land key 7 =? 5).
  { unfold assert. destruct (_ <=? _)%nat; cbn [bind]; [discriminate|].
    now intros [= <-]. }
  now intros [= <-].
Qed.

(** A field of the wire format is read, whatever follows it. *)
Lemma field_at_complete f buf pos fb r :
  (forall b, exists v, f b = Ok v) ->
  (pos <= length buf)%nat ->
  skipn pos buf = fb ++ r -> wire_field fb ->
  exists v, field_at f buf pos = Ok (v, (pos + length fb)%nat).
Proof.
  intros Hf Hpos Hsk Hfb. unfold field_at.
  pose proof (skipn_length_le buf fb r pos Hsk Hpos) as Hlen.
  destruct Hfb as [k v Hk W Hv | k p Hk W Hp | k l p Hk W Hl Hp | k p Hk W Hp];
    rewrite <- app_assoc in Hsk;
    rewrite (read_varint_enc buf pos k _ Hsk Hk); cbn [bind];
    rewrite W; cbn [Z.eqb Pos.eqb];
    apply skipn_app_length in Hsk; rewrite !length_app in *.
  - rewrite (read_varint_enc buf _ v r Hsk Hv); cbn [bind].
    eexists. do 2 f_equal. lia.
  - assert (Hb : (pos + length k + 8 <=? length buf)%nat = true)
      by (apply Nat.leb_le; lia).
    rewrite Hb; cbn [assert bind]. eexists. do 2 f_equal. lia.
  - rewrite <- app_assoc in Hsk.
    rewrite (read_varint_enc buf _ l _ Hsk Hl); cbn [bind].
    assert (Hb : (Z.of_nat (pos + length k + length l) + varint_val l
                  <=? Z.of_nat (length buf)) = true)
      by (apply Z.leb_le; lia).
    rewrite Hb; cbn [assert bind].
    destruct (Hf (slice buf (pos + length k + length l)
                    (pos + length k + length l + Z.to_nat (varint_val l))))
      as [w ->]; cbn [bind].
    eexists. do 2 f_equal. lia.
  - assert (Hb : (pos + length k + 4 <=? length buf)%nat = true)
      by (apply Nat.leb_le; lia).
    rewrite Hb; cbn [assert bind]. eexists. do 2 f_equal. lia.
Qed.

(** Only blobs at least two bytes shorter than the buffer are handed to
    the blob normalizer. *)
Lemma field_at_ext f g buf pos :
  (forall b, (length b + 2 <= length buf)%nat -> f b = g b) ->
  field_at f buf pos = field_at g buf pos.
Proof.
  intros Hfg. unfold field_at.
  pose proof (read_varint_spec buf pos) as Hkey.
  destruct (read_varint buf pos) as [[key pos1]|e1]; cbn [bind]; [|reflexivity].
  destruct Hkey as (k & r & Hsk & Hk & -> & _).
  apply varint_enc_nonempty in Hk.
  apply (f_equal (@length _)) in Hsk. rewrite length_skipn, length_app in Hsk.
  destruct (Z.land key 7 =? 0); [reflexivity|].
  destruct (Z.land key 7 =? 1); [reflexivity|].
  destruct (Z.land key 7 =? 2); [|reflexivity].
  pose proof (read_varint_spec buf (pos + length k)) as Hval.
  destruct (read_varint buf (pos + length k)) as [[len pos2]|e1];
    cbn [bind]; [|reflexivity].
  destruct Hval as (kl & r' & Hsk' & Hkl & -> & _).
  apply varint_enc_nonempty in Hkl.
  apply (f_equal (@length _)) in Hsk'. rewrite length_skipn, length_app in Hsk'.
  destruct (assert _); cbn [bind]; [|reflexivity].
  rewrite Hfg; [reflexivity|].
  unfold slice. rewrite length_firstn, length_skipn. lia.
Qed.

(** The loop ends exactly at the end of the buffer, on a buffer that is
    a sequence of fields. *)
Lemma proto_fields_sound f fuel :
  forall buf pos out pos' out',
  (pos <= length buf)%nat ->
  proto_fields f fuel buf pos out = Ok (pos', out') ->
  pos' = length buf /\ wire_stream (skipn pos buf).
Proof.
  induction fuel as [|fuel IH]; intros buf pos out pos' out' Hpos.
  - cbn [proto_fields]. destruct (pos <? length buf)%nat eqn:Hlt; [discriminate|].
    apply Nat.ltb_ge in Hlt. intros [= <- <-].
    split; [lia|]. rewrite skipn_all2 by lia. constructor.
  - rewrite proto_fields_step.
    destruct (pos <? length buf)%nat eqn:Hlt.
    + destruct (field_at f buf pos) as [[v pos1]|e] eqn:Hfield;
        cbn [bind]; [|discriminate].
      destruct (field_at_sound _ _ _ _ _ Hpos Hfield)
        as (fb & r & Hsk & Hfb & -> & _ & Hle).
      intros Hrest. destruct (IH _ _ _ _ _ Hle Hrest) as [-> Hstream].
      split; [reflexivity|]. rewrite Hsk.
      rewrite (skipn_app_length _ _ _ _ Hsk) in Hstream.
      now constructor.
    + apply Nat.ltb_ge in Hlt. intros [= <- <-].
      split; [lia|]. rewrite skipn_all2 by lia. constructor.
Qed.

Lemma wire_field_nonempty fb : wire_field fb -> (0 < length fb)%nat.
Proof.
  destruct 1 as [k ? Hk| k ? Hk | k ? ? Hk | k ? Hk];
    apply varint_enc_nonempty in Hk; rewrite length_app; lia.
Qed.

(** A sequence of fields is consumed to its end. *)
Lemma proto_fields_complete f s :
  (forall b, exists v, f b = Ok v) ->
  wire_stream s ->
  forall fuel buf pos out,
  skipn pos buf = s -> (pos <= length buf)%nat ->
  (length buf - pos <= fuel)%nat ->
  exists out', proto_fields f fuel buf pos out = Ok (length buf, out').
Proof.
  intros Hf. induction 1 as [|fb r Hfb Hr IH]; intros fuel buf pos out Hsk Hpos Hfuel.
  - apply (f_equal (@length _)) in Hsk. rewrite length_skipn in Hsk. simpl in Hsk.
    assert (pos = length buf) as -> by lia.
    exists out. destruct fuel; cbn [proto_fields]; rewrite Nat.ltb_irrefl; reflexivity.
  - pose proof (wire_field_nonempty fb Hfb) as Hne.
    pose proof (skipn_length_le buf fb r pos Hsk Hpos) as Hlen.
    destruct fuel as [|fuel]; [lia|].
    rewrite proto_fields_step.
    assert (Hlt : (pos <? length buf)%nat = true) by (apply Nat.ltb_lt; lia).
    rewrite Hlt.
    destruct (field_at_complete f buf pos fb r Hf Hpos Hsk Hfb) as [v ->].
    cbn [bind]. apply IH; [|lia|lia].
    now apply skipn_app_length with (k := fb).
Qed.

(** With enough fuel and a blob normalizer that always returns, the loop
    fails with an [AssertionError] only. *)
Lemma proto_fields_raise f fuel :
  (forall b, exists v, f b = Ok v) ->
  forall buf pos out e,
  (pos <= length buf)%nat -> (length buf - pos <= fuel)%nat ->
  proto_fields f fuel buf pos out = Raise e -> e = AssertionError.
Proof.
  intros Hf. induction fuel as [|fuel IH]; intros buf pos out e Hpos Hfuel.
  - cbn [proto_fields].
    assert (Hlt : (pos <? length buf)%nat = false) by (apply Nat.ltb_ge; lia).
    rewrite Hlt. discriminate.
  - rewrite proto_fields_step.
    destruct (pos <? length buf)%nat; [|discriminate].
    destruct (field_at f buf pos) as [[v pos1]|e1] eqn:Hfield; cbn [bind].
    + destruct (field_at_sound _ _ _ _ _ Hpos Hfield)
        as (fb & r & _ & _ & _ & Hlt & Hle).
      apply IH; lia.
    + intros [= <-]. now apply field_at_raise with f buf pos.
Qed.

(** The loop does not depend on the fuel once there is enough of it, nor
    on what the blob normalizer does on buffers that are not shorter. *)
Lemma proto_fields_ext f g :
  forall fuel1 fuel2 buf pos out,
  (forall b, (length b + 2 <= length buf)%nat -> f b = g b) ->
  (pos <= length buf)%nat ->
  (length buf - pos <= fuel1)%nat -> (length buf - pos <= fuel2)%nat ->
  proto_fields f fuel1 buf pos out = proto_fields g fuel2 buf pos out.
Proof.
  induction fuel1 as [|fuel1 IH]; intros fuel2 buf pos out Hfg Hpos H1 H2.
  - assert (Hlt : (pos <? length buf)%nat = false) by (apply Nat.ltb_ge; lia).
    destruct fuel2; cbn [proto_fields]; now rewrite Hlt.
  - destruct fuel2 as [|fuel2].
    + assert (Hlt : (pos <? length buf)%nat = false) by (apply Nat.ltb_ge; lia).
      cbn [proto_fields]; now rewrite Hlt.
    + rewrite !proto_fields_step.
      destruct (pos <? length buf)%nat; [|reflexivity].
      rewrite (field_at_ext f g buf pos Hfg).
      destruct (field_at g buf pos) as [[v pos1]|e] eqn:Hfield;
        cbn [bind]; [|reflexivity].
      destruct (field_at_sound _ _ _ _ _ Hpos Hfield)
        as (fb & r & _ & _ & _ & Hlt & Hle).
      apply IH; try assumption; lia.
Qed.

Lemma dict_of_items_raise items : forall d e,
  dict_of_items d items = Raise e -> e = TypeError.
Proof.
  induction items as [|i items IH]; intros d e; cbn [dict_of_items]; [discriminate|].
  destruct i as [| | | | |l|]; try (now intros [= <-]).
  destruct l as [|k [|w [|? ?]]]; try (now intros [= <-]);
    destruct k; try (now intros [= <-]); apply IH.
Qed.

Lemma collapse_raise out e : collapse out = Raise e -> e = TypeError.
Proof.
  unfold collapse. destruct out as [|x [|y out]]; try discriminate.
  destruct (py_iter x) as [items|e1] eqn:Hit; cbn [bind].
  - destruct (forallb is_entry items); [|discriminate].
    unfold py_dict. destruct x; try discriminate; rewrite Hit; cbn [bind];
      destruct (dict_of_items [] items) eqn:Hd; cbn [bind]; try discriminate;
      intros [= <-]; now apply dict_of_items_raise in Hd.
  - intros [= <-]. destruct x; simpl in Hit; congruence.
Qed.

Section NormalizerFacts.

Context {env : Environment}.

Lemma pretty_text_ok (s : str) : exists v, pretty_text s = Ok v.
Proof.
  unfold pretty_text.
  destruct (json_loads _); [eauto|].
  destruct (mapM _ _); eauto.
Qed.

Lemma pretty_bytes_ok proto (b : bytes) :
  exists v, pretty_bytes proto b = Ok v.
Proof.
  unfold pretty_bytes, try_except.
  destruct (proto b); [eauto|].
  destruct (decode_utf8 b); [|eauto].
  destruct (_ <? _)%nat; [eauto|]. apply pretty_text_ok.
Qed.

(** [len(buf) + 1] levels of nesting are enough: more fuel changes
    nothing. *)
Lemma pretty_proto_n_fuel (n : nat) :
  forall m buf, (length buf < n)%nat -> (length buf < m)%nat ->
  pretty_proto_n n buf = pretty_proto_n m buf.
Proof.
  induction n as [|n IH]; intros m buf Hn Hm; [lia|].
  destruct m as [|m]; [lia|]. cbn [pretty_proto_n].
  rewrite (proto_fields_ext
             (pretty_bytes (pretty_proto_n n))
             (pretty_bytes (pretty_proto_n m))
             n m buf 0 []); try lia; [reflexivity|].
  intros b Hb. unfold pretty_bytes. rewrite (IH m b); [reflexivity|lia|lia].
Qed.

(** [pretty_proto] as the source has it: the loop over the fields with
    [pretty] on every length-delimited blob, the check that the buffer
    is consumed, and the collapse. *)
Lemma pretty_proto_eq (buf : bytes) :
  pretty_proto buf
  = let* (pos, out) :=
      proto_fields (fun blob => pretty (PBytes blob))
                   (length buf) buf 0 [] in
    let* _ := assert (Nat.eqb pos (length buf)) in
    collapse out.
Proof.
  unfold pretty_proto. cbn [pretty_proto_n].
  rewrite (proto_fields_ext
             (pretty_bytes (pretty_proto_n (length buf)))
             (fun blob => pretty (PBytes blob))
             (length buf) (length buf) buf 0 []); try lia; [reflexivity|].
  intros b Hb. cbn [pretty]. unfold pretty_bytes, pretty_proto.
  rewrite (pretty_proto_n_fuel (length buf) (S (length b)) b); [reflexivity|lia|lia].
Qed.

(** Normalization always returns a value. *)
Lemma pretty_total (p : payload) : exists v, pretty p = Ok v.
Proof.
  destruct p as [|b|s]; cbn [pretty].
  - eauto.
  - apply pretty_bytes_ok.
  - apply pretty_text_ok.
Qed.

Lemma pretty_blob_total :
  forall b, exists v, (fun blob => pretty (PBytes blob)) b = Ok v.
Proof. intros b. apply pretty_total. Qed.

(** The decoder fails with the [AssertionError] of one of its checks,
    or with a [TypeError] of the collapse. *)
Lemma pretty_proto_raise (buf : bytes) (e : exn) :
  pretty_proto buf = Raise e ->
  e = AssertionError \/ e = TypeError.
Proof.
  rewrite pretty_proto_eq.
  destruct (proto_fields _ _ buf 0 []) as [[pos out]|e1] eqn:Hloop; cbn [bind].
  - unfold assert. destruct (Nat.eqb _ _); cbn [bind].
    + intros H. right. now apply collapse_raise with out.
    + intros [= <-]. now left.
  - apply proto_fields_raise in Hloop; [|apply pretty_blob_total|lia|lia].
    intros [= <-]. now left.
Qed.

(** The loop bound of the model is never reached. *)
Lemma pretty_proto_fuel (buf : bytes) :
  pretty_proto buf <> Raise OutOfFuel.
Proof.
  intros H. apply pretty_proto_raise in H. destruct H; discriminate.
Qed.

End NormalizerFacts.

(* --------------------------------------------------------------------- *)
(** *** Induction on values *)
(* --------------------------------------------------------------------- *)

Section ValueInd.

Variable P : value -> Prop.
Hypothesis HNone : P VNone.
Hypothesis HBool : forall b, P (VBool b).
Hypothesis HInt : forall z, P (VInt z).
Hypothesis HFloat : forall f, P (VFloat f).
Hypothesis HStr : forall s, P (VStr s).
Hypothesis HList : forall l, Forall P l -> P (VList l).
Hypothesis HDict : forall d, Forall (fun kv => P (snd kv)) d -> P (VDict d).

Fixpoint value_nested_ind (v : value) : P v :=
  match v with
  | VNone => HNone
  | VBool b => HBool b
  | VInt z => HInt z
  | VFloat f => HFloat f
  | VStr s => HStr s
  | VList l =>
      HList l
        ((fix go (l : list value) : Forall P l :=
            match l with
            | [] => List.Forall_nil _
            | x :: l' => List.Forall_cons _ _ _ (value_nested_ind x) (go l')
            end) l)
  | VDict d =>
      HDict d
        ((fix go (d : list (str * value)) : Forall (fun kv => P (snd kv)) d :=
            match d with
            | [] => List.Forall_nil _
            | kv :: d' => List.Forall_cons _ _ _ (value_nested_ind (snd kv)) (go d')
            end) d)
  end.

End ValueInd.

(* --------------------------------------------------------------------- *)
(** *** The text [json.dumps] writes is ASCII, so hashing it never fails *)
(* --------------------------------------------------------------------- *)

Lemma ascii_only_app (a b : str) :
  ascii_only a -> ascii_only b -> ascii_only (a ++ b).
Proof. unfold ascii_only. intros. apply Forall_app. now split. Qed.

Lemma ascii_only_join (sep : str) (parts : list str) :
  ascii_only sep -> Forall ascii_only parts -> ascii_only (join sep parts).
Proof.
  intros Hsep. induction 1 as [|p rest Hp Hrest IH]; simpl.
  - constructor.
  - destruct rest; [exact Hp|].
    apply ascii_only_app; [exact Hp|]. apply ascii_only_app; assumption.
Qed.

Lemma hex_digit_ascii (n : N) : (n < 16)%N -> (hex_digit n < 128)%N.
Proof. unfold hex_digit. destruct (n <? 10)%N; lia. Qed.

Lemma hex4_ascii (n : N) : (n < 65536)%N -> ascii_only (hex4 n).
Proof.
  intros Hn. unfold hex4.
  repeat constructor; apply hex_digit_ascii;
    try (apply N.mod_lt; lia).
  apply N.Div0.div_lt_upper_bound. lia.
Qed.

Lemma json_escape_char_ascii (c : N) : ascii_only (json_escape_char c).
Proof.
  unfold json_escape_char.
  repeat (match goal with
          | |- context [if ?b then _ else _] => destruct b eqn:?
          end; [repeat constructor; lia|]);
  repeat match goal with
         | |- context [if ?b then _ else _] => destruct b eqn:?
         end.
  - apply andb_prop in Heqb6 as [_ H]. apply N.leb_le in H.
    repeat constructor. lia.
  - apply N.ltb_lt in Heqb7.
    apply (ascii_only_app [92; 117]%N); [repeat constructor; lia|].
    now apply hex4_ascii.
  - apply (ascii_only_app [92; 117]%N); [repeat constructor; lia|].
    apply ascii_only_app.
    { apply hex4_ascii.
      pose proof (N.mod_lt ((c - 65536) / 1024) 1024 ltac:(lia)). lia. }
    apply (ascii_only_app [92; 117]%N); [repeat constructor; lia|].
    apply hex4_ascii.
    pose proof (N.mod_lt (c - 65536) 1024 ltac:(lia)). lia.
Qed.

Lemma json_string_ascii (s : str) : ascii_only (json_string s).
Proof.
  unfold json_string. apply (ascii_only_app [34%N]); [repeat constructor; lia|].
  apply ascii_only_app; [|repeat constructor; lia].
  induction s as [|c s IH]; simpl; [constructor|].
  apply ascii_only_app; [apply json_escape_char_ascii | exact IH].
Qed.

Lemma uint_digits_ascii (d : Decimal.uint) : ascii_only (uint_digits d).
Proof. induction d; simpl; constructor; try assumption; lia. Qed.

Lemma int_str_ascii (z : Z) : ascii_only (int_str z).
Proof.
  unfold int_str. destruct (Z.to_int z).
  - apply uint_digits_ascii.
  - constructor; [lia | apply uint_digits_ascii].
Qed.

Lemma sort_items_Forall {V} (Q : str * V -> Prop) (l : list (str * V)) :
  Forall Q l -> Forall Q (sort_items l).
Proof.
  induction 1 as [|x l Hx Hl IH]; simpl; [constructor|].
  fold (sort_items l). revert IH. generalize (sort_items l) as m.
  induction m as [|y m IHm]; intros Hm; simpl.
  - now repeat constructor.
  - inversion Hm; subst. destruct (str_leb (fst x) (fst y)).
    + now repeat constructor.
    + constructor; [assumption|]. now apply IHm.
Qed.

Lemma encode_utf8_ascii (s : str) :
  ascii_only s -> exists b, encode_utf8 s = Ok b.
Proof.
  intros Hs. unfold encode_utf8.
  assert (H : exists cs, mapM utf8_encode_char s = Ok cs).
  { induction Hs as [|c s Hc Hs IH]; simpl; [eauto|].
    destruct IH as [cs ->]. unfold utf8_encode_char.
    apply N.ltb_lt in Hc. rewrite Hc. cbn [bind]. eauto. }
  destruct H as [cs ->]. cbn [bind]. eauto.
Qed.

Lemma str_eqb_eq (a b : str) : str_eqb a b = true <-> a = b.
Proof. unfold str_eqb. apply bool_decide_eq_true. Qed.

Lemma str_eqb_refl (a : str) : str_eqb a a = true.
Proof. now apply str_eqb_eq. Qed.

Lemma str_eqb_neq (a b : str) : str_eqb a b = false <-> a <> b.
Proof. unfold str_eqb. apply bool_decide_eq_false. Qed.

Lemma bytes_eqb_refl (a : bytes) : bytes_eqb a a = true.
Proof. unfold bytes_eqb. destruct (List.list_eq_dec _ a a); congruence. Qed.

Lemma ascii_lit (s : string) :
  forallb (fun c => (c <? 128)%N) (py s) = true -> ascii_only (py s).
Proof.
  unfold ascii_only. intros H. apply List.Forall_forall. intros c Hc.
  rewrite forallb_forall in H. apply N.ltb_lt. now apply H.
Qed.

(* --------------------------------------------------------------------- *)
(** *** Dicts, key sets and [sorted] *)
(* --------------------------------------------------------------------- *)

Lemma dict_get_set_eq {V} (k : str) (v : V) (d : list (str * V)) :
  dict_get k (dict_set k v d) = Some v.
Proof.
  induction d as [|[k' v'] d IH]; simpl.
  - now rewrite str_eqb_refl.
  - destruct (str_eqb k k') eqn:E; simpl.
    + now rewrite str_eqb_refl.
    + now rewrite E.
Qed.

Lemma dict_get_set_ne {V} (k k0 : str) (v : V) (d : list (str * V)) :
  k <> k0 -> dict_get k (dict_set k0 v d) = dict_get k d.
Proof.
  intros Hne. induction d as [|[k' v'] d IH]; simpl.
  - apply str_eqb_neq in Hne. now rewrite Hne.
  - destruct (str_eqb k0 k') eqn:E; simpl.
    + apply str_eqb_eq in E. subst k'.
      apply str_eqb_neq in Hne. now rewrite Hne.
    + destruct (str_eqb k k'); [reflexivity | exact IH].
Qed.

Lemma dict_has_set {V} (k k0 : str) (v : V) (d : list (str * V)) :
  dict_has k (dict_set k0 v d) = str_eqb k k0 || dict_has k d.
Proof.
  unfold dict_has. destruct (str_eqb k k0) eqn:E.
  - apply str_eqb_eq in E. subst. now rewrite dict_get_set_eq.
  - apply str_eqb_neq in E. now rewrite dict_get_set_ne.
Qed.

Lemma dict_has_In {V} (k : str) (d : list (str * V)) :
  dict_has k d = true <-> In k (dict_keys d).
Proof.
  unfold dict_has. induction d as [|[k' v'] d IH]; simpl.
  - split; [discriminate | tauto].
  - destruct (str_eqb k k') eqn:E.
    + apply str_eqb_eq in E. subst. split; auto.
    + apply str_eqb_neq in E. rewrite IH. split; [auto | intros [H|H]; congruence].
Qed.

Lemma existsb_str_eqb (k : str) (l : list str) :
  existsb (str_eqb k) l = true <-> In k l.
Proof.
  rewrite existsb_exists. split.
  - intros (x & Hx & E). apply str_eqb_eq in E. now subst.
  - intros H. exists k. split; [exact H | apply str_eqb_refl].
Qed.

Lemma In_set_of (l : list str) : forall k, In k (set_of l) <-> In k l.
Proof.
  induction l as [|x l IH]; intros k; simpl; [tauto|].
  fold (set_of l). destruct (existsb (str_eqb x) (set_of l)) eqn:E.
  - apply existsb_str_eqb, IH in E. rewrite IH.
    split; [auto | intros [<-|H]; auto].
  - simpl. now rewrite IH.
Qed.

Lemma In_insert_sorted (k x : str) (l : list str) :
  In k (insert_sorted x l) <-> k = x \/ In k l.
Proof.
  induction l as [|y l IH]; simpl.
  - split; intros [H|H]; auto.
  - destruct (str_leb x y); simpl; [|rewrite IH];
      split; intros H; intuition auto.
Qed.

Lemma In_sorted (k : str) (l : list str) : In k (sorted l) <-> In k l.
Proof.
  unfold sorted. induction l as [|x l IH]; simpl; [tauto|].
  rewrite In_insert_sorted, IH. split; intros [H|H]; auto.
Qed.

Lemma sets_only_refl {V} (K : str -> bool) (d : list (str * V)) : sets_only K d d.
Proof. split; auto. Qed.

Lemma sets_only_set {V} (K : str -> bool) (d d' : list (str * V)) k v :
  K k = true -> sets_only K d d' -> sets_only K d (dict_set k v d').
Proof.
  intros Hk [H1 H2]. split; intros key Hkey.
  - rewrite dict_get_set_ne; [now apply H1|]. intros ->. congruence.
  - rewrite dict_has_set, (H2 key Hkey). apply orb_true_r.
Qed.

Lemma sets_only_trans {V} (K : str -> bool) (d1 d2 d3 : list (str * V)) :
  sets_only K d1 d2 -> sets_only K d2 d3 -> sets_only K d1 d3.
Proof.
  intros [A1 A2] [B1 B2]. split; intros key Hkey.
  - now rewrite B1, A1.
  - auto.
Qed.

Lemma sets_only_weaken {V} (K K' : str -> bool) (d d' : list (str * V)) :
  (forall key, K key = true -> K' key = true) ->
  sets_only K d d' -> sets_only K' d d'.
Proof.
  intros HK [H1 H2]. split; [|exact H2].
  intros key Hkey. apply H1. destruct (K key) eqn:E; [|reflexivity].
  apply HK in E. congruence.
Qed.

(** A key of [d'] was in [d] or was assigned. *)
Lemma sets_only_origin {V} (K : str -> bool) (d d' : list (str * V)) key :
  sets_only K d d' -> dict_has key d' = true ->
  dict_has key d = true \/ K key = true.
Proof.
  intros [H1 _] Hkey.
  destruct (K key) eqn:E; [now right|]. left.
  unfold dict_has in *. now rewrite <- (H1 key E).
Qed.

Lemma fold_set_sets_only {V} (g : str -> str) (val : str -> option V) ks :
  forall d,
  sets_only (fun key => existsb (fun k => str_eqb key (g k)) ks) d
    (fold_left (fun d k => match val k with
                           | Some x => dict_set (g k) x d
                           | None => d
                           end) ks d).
Proof.
  induction ks as [|a ks IH]; intros d; cbn [fold_left].
  - apply sets_only_refl.
  - assert (Htail : forall d0,
              sets_only (fun key => existsb (fun k => str_eqb key (g k)) (a :: ks)) d0
                (fold_left (fun d k => match val k with
                                       | Some x => dict_set (g k) x d
                                       | None => d
                                       end) ks d0)).
    { intros d0. eapply sets_only_weaken; [|apply IH].
      intros key Hkey. cbn [existsb]. rewrite Hkey. apply orb_true_r. }
    destruct (val a) as [x|]; [|apply Htail].
    apply sets_only_trans with (dict_set (g a) x d); [|apply Htail].
    apply sets_only_set; [|apply sets_only_refl].
    cbn [existsb]. now rewrite str_eqb_refl.
Qed.

Lemma fold_set_get {V} (g : str -> str) (val : str -> option V) ks :
  (forall a b, g a = g b -> a = b) ->
  forall d k x, val k = Some x ->
  In k ks \/ dict_get (g k) d = Some x ->
  dict_get (g k)
    (fold_left (fun d k => match val k with
                           | Some x => dict_set (g k) x d
                           | None => d
                           end) ks d) = Some x.
Proof.
  intros Hinj. induction ks as [|a ks IH]; intros d k x Hval Hd; cbn [fold_left].
  - destruct Hd as [[]|Hd]. exact Hd.
  - apply IH; [exact Hval|].
    destruct (str_eqb a k) eqn:E.
    + apply str_eqb_eq in E. subst a. right. rewrite Hval. apply dict_get_set_eq.
    + apply str_eqb_neq in E. destruct Hd as [[Ha|Hin]|Hd]; [congruence|now left|].
      right. destruct (val a); [|exact Hd].
      rewrite dict_get_set_ne; [exact Hd|]. intros Hg. apply Hinj in Hg. congruence.
Qed.

Lemma existsb_key_of (g : str -> str) (ks : list str) (key : str) :
  existsb (fun k => str_eqb key (g k)) ks = true <->
  exists k, In k ks /\ key = g k.
Proof.
  rewrite existsb_exists. split; intros (k & Hk & E); exists k; split; auto.
  - now apply str_eqb_eq.
  - now apply str_eqb_eq.
Qed.

Lemma existsb_set_of_has {V} (k : str) (d : list (str * V)) :
  existsb (str_eqb k) (set_of (dict_keys d)) = dict_has k d.
Proof.
  apply eq_true_iff_eq.
  now rewrite existsb_str_eqb, In_set_of, dict_has_In.
Qed.

Lemma In_removed_keys {V} (p n : list (str * V)) (k : str) :
  In k (sorted (keys_minus (set_of (dict_keys p)) (set_of (dict_keys n)))) <->
  dict_has k p = true /\ dict_has k n = false.
Proof.
  unfold keys_minus. rewrite In_sorted, filter_In, In_set_of, <- dict_has_In.
  now rewrite existsb_set_of_has, negb_true_iff.
Qed.

Lemma In_common_keys {V} (p n : list (str * V)) (k : str) :
  In k (sorted (keys_inter (set_of (dict_keys p)) (set_of (dict_keys n)))) <->
  dict_has k p = true /\ dict_has k n = true.
Proof.
  unfold keys_inter. rewrite In_sorted, filter_In, In_set_of, <- dict_has_In.
  now rewrite existsb_set_of_has.
Qed.

Lemma app_inj_head (a : N) (x y : str) : [a] ++ x = [a] ++ y -> x = y.
Proof. now intros [= ->]. Qed.

Section DiffFacts.

Context {env : Environment}.

(** [repr] of a float is ASCII text. *)
Hypothesis float_repr_ascii : forall f, ascii_only (float_repr f).

Lemma json_text_ascii (sort_keys : bool) (v : value) :
  ascii_only (json_text sort_keys v).
Proof.
  induction v as [| [] | z | f | s | l IH | d IH] using value_nested_ind;
    cbn [json_text].
  - now apply ascii_lit.
  - now apply ascii_lit.
  - now apply ascii_lit.
  - apply int_str_ascii.
  - apply float_repr_ascii.
  - apply json_string_ascii.
  - apply ascii_only_app; [now apply ascii_lit|].
    apply ascii_only_app; [|now apply ascii_lit].
    apply ascii_only_join; [now apply ascii_lit|].
    induction IH; simpl; now constructor.
  - apply ascii_only_app; [now apply ascii_lit|].
    apply ascii_only_app; [|now apply ascii_lit].
    apply ascii_only_join; [now apply ascii_lit|].
    assert (Hitems : Forall (fun kv : str * str => ascii_only (snd kv))
              (map (fun '(k, x) => (k, json_text sort_keys x)) d)).
    { induction IH as [|[k x] d Hx Hd IHd]; simpl; now constructor. }
    assert (Hsorted : Forall (fun kv : str * str => ascii_only (snd kv))
              (if sort_keys
               then sort_items (map (fun '(k, x) => (k, json_text sort_keys x)) d)
               else map (fun '(k, x) => (k, json_text sort_keys x)) d)).
    { destruct sort_keys; [now apply sort_items_Forall | exact Hitems]. }
    clear Hitems IH. induction Hsorted as [|[k x] m Hx Hm IHm]; cbn [map].
    + constructor.
    + constructor; [|exact IHm].
      apply ascii_only_app; [apply json_string_ascii|].
      apply ascii_only_app; [now apply ascii_lit | exact Hx].
Qed.

(** [json.dumps] returns its text exactly on values whose integers can
    be converted. *)
Lemma json_dumps_ok (sort_keys : bool) (v : value) (text : str) :
  json_dumps sort_keys v = Ok text ->
  ints_ok v = true /\ text = json_text sort_keys v.
Proof.
  unfold json_dumps. destruct (ints_ok v); [|discriminate].
  now intros [= <-].
Qed.

Lemma json_dumps_raise (sort_keys : bool) (v : value) (e : exn) :
  json_dumps sort_keys v = Raise e -> ints_ok v = false /\ e = ValueError.
Proof.
  unfold json_dumps. destruct (ints_ok v); [discriminate|].
  now intros [= <-].
Qed.

(** Hashing the elements of a list whose integers can be converted
    never fails. *)
Lemma hashed_ok (l : list value) :
  forallb ints_ok l = true ->
  exists hl, hashed l = Ok hl /\ map fst hl = l.
Proof.
  induction l as [|v l IH]; cbn [forallb].
  - exists []. now split.
  - intros H. apply andb_prop in H as [Hv Hl].
    destruct (IH Hl) as (hl & IH1 & IH2). unfold hashed in *.
    cbn [mapM]. unfold hash_of at 1, json_dumps at 1. rewrite Hv. cbn [bind].
    unfold blake2b at 1.
    destruct (encode_utf8_ascii _ (json_text_ascii true v)) as [b Hb].
    rewrite Hb. cbn [bind]. rewrite IH1. cbn [bind].
    eexists. split; [reflexivity|]. cbn [map fst]. now rewrite IH2.
Qed.

(** Hashing fails with [ValueError], and only on a list that holds an
    integer that cannot be converted. *)
Lemma hashed_raise (l : list value) (e : exn) :
  hashed l = Raise e -> forallb ints_ok l = false /\ e = ValueError.
Proof.
  induction l as [|v l IH]; unfold hashed; cbn [mapM forallb]; [discriminate|].
  unfold hash_of at 1.
  destruct (json_dumps true v) as [text|e1] eqn:Hv; cbn [bind].
  - apply json_dumps_ok in Hv as [Hv ->]. rewrite Hv. cbn [andb].
    unfold blake2b at 1.
    destruct (encode_utf8_ascii _ (json_text_ascii true v)) as [b Hb].
    rewrite Hb. cbn [bind]. fold (hashed l).
    destruct (hashed l) as [hl|e2]; cbn [bind]; [discriminate|].
    intros [= <-]. now apply IH.
  - apply json_dumps_raise in Hv as [Hv ->]. rewrite Hv. now intros [= <-].
Qed.

(** Walking a list against itself consumes it and finds no change. *)
Lemma delta_list_walk_self (hl : list (value * bytes)) :
  forall removals additions,
  fold_left delta_list_step hl (removals, additions, hl)
  = (removals, additions, []).
Proof.
  induction hl as [|[pv ph] hl IH]; intros removals additions; simpl.
  - reflexivity.
  - rewrite bytes_eqb_refl. simpl. rewrite app_nil_r. apply IH.
Qed.

Lemma delta_list_self (l : list value) :
  forallb ints_ok l = true ->
  delta_list l l = Ok (true, VList l).
Proof.
  intros Hl. unfold delta_list.
  destruct (hashed_ok l Hl) as (hl & -> & _). cbn [bind].
  rewrite delta_list_walk_self. reflexivity.
Qed.

Lemma delta_dict_ext sub1 sub2 prevl newl :
  (forall k, sub1 k = sub2 k) ->
  delta_dict sub1 prevl newl = delta_dict sub2 prevl newl.
Proof.
  intros Hsub. unfold delta_dict.
  match goal with
  | |- bind (fold_left _ ?ks ?acc) _ = bind (fold_left _ ?ks ?acc) _ =>
      generalize ks; generalize acc
  end.
  intros acc ks. f_equal. revert acc.
  induction ks as [|k ks IH]; intros acc; simpl; [reflexivity|].
  rewrite Hsub. apply IH.
Qed.

(** [delta] on two dicts, as the source has it. *)
Lemma delta_dict_eq (prevl newl : list (str * value)) :
  delta (VDict prevl) (VDict newl)
  = delta_dict (delta_key prevl newl) prevl newl.
Proof.
  cbn [delta]. apply delta_dict_ext. intros k.
  unfold delta_key.
  induction prevl as [|[k' pv] prevl IH]; simpl; [reflexivity|].
  destruct (str_eqb k k'); [reflexivity | exact IH].
Qed.

(** The unchanged verdict on two dicts comes with the placeholder. *)
Lemma delta_dict_unchanged (prevl newl : list (str * value)) (r : value) :
  delta (VDict prevl) (VDict newl) = Ok (true, r) -> r = VStr (py "{repeat}").
Proof.
  rewrite delta_dict_eq. unfold delta_dict.
  destruct (fold_left _ _ (Ok _)) as [d|e]; cbn [bind]; [|discriminate].
  intros [= Hb <-]. now rewrite Hb.
Qed.

Lemma delta_list_eq (prevl newl : list value) :
  delta (VList prevl) (VList newl) = delta_list prevl newl.
Proof. reflexivity. Qed.

Lemma delta_scalar_eq (prev new : value) :
  is_dict prev && is_dict new = false ->
  is_list prev && is_list new = false ->
  delta prev new = Ok (py_eq prev new, new).
Proof. destruct prev, new; simpl; try discriminate; reflexivity. Qed.

Lemma py_eq_refl_scalar (X : value) :
  is_dict X = false -> is_list X = false -> is_nan X = false ->
  py_eq X X = true.
Proof.
  destruct X as [| b | z | f | s | l | d]; simpl; try discriminate; intros _ _ Hn.
  - reflexivity.
  - now destruct b.
  - apply Z.eqb_refl.
  - now destruct (PrimFloat.eqb f f).
  - apply str_eqb_refl.
Qed.

End DiffFacts.

(** A marker entry [-k] or [+k] is none of the keys a shared key [c]
    assigns, when [c] does not begin with a marker itself. *)
Lemma marker_not_entry (m : N) (k c : str) (identical : bool) :
  m = 45%N \/ m = 43%N ->
  startswith (py "-") c = false -> startswith (py "+") c = false ->
  c <> k ->
  ~ In (m :: k) (entry_keys identical c).
Proof.
  intros Hm Hminus Hplus Hne Hin.
  assert (Hhead : forall c', c <> m :: c').
  { intros c' ->. cbn in Hminus, Hplus.
    destruct Hm as [-> | ->]; cbn in Hminus, Hplus; discriminate. }
  unfold entry_keys in Hin. destruct identical; cbn [In] in Hin.
  - destruct Hin as [Hin|[]]. now apply (Hhead k).
  - destruct Hin as [Hin|[Hin|[Hin|[]]]].
    + cbn in Hin. injection Hin as Hm' _. destruct Hm; subst; discriminate.
    + destruct c as [|x c]; cbn in Hin.
      * injection Hin as _ Hk. now subst.
      * injection Hin as Hx _. subst x. now apply (Hhead c).
    + destruct c as [|x c]; cbn in Hin.
      * injection Hin as _ Hk. now subst.
      * injection Hin as Hx _. subst x. now apply (Hhead c).
Qed.

Section MappingLaw.

Context {env : Environment}.

(** The keys one common key assigns. *)
Lemma delta_entry_sets_only k newv identical subdelta d d' :
  delta_entry k newv (identical, subdelta) d = Ok d' ->
  sets_only (fun key => existsb (str_eqb key) (entry_keys identical k)) d d'.
Proof.
  unfold delta_entry, entry_keys. destruct identical.
  - assert (Hk : existsb (str_eqb k) [k] = true)
      by (cbn [existsb]; now rewrite str_eqb_refl).
    destruct (json_dumps false newv) as [text|e]; cbn [bind]; [|discriminate].
    repeat match goal with
           | |- context [if ?b then _ else _] => destruct b
           end;
      intros [= <-];
      first [ apply sets_only_set; [exact Hk | apply sets_only_refl]
            | apply sets_only_refl ].
  - assert (Hstar : existsb (str_eqb (py "*" ++ k))
                      [py "*" ++ k; k ++ py "-"; k ++ py "+"] = true)
      by (cbn [existsb]; now rewrite str_eqb_refl).
    assert (Hminus : existsb (str_eqb (k ++ py "-"))
                      [py "*" ++ k; k ++ py "-"; k ++ py "+"] = true)
      by (cbn [existsb]; rewrite (str_eqb_refl (k ++ py "-")); apply orb_true_r).
    assert (Hplus : existsb (str_eqb (k ++ py "+"))
                      [py "*" ++ k; k ++ py "-"; k ++ py "+"] = true)
      by (cbn [existsb]; rewrite (str_eqb_refl (k ++ py "+"));
          rewrite !orb_true_r; reflexivity).
    destruct subdelta as [| | | | |l|];
      try (intros [= <-]; apply sets_only_set; [exact Hstar | apply sets_only_refl]).
    destruct l as [|x l]; cbn [py_first bind]; [discriminate|].
    destruct (negb _ && negb _).
    + intros [= <-]. apply sets_only_set; [exact Hstar | apply sets_only_refl].
    + intros [= <-].
      repeat match goal with
             | |- context [if ?b then _ else _] => destruct b
             end;
        repeat (apply sets_only_set; [assumption|]); apply sets_only_refl.
Qed.

(** The keys the loop over the common keys assigns. *)
Lemma common_fold_sets_only (sub : str -> res (bool * value)) newl ks :
  forall d d',
  fold_left
    (fun acc k =>
       let* d := acc in
       let* r := sub k in
       match dict_get k newl with
       | Some newv => delta_entry k newv r d
       | None => Raise KeyError
       end) ks (Ok d) = Ok d' ->
  sets_only
    (fun key =>
       existsb (fun k => match sub k with
                         | Ok (identical, _) =>
                             existsb (str_eqb key) (entry_keys identical k)
                         | Raise _ => false
                         end) ks) d d'.
Proof.
  induction ks as [|k ks IH]; intros d d'; cbn [fold_left].
  - intros [= <-]. apply sets_only_refl.
  - cbn [bind]. destruct (sub k) as [[identical subdelta]|e] eqn:Hsub; cbn [bind].
    2:{ intros H. exfalso. revert H. clear.
        induction ks as [|k' ks IH]; cbn [fold_left bind]; [discriminate|exact IH]. }
    destruct (dict_get k newl) as [newv|].
    2:{ intros H. exfalso. revert H. clear.
        induction ks as [|k' ks IH]; cbn [fold_left bind]; [discriminate|exact IH]. }
    destruct (delta_entry k newv (identical, subdelta) d) as [d1|e] eqn:Hentry.
    2:{ intros H. exfalso. revert H. clear.
        induction ks as [|k' ks IH]; cbn [fold_left bind]; [discriminate|exact IH]. }
    intros Hrest. apply sets_only_trans with d1.
    + eapply sets_only_weaken; [|apply (delta_entry_sets_only _ _ _ _ _ _ Hentry)].
      intros key Hkey. cbn [existsb]. rewrite Hsub, Hkey. reflexivity.
    + eapply sets_only_weaken; [|apply (IH _ _ Hrest)].
      intros key Hkey. cbn [existsb]. rewrite Hkey. apply orb_true_r.
Qed.

(** C7 (amended).  For two mappings on which [delta] returns: every
    key only in [previous] is a key [-k] of the delta and every key only
    in [current] a key [+k]; when no key of both mappings begins with
    [-] or [+], the entry [-k] holds [None] and the entry [+k] the full
    value of [k] in [current]; and every key of the delta is such a
    marker or one of the keys of a shared key [k]: the plain [k] when
    the diff of its two values says identical, [*k], [k-] or [k+] when
    it says changed. *)
Theorem delta_mapping_law (previous current : list (str * value))
    (b : bool) (r : value) :
  delta (VDict previous) (VDict current) = Ok (b, r) ->
  mapping_law previous current b r.
Proof.
  unfold mapping_law. rewrite delta_dict_eq. unfold delta_dict.
  set (R := sorted (keys_minus (set_of (dict_keys previous))
                               (set_of (dict_keys current)))).
  set (A := sorted (keys_minus (set_of (dict_keys current))
                               (set_of (dict_keys previous)))).
  set (C := sorted (keys_inter (set_of (dict_keys previous))
                               (set_of (dict_keys current)))).
  set (gm := fun k : str => py "-" ++ k).
  set (gp := fun k : str => py "+" ++ k).
  set (vm := fun _ : str => Some VNone).
  set (vp := fun k : str => dict_get k current).
  change (fold_left (fun d k => dict_set (py "-" ++ k) VNone d) R [])
    with (fold_left (fun d k => match vm k with
                                | Some x => dict_set (gm k) x d
                                | None => d
                                end) R []).
  change (fun (d : list (str * value)) (k : str) =>
            match dict_get k current with
            | Some x => dict_set (py "+" ++ k) x d
            | None => d
            end)
    with (fun (d : list (str * value)) (k : str) =>
            match vp k with
            | Some x => dict_set (gp k) x d
            | None => d
            end).
  set (d1 := fold_left _ R []).
  set (d2 := fold_left _ A d1).
  destruct (fold_left _ C (Ok d2)) as [d3|e] eqn:Hfold; cbn [bind]; [|discriminate].
  intros [= <- <-]. exists d3.
  pose proof (fold_set_sets_only gm vm R []) as S1.
  change (sets_only (fun key => existsb (fun k => str_eqb key (gm k)) R) [] d1) in S1.
  pose proof (fold_set_sets_only gp vp A d1) as S2.
  change (sets_only (fun key => existsb (fun k => str_eqb key (gp k)) A) d1 d2) in S2.
  pose proof (common_fold_sets_only _ _ _ _ _ Hfold) as S3.
  assert (Hgm : forall a b, gm a = gm b -> a = b)
    by (intros a b; apply app_inj_head).
  assert (Hgp : forall a b, gp a = gp b -> a = b)
    by (intros a b; apply app_inj_head).
  assert (HR : forall k, dict_has k previous = true -> dict_has k current = false ->
                         dict_get (gm k) d1 = Some VNone).
  { intros k Hp Hc.
    refine (fold_set_get gm vm R Hgm [] k VNone eq_refl _).
    left. now apply In_removed_keys. }
  assert (HA : forall k, dict_has k previous = false -> dict_has k current = true ->
                         dict_get (gp k) d2 = dict_get k current).
  { intros k Hp Hc. unfold dict_has in Hc.
    destruct (dict_get k current) as [x|] eqn:Hx; [|discriminate].
    refine (fold_set_get gp vp A Hgp d1 k x Hx _).
    left. apply In_removed_keys. split; [|exact Hp].
    unfold dict_has. now rewrite Hx. }
  assert (HK2 : forall k,
             existsb (fun k' => str_eqb (gm k) (gp k')) A = false).
  { intros k. apply not_true_is_false. intros H.
    apply existsb_key_of in H as (k' & _ & H). discriminate. }
  split; [reflexivity|]. split; [reflexivity|].
  split; [|split; [|split]].
  - intros k Hp Hc. apply (proj2 S3), (proj2 S2).
    unfold dict_has. now rewrite (HR k Hp Hc).
  - intros k Hp Hc. apply (proj2 S3).
    unfold dict_has. rewrite (HA k Hp Hc).
    unfold dict_has in Hc. now destruct (dict_get k current).
  - intros Hshared.
    assert (HK3 : forall m k, m = 45%N \/ m = 43%N ->
               (forall c, dict_has c previous = true ->
                          dict_has c current = true -> c <> k) ->
               existsb (fun k0 =>
                          match delta_key previous current k0 with
                          | Ok (identical, _) =>
                              existsb (str_eqb (m :: k)) (entry_keys identical k0)
                          | Raise _ => false
                          end) C = false).
    { intros m k Hm Hne. apply not_true_is_false. intros H.
      apply existsb_exists in H as (c & Hc & H).
      apply In_common_keys in Hc as [Hcp Hcc].
      destruct (delta_key previous current c) as [[identical sd]|]; [|discriminate].
      apply existsb_str_eqb in H.
      destruct (Hshared c Hcp Hcc) as [Hminus Hplus].
      now apply (marker_not_entry m k c identical Hm Hminus Hplus (Hne c Hcp Hcc)). }
    split; intros k Hp Hc.
    + rewrite (proj1 S3).
      * rewrite (proj1 S2); [now apply HR | apply HK2].
      * apply (HK3 45%N k); [now left|]. intros c Hcp Hcc ->. congruence.
    + rewrite (proj1 S3); [now apply HA|].
      apply (HK3 43%N k); [now right|]. intros c Hcp Hcc ->. congruence.
  - intros key Hkey.
    destruct (sets_only_origin _ _ _ _ S3 Hkey) as [Hkey2|HK].
    + destruct (sets_only_origin _ _ _ _ S2 Hkey2) as [Hkey1|HK].
      * destruct (sets_only_origin _ _ _ _ S1 Hkey1) as [Hnil|HK]; [discriminate|].
        apply existsb_key_of in HK as (k & Hk & ->).
        apply In_removed_keys in Hk as [Hp Hc]. left. now exists k.
      * apply existsb_key_of in HK as (k & Hk & ->).
        apply In_removed_keys in Hk as [Hc Hp]. right. left. now exists k.
    + apply existsb_exists in HK as (k & Hk & HK).
      apply In_common_keys in Hk as [Hp Hc].
      destruct (delta_key previous current k) as [[identical sd]|] eqn:Hsub;
        [|discriminate].
      apply existsb_str_eqb in HK. right. right.
      exists k, identical, sd. auto.
Qed.

End MappingLaw.

(* ===================================================================== *)
(** ** Claims on the wire decoder and the normalizer *)
(* ===================================================================== *)

Lemma read_varint_loop_truncated (rest : bytes) :
  Forall (fun b => 0x80 <= byte_val b) rest ->
  forall pos shift value,
  read_varint_loop rest pos shift value = Raise AssertionError.
Proof.
  induction 1 as [|b rest Hb Hrest IH]; intros pos shift value; simpl.
  - reflexivity.
  - assert (Hge : (byte_val b <? 128) = false) by (apply Z.ltb_ge; lia).
    rewrite Hge. apply IH.
Qed.

Lemma read_varint_truncated (buf : bytes) (pos : nat) :
  Forall (fun b => 0x80 <= byte_val b) (skipn pos buf) ->
  read_varint buf pos = Raise AssertionError.
Proof. intros H. unfold read_varint. now apply read_varint_loop_truncated. Qed.

Lemma field_at_malformed f buf pos :
  malformed_at buf pos -> field_at f buf pos = Raise AssertionError.
Proof.
  unfold field_at.
  destruct 1 as [H | key pos1 Hk W H | key pos1 Hk W H | key pos1 Hk W H
                 | key pos1 len pos2 Hk W Hl H | key pos1 Hk W H
                 | key pos1 Hk W0 W1 W2 W5].
  - now rewrite (read_varint_truncated buf pos H).
  - rewrite Hk; cbn [bind]. rewrite W; cbn [Z.eqb].
    now rewrite (read_varint_truncated buf pos1 H).
  - rewrite Hk; cbn [bind]. rewrite W; cbn [Z.eqb Pos.eqb].
    assert (Hb : (pos1 + 8 <=? length buf)%nat = false) by (apply Nat.leb_gt; lia).
    now rewrite Hb.
  - rewrite Hk; cbn [bind]. rewrite W; cbn [Z.eqb Pos.eqb].
    now rewrite (read_varint_truncated buf pos1 H).
  - rewrite Hk; cbn [bind]. rewrite W; cbn [Z.eqb Pos.eqb].
    rewrite Hl; cbn [bind].
    assert (Hb : (Z.of_nat pos2 + len <=? Z.of_nat (length buf)) = false)
      by (apply Z.leb_gt; lia).
    now rewrite Hb.
  - rewrite Hk; cbn [bind]. rewrite W; cbn [Z.eqb Pos.eqb].
    assert (Hb : (pos1 + 4 <=? length buf)%nat = false) by (apply Nat.leb_gt; lia).
    now rewrite Hb.
  - rewrite Hk; cbn [bind].
    apply Z.eqb_neq in W0, W1, W2, W5. now rewrite W0, W1, W2, W5.
Qed.

(** A buffer is a sequence of fields exactly when the loop of the decoder
    consumes it. *)
Lemma wire_stream_decodes (f : bytes -> res value) (buf : bytes) :
  (forall b, exists v, f b = Ok v) ->
  wire_stream buf <->
  exists out, proto_fields f (length buf) buf 0 [] = Ok (length buf, out).
Proof.
  intros Hf. split.
  - intros H. apply (proto_fields_complete f buf Hf H); [reflexivity|lia|lia].
  - intros [out H]. apply proto_fields_sound in H; [|lia].
    now destruct H as [_ H].
Qed.

Lemma length_hex (buf : bytes) : length (hex buf) = (2 * length buf)%nat.
Proof. unfold hex. induction buf as [|b buf IH]; simpl; lia. Qed.

Lemma length_lstrip_by f (s : str) : (length (lstrip_by f s) <= length s)%nat.
Proof.
  induction s as [|c s IH]; simpl; [lia|].
  destruct (f c); simpl; lia.
Qed.

Lemma length_strip (s : str) : (length (strip s) <= length s)%nat.
Proof.
  unfold strip, strip_by. rewrite length_rev.
  etransitivity; [apply length_lstrip_by|]. rewrite length_rev.
  apply length_lstrip_by.
Qed.

Lemma length_utf8_decode_bounded (n : nat) :
  forall buf text, (length buf <= n)%nat ->
  utf8_decode buf = Some text -> (length text <= length buf)%nat.
Proof.
  induction n as [|n IH]; intros buf text Hn.
  - destruct buf; [|simpl in Hn; lia]. intros [= <-]. simpl. lia.
  - destruct buf as [|b0 r0]; cbn [utf8_decode].
    { intros [= <-]. simpl. lia. }
    simpl in Hn.
    destruct (b0 <? 128)%N.
    { destruct (utf8_decode r0) as [t|] eqn:E; cbn [option_map]; [|discriminate].
      intros [= <-]. apply IH in E; simpl in *; lia. }
    destruct ((194 <=? b0) && (b0 <=? 223))%N.
    { destruct r0 as [|b1 r1]; [discriminate|].
      destruct (is_cont b1); [|discriminate].
      destruct (utf8_decode r1) as [t|] eqn:E; cbn [option_map]; [|discriminate].
      intros [= <-]. apply IH in E; simpl in *; lia. }
    destruct ((224 <=? b0) && (b0 <=? 239))%N.
    { destruct r0 as [|b1 [|b2 r2]]; try discriminate.
      destruct (_ && _ && _ && _); [|discriminate].
      destruct (utf8_decode r2) as [t|] eqn:E; cbn [option_map]; [|discriminate].
      intros [= <-]. apply IH in E; simpl in *; lia. }
    destruct ((240 <=? b0) && (b0 <=? 244))%N; [|discriminate].
    destruct r0 as [|b1 [|b2 [|b3 r3]]]; try discriminate.
    destruct (_ && _ && _ && _ && _); [|discriminate].
    destruct (utf8_decode r3) as [t|] eqn:E; cbn [option_map]; [|discriminate].
    intros [= <-]. apply IH in E; simpl in *; lia.
Qed.

Lemma length_utf8_decode (buf : list N) (text : str) :
  utf8_decode buf = Some text -> (length text <= length buf)%nat.
Proof. now apply (length_utf8_decode_bounded (length buf)). Qed.

(** The hex text is never strictly shorter than the decoded text: the
    branch that returns it after a successful decoding is never taken. *)
Lemma hex_never_shorter (buf : bytes) (text : str) :
  decode_utf8 buf = Some text ->
  (length (hex buf) <? length (strip text))%nat = false.
Proof.
  intros H. apply Nat.ltb_ge. rewrite length_hex.
  pose proof (length_strip text).
  apply length_utf8_decode in H. rewrite length_map in H. lia.
Qed.

(* --------------------------------------------------------------------- *)
(** *** The loop of the decoder on the output of the reference encoder *)
(* --------------------------------------------------------------------- *)

Lemma byte_val_of_Z (z : Z) : 0 <= z < 256 -> byte_val (byte_of_Z z) = z.
Proof.
  intros Hz. unfold byte_val, byte_of_Z, byte_of_N.
  destruct (Byte.of_N (Z.to_N z)) as [b|] eqn:E.
  - apply Byte.to_of_N in E. rewrite E. lia.
  - apply Byte.of_N_None_iff in E. lia.
Qed.

Lemma encode_varint_fuel_spec (fuel : nat) :
  forall n, 0 <= n < 2 ^ (7 * (Z.of_nat fuel + 1)) ->
  varint_enc (encode_varint_fuel fuel n) /\
  varint_val (encode_varint_fuel fuel n) = n.
Proof.
  induction fuel as [|fuel IH]; intros n Hn; cbn [encode_varint_fuel].
  - change (2 ^ (7 * (Z.of_nat 0 + 1))) with 128 in Hn.
    rewrite Z.mod_small by lia. split.
    + constructor. rewrite byte_val_of_Z; lia.
    + cbn [varint_val fold_right]. rewrite byte_val_of_Z by lia.
      change 127 with (Z.ones 7). rewrite Z.land_ones by lia.
      change (2 ^ 7) with 128. rewrite Z.mod_small; lia.
  - destruct (n <? 128) eqn:Hlt.
    + apply Z.ltb_lt in Hlt. split.
      * constructor. rewrite byte_val_of_Z; lia.
      * cbn [varint_val fold_right]. rewrite byte_val_of_Z by lia.
        change 127 with (Z.ones 7). rewrite Z.land_ones by lia.
        change (2 ^ 7) with 128. rewrite Z.mod_small; lia.
    + apply Z.ltb_ge in Hlt.
      pose proof (Z.mod_pos_bound n 128 ltac:(lia)) as Hmod.
      assert (Hdiv : 0 <= n / 128 < 2 ^ (7 * (Z.of_nat fuel + 1))).
      { split; [apply Z.div_pos; lia|].
        apply Z.div_lt_upper_bound; [lia|].
        replace (7 * (Z.of_nat (S fuel) + 1)) with (7 + 7 * (Z.of_nat fuel + 1)) in Hn by lia.
        rewrite Z.pow_add_r in Hn by lia. exact (proj2 Hn). }
      destruct (IH (n / 128) Hdiv) as [IHenc IHval]. split.
      * apply varint_more; [rewrite byte_val_of_Z; lia | exact IHenc].
      * cbn [varint_val fold_right]. fold (varint_val (encode_varint_fuel fuel (n / 128))).
        rewrite IHval, byte_val_of_Z by lia.
        change 127 with (Z.ones 7). rewrite Z.land_ones by lia.
        change (2 ^ 7) with 128.
        replace ((128 + n mod 128) mod 128) with (n mod 128).
        -- pose proof (Z.div_mod n 128 ltac:(lia)). lia.
        -- rewrite <- (Z.mod_small (n mod 128) 128) at 1 by lia.
           rewrite <- Zplus_mod_idemp_l. rewrite Z.mod_same by lia.
           rewrite Z.add_0_l. now rewrite Z.mod_mod by lia.
Qed.

Lemma encode_varint_spec (n : Z) :
  0 <= n -> varint_enc (encode_varint n) /\ varint_val (encode_varint n) = n.
Proof.
  intros Hn. apply encode_varint_fuel_spec. split; [exact Hn|].
  destruct (Z.eq_dec n 0) as [-> | Hne].
  - apply Z.pow_pos_nonneg; lia.
  - pose proof (Z.log2_spec n ltac:(lia)) as [_ Hlt].
    pose proof (Z.log2_nonneg n).
    rewrite Z2Nat.id by lia.
    eapply Z.lt_le_trans; [exact Hlt|].
    apply Z.pow_le_mono_r; lia.
Qed.

Lemma length_encode_fixed (width : nat) (n : Z) :
  length (encode_fixed width n) = width.
Proof. revert n. induction width; intros n; simpl; [reflexivity | now rewrite IHwidth]. Qed.

Lemma from_bytes_encode_fixed (width : nat) :
  forall n, 0 <= n < 256 ^ Z.of_nat width ->
  from_bytes_little (encode_fixed width n) = n.
Proof.
  induction width as [|width IH]; intros n Hn.
  - simpl in *. lia.
  - cbn [encode_fixed from_bytes_little fold_right].
    fold (from_bytes_little (encode_fixed width (n / 256))).
    pose proof (Z.mod_pos_bound n 256 ltac:(lia)).
    rewrite byte_val_of_Z by lia. rewrite IH.
    + pose proof (Z.div_mod n 256 ltac:(lia)). lia.
    + split; [apply Z.div_pos; lia|].
      apply Z.div_lt_upper_bound; [lia|].
      replace (Z.of_nat (S width)) with (1 + Z.of_nat width) in Hn by lia.
      rewrite Z.pow_add_r in Hn by lia. lia.
Qed.

Lemma tag_wire_type (number : Z) (v : wire_value) :
  Z.land (number * 8 + wire_type v) 7 = wire_type v.
Proof.
  change 7 with (Z.ones 3). rewrite Z.land_ones by lia.
  change (2 ^ 3) with 8. rewrite Z.add_comm, Z_mod_plus_full.
  destruct v; reflexivity.
Qed.

(** The field at [pos] when the buffer holds an encoded field there. *)
Lemma field_at_encoded f buf pos (fld : Z * wire_value) r w :
  encodable fld -> (pos <= length buf)%nat ->
  skipn pos buf = encode_field fld ++ r ->
  decoded f (snd fld) = Ok w ->
  field_at f buf pos = Ok (w, (pos + length (encode_field fld))%nat).
Proof.
  destruct fld as [number v]. intros [Hnum Hv] Hpos Hsk Hw. cbn [fst snd] in *.
  assert (Htag : 0 <= number * 8 + wire_type v) by (destruct v; simpl; lia).
  destruct (encode_varint_spec _ Htag) as [Kenc Kval].
  pose proof (skipn_length_le buf _ r pos Hsk Hpos) as Hlen.
  unfold encode_field in *. rewrite <- app_assoc in Hsk.
  set (k := encode_varint (number * 8 + wire_type v)) in *.
  unfold field_at.
  rewrite (read_varint_enc buf pos k _ Hsk Kenc); cbn [bind].
  rewrite Kval, tag_wire_type.
  apply skipn_app_length in Hsk. rewrite !length_app in *.
  destruct v as [n | n | b | n]; cbn [wire_type Z.eqb Pos.eqb decoded] in *.
  - destruct (encode_varint_spec n Hv) as [Venc Vval].
    rewrite (read_varint_enc buf _ _ r Hsk Venc); cbn [bind].
    injection Hw as <-. rewrite Vval. do 2 f_equal. lia.
  - rewrite length_encode_fixed in *.
    assert (Hb : (pos + length k + 8 <=? length buf)%nat = true)
      by (apply Nat.leb_le; lia).
    rewrite Hb; cbn [assert bind]. injection Hw as <-.
    unfold slice. replace (pos + length k + 8 - (pos + length k))%nat with 8%nat by lia.
    rewrite Hsk, firstn_app, length_encode_fixed, Nat.sub_diag, firstn_O, app_nil_r.
    rewrite firstn_all2 by (rewrite length_encode_fixed; lia).
    rewrite from_bytes_encode_fixed by (change (256 ^ Z.of_nat 8) with (2 ^ 64); lia).
    do 2 f_equal. lia.
  - destruct (encode_varint_spec (Z.of_nat (length b)) ltac:(lia)) as [Lenc Lval].
    rewrite length_app in Hlen. rewrite <- app_assoc in Hsk.
    rewrite (read_varint_enc buf _ _ _ Hsk Lenc); cbn [bind].
    rewrite Lval.
    set (l := encode_varint (Z.of_nat (length b))) in *.
    assert (Hb : (Z.of_nat (pos + length k + length l) + Z.of_nat (length b)
                  <=? Z.of_nat (length buf)) = true)
      by (apply Z.leb_le; lia).
    rewrite Hb; cbn [assert bind].
    apply skipn_app_length in Hsk.
    unfold slice. rewrite Nat2Z.id.
    replace (pos + length k + length l + length b - (pos + length k + length l))%nat
      with (length b) by lia.
    rewrite Hsk, firstn_app, Nat.sub_diag, firstn_O, app_nil_r, firstn_all.
    rewrite Hw; cbn [bind]. do 2 f_equal. rewrite length_app. lia.
  - rewrite length_encode_fixed in *.
    assert (Hb : (pos + length k + 4 <=? length buf)%nat = true)
      by (apply Nat.leb_le; lia).
    rewrite Hb; cbn [assert bind]. injection Hw as <-.
    unfold slice. replace (pos + length k + 4 - (pos + length k))%nat with 4%nat by lia.
    rewrite Hsk, firstn_app, length_encode_fixed, Nat.sub_diag, firstn_O, app_nil_r.
    rewrite firstn_all2 by (rewrite length_encode_fixed; lia).
    rewrite from_bytes_encode_fixed by (change (256 ^ Z.of_nat 4) with (2 ^ 32); lia).
    do 2 f_equal. lia.
Qed.

Lemma encode_field_nonempty (fld : Z * wire_value) :
  encodable fld -> (0 < length (encode_field fld))%nat.
Proof.
  destruct fld as [number v]. intros [Hnum Hv]. cbn [fst snd] in *.
  assert (Htag : 0 <= number * 8 + wire_type v) by (destruct v; simpl; lia).
  destruct (encode_varint_spec _ Htag) as [Kenc _].
  apply varint_enc_nonempty in Kenc.
  unfold encode_field. rewrite length_app. lia.
Qed.

(** The loop reads an encoded message back, field by field. *)
Lemma proto_fields_encoded f (fields : list (Z * wire_value)) :
  forall ws fuel buf pos out,
  Forall encodable fields ->
  mapM (fun fld => decoded f (snd fld)) fields = Ok ws ->
  skipn pos buf = encode_message fields -> (pos <= length buf)%nat ->
  (length buf - pos <= fuel)%nat ->
  proto_fields f fuel buf pos out = Ok (length buf, out ++ ws).
Proof.
  induction fields as [|fld fields IH]; intros ws fuel buf pos out Hok Hws Hsk Hpos Hfuel.
  - cbn in Hws. injection Hws as <-. rewrite app_nil_r.
    apply (f_equal (@length _)) in Hsk. rewrite length_skipn in Hsk. simpl in Hsk.
    assert (pos = length buf) as -> by lia.
    destruct fuel; cbn [proto_fields]; rewrite Nat.ltb_irrefl; reflexivity.
  - inversion Hok as [|? ? Hfld Hrest]; subst.
    cbn [mapM] in Hws.
    destruct (decoded f (snd fld)) as [w|] eqn:Hw; cbn [bind] in Hws; [|discriminate].
    destruct (mapM _ fields) as [ws'|] eqn:Hws'; cbn [bind] in Hws; [|discriminate].
    injection Hws as <-.
    cbn [encode_message flat_map] in Hsk. fold (encode_message fields) in Hsk.
    pose proof (encode_field_nonempty fld Hfld) as Hne.
    pose proof (skipn_length_le buf _ _ pos Hsk Hpos) as Hlen.
    destruct fuel as [|fuel]; [lia|].
    rewrite proto_fields_step.
    assert (Hlt : (pos <? length buf)%nat = true) by (apply Nat.ltb_lt; lia).
    rewrite Hlt.
    rewrite (field_at_encoded f buf pos fld _ w Hfld Hpos Hsk Hw). cbn [bind].
    rewrite (IH ws' fuel buf _ (out ++ [w]) Hrest eq_refl); try lia.
    + now rewrite <- app_assoc.
    + now apply skipn_app_length with (k := encode_field fld).
Qed.

Section RoundTrip.

Context {env : Environment}.

(** What [pretty_proto] makes of an encoded message: the collapse of the
    sequence of its fields, each an integer or the normalized blob. *)
Lemma pretty_proto_encoded (fields : list (Z * wire_value)) (ws : list value) :
  Forall encodable fields ->
  mapM (fun fld => decoded (fun blob => pretty (PBytes blob)) (snd fld)) fields
  = Ok ws ->
  pretty_proto (encode_message fields) = collapse ws.
Proof.
  intros Hok Hws. rewrite pretty_proto_eq.
  rewrite (proto_fields_encoded _ fields ws _ _ 0 [] Hok Hws);
    try reflexivity; try lia.
  cbn [bind app]. now rewrite Nat.eqb_refl.
Qed.

(** On a message of two fields or more the result is the sequence itself:
    the positional match of the design. *)
Lemma pretty_proto_encoded_sequence (fields : list (Z * wire_value))
    (w1 w2 : value) (ws : list value) :
  Forall encodable fields ->
  mapM (fun fld => decoded (fun blob => pretty (PBytes blob)) (snd fld)) fields
  = Ok (w1 :: w2 :: ws) ->
  pretty_proto (encode_message fields) = Ok (VList (w1 :: w2 :: ws)).
Proof. intros Hok Hws. now rewrite (pretty_proto_encoded fields _ Hok Hws). Qed.

(** On a message that is one integer field the collapse raises. *)
Lemma pretty_proto_encoded_scalar (number n : Z) (v : wire_value) :
  encodable (number, v) ->
  v = Varint n \/ v = Fixed64 n \/ v = Fixed32 n ->
  pretty_proto (encode_message [(number, v)]) = Raise TypeError.
Proof.
  intros Hok Hv.
  rewrite (pretty_proto_encoded [(number, v)] [VInt n]).
  - reflexivity.
  - now constructor.
  - destruct Hv as [-> | [-> | ->]]; reflexivity.
Qed.

End RoundTrip.

Section NormalizerClaims.

Context {env : Environment}.

(** C1 (the code differs).  The buffer [08 01] is what the reference
    encoder writes for the message with the single field 1 of wire type 0
    and value 1.  The loop of the decoder reads it as [[1]], and then the
    collapse iterates over [out[0]], the integer 1: [pretty_proto] raises
    a [TypeError] where the design promises the sequence [[1]]. *)
Theorem pretty_proto_single_varint_raises :
  encode_message [(1, Varint 1)] = [x08; x01] /\
  proto_fields (fun blob => pretty (PBytes blob)) 2 [x08; x01] 0 []
  = Ok (2%nat, [VInt 1]) /\
  pretty_proto [x08; x01] = Raise TypeError.
Proof. repeat split. Qed.

(** Any message that is a single integer field fails this way. *)
Lemma pretty_proto_single_scalar (buf : bytes) (z : Z) :
  proto_fields (fun blob => pretty (PBytes blob)) (length buf) buf 0 []
  = Ok (length buf, [VInt z]) ->
  pretty_proto buf = Raise TypeError.
Proof.
  intros H. rewrite pretty_proto_eq, H. cbn [bind].
  rewrite Nat.eqb_refl. reflexivity.
Qed.

(** C4.  The decoder stays within the buffer and rejects every
    malformed input: a field that is read ends within the buffer and the
    loop ends exactly at its end; a field malformed in one of the ways
    of [malformed_at] fails the loop where it is met; and a buffer that
    is not a sequence of fields (leftover bytes included) makes
    [pretty_proto] fail with the [AssertionError] of one of its checks.
    No failure of the decoder is an [IndexError]. *)
Theorem pretty_proto_rejects_malformed (buf : bytes) :
  (forall f pos v pos', (pos <= length buf)%nat ->
     field_at f buf pos = Ok (v, pos') ->
     (pos < pos')%nat /\ (pos' <= length buf)%nat) /\
  (forall f fuel pos out pos' out', (pos <= length buf)%nat ->
     proto_fields f fuel buf pos out = Ok (pos', out') -> pos' = length buf) /\
  (forall f fuel pos out, (pos < length buf)%nat -> malformed_at buf pos ->
     proto_fields f (S fuel) buf pos out = Raise AssertionError) /\
  (~ wire_stream buf -> pretty_proto buf = Raise AssertionError) /\
  pretty_proto buf <> Raise IndexError.
Proof.
  split; [|split; [|split; [|split]]].
  - intros f pos v pos' Hpos H.
    destruct (field_at_sound _ _ _ _ _ Hpos H) as (_ & _ & _ & _ & _ & H1 & H2).
    now split.
  - intros f fuel pos out pos' out' Hpos H.
    now destruct (proto_fields_sound _ _ _ _ _ _ _ Hpos H).
  - intros f fuel pos out Hpos Hbad. rewrite proto_fields_step.
    apply Nat.ltb_lt in Hpos. rewrite Hpos.
    now rewrite (field_at_malformed f buf pos Hbad).
  - intros Hbad. rewrite pretty_proto_eq.
    destruct (proto_fields _ _ buf 0 []) as [[pos out]|e] eqn:Hloop.
    + exfalso. apply Hbad.
      apply proto_fields_sound in Hloop; [|lia]. now destruct Hloop.
    + apply proto_fields_raise in Hloop;
        [|apply pretty_blob_total|lia|lia].
      now subst e.
  - intros H. apply pretty_proto_raise in H. destruct H; discriminate.
Qed.

(** C9.  On a binary payload the wire decoder rejects, [pretty] returns
    the hex text when the payload is not UTF-8; when it is, [pretty]
    returns the hex text if that is strictly shorter than the decoded
    (and stripped) text, and otherwise normalizes the decoded text. *)
Theorem pretty_bytes_fallback (buf : bytes) (e : exn) :
  pretty_proto buf = Raise e ->
  match decode_utf8 buf with
  | None => pretty (PBytes buf) = Ok (VStr (hex buf))
  | Some text =>
      if (length (hex buf) <? length (strip text))%nat
      then pretty (PBytes buf) = Ok (VStr (hex buf))
      else pretty (PBytes buf) = pretty (PStr (strip text))
  end.
Proof.
  intros H. cbn [pretty]. unfold pretty_bytes.
  rewrite H. cbn [try_except].
  destruct (decode_utf8 buf) as [text|]; [|reflexivity].
  destruct (_ <? _)%nat; reflexivity.
Qed.

End NormalizerClaims.

(* ===================================================================== *)
(** ** Claims on the diff engine *)
(* ===================================================================== *)

Section DiffClaims.

Context {env : Environment}.

(** The identity law on lists and scalars: the diff of a value against
    itself is [(True, X)] for every list [X] whose integers can be
    converted to text and for every scalar [X] that equals itself (every
    scalar but a NaN float). *)
Lemma delta_self_list_or_scalar (X : value) :
  (forall f, ascii_only (float_repr f)) ->
  is_dict X = false -> is_nan X = false ->
  (is_list X = true -> ints_ok X = true) ->
  delta X X = Ok (true, X).
Proof.
  intros Hrepr Hd Hn Hi. destruct X as [| b | z | f | s | l | d];
    try discriminate;
    try (rewrite delta_scalar_eq by reflexivity;
         rewrite py_eq_refl_scalar by (reflexivity || assumption);
         reflexivity).
  rewrite delta_list_eq. apply delta_list_self; [exact Hrepr|].
  exact (Hi eq_refl).
Qed.

(** C2 (the code differs).  The diff of the dict [{a: 1}] against
    itself is [(False, {a: 1})]: the unchanged value is put in the delta
    under its key, so the delta is not empty and the verdict is changed,
    against the docstring of [delta], whose first result says whether the
    two values are identical.  No dict [X] has [(True, X)] for its diff
    against itself: on two dicts the unchanged verdict comes with the text
    [{repeat}] only. *)
Theorem delta_self_dict_differs :
  delta (VDict [(py "a", VInt 1)]) (VDict [(py "a", VInt 1)])
  = Ok (false, VDict [(py "a", VInt 1)]) /\
  (forall X, is_dict X = true -> delta X X <> Ok (true, X)).
Proof.
  split; [reflexivity|].
  intros X HX H. destruct X as [| | | | | |d]; try discriminate HX.
  apply delta_dict_unchanged in H. discriminate H.
Qed.

(** C3 (the code differs).  [delta] of [{a: [1]}] against [{a: []}]: the
    diff of the two lists is the changed, empty list, and the dict branch
    then reads its first element.  The [IndexError] escapes [delta], and
    [Log.trace], which calls it outside any [try]. *)
Theorem delta_raises_on_emptied_list :
  delta (VDict [(py "a", VList [VInt 1])]) (VDict [(py "a", VList [])])
  = Raise IndexError.
Proof. reflexivity. Qed.

End DiffClaims.

(* ===================================================================== *)
(** ** Claims on the trace log *)
(* ===================================================================== *)

Section LogClaims.

Context {env : Environment}.

Lemma preamble_prev_log summary st :
  prev_log (fst (fst (_preamble summary st))) = prev_log (fst st).
Proof.
  destruct st as [log fs]. unfold _preamble.
  destruct (mode log), summary; try reflexivity.
  destruct (os_rename_error _), (fs !! path log); reflexivity.
Qed.

(** C5 (amended).  A call that the verbosity filter drops (verbosity
    off and an endpoint without [streamGenerateContent]) returns at once
    and leaves the log as it was, the stored state included.  A call
    that is not dropped and reaches the update (the preamble and the
    diff key raise nothing) stores the newly normalized request and
    response under its diff key, whatever the rest of the call does. *)
Theorem trace_stored_state (label endpoint : str) (request : payload)
    (req_headers : option (list (str * str))) (response : payload)
    (resp_headers : option (list (str * str))) (now : str)
    (st : Log * files) :
  (verbose (fst st) = false ->
   contains (py "streamGenerateContent") endpoint = false ->
   trace label endpoint request req_headers response resp_headers now st
   = (st, Ok tt)) /\
  (forall request2 response2 st1 key,
     verbose (fst st) = true \/
     contains (py "streamGenerateContent") endpoint = true ->
     pretty request = Ok request2 -> pretty response = Ok response2 ->
     _preamble (summary_of endpoint (request_of request2) response2) st
     = (st1, Ok tt) ->
     diff_key label endpoint (request_of request2) = Ok key ->
     prev_log (fst (fst (trace label endpoint request req_headers
                               response resp_headers now st)))
     = <[key := (request2, response2)]> (prev_log (fst st))).
Proof.
  split.
  - intros Hv He. unfold trace. now rewrite Hv, He.
  - intros request2 response2 st1 key Hkeep Hreq Hresp Hpre Hkey.
    unfold trace.
    assert (Hgo : negb (verbose (fst st)) &&
                  negb (contains (py "streamGenerateContent") endpoint) = false).
    { destruct Hkeep as [-> | ->]; [reflexivity | apply andb_false_r]. }
    rewrite Hgo, Hreq, Hresp, Hpre, Hkey.
    pose proof (preamble_prev_log
                  (summary_of endpoint (request_of request2) response2) st) as Hp.
    rewrite Hpre in Hp. cbn [fst] in Hp.
    destruct st1 as [log1 fs1]. cbn [fst] in Hp.
    destruct (trace_line _ _ _ _ _ _ _ _ _); cbn [append_line fst prev_log];
      now rewrite Hp.
Qed.

(** The lifecycle from a log that has its preamble: when the operating
    system takes the new name, a summary renames the file once, to a name
    that holds the first 120 characters of the sanitized summary, and the
    log is [renamed] for good. *)
Lemma preamble_renames_once (log : Log) (fs : files) (summary content : str) :
  mode log = preambled -> fs !! path log = Some content ->
  let newpath := in_logdir (ts log ++ py " - " ++ firstn 120 (sanitize summary)
                                   ++ py ".html") in
  let st1 := (mkLog (ts log) newpath renamed (prev_log log) (verbose log),
              <[newpath := content]> (delete (path log) fs)) in
  os_rename_error newpath = None ->
  _preamble (Some summary) (log, fs) = (st1, Ok tt) /\
  forall s2, _preamble s2 st1 = (st1, Ok tt).
Proof.
  intros Hm Hf newpath st1 Hos. unfold _preamble. rewrite Hm, Hf.
  fold newpath. rewrite Hos. now split.
Qed.

(** The preamble is written on the first record, and only then. *)
Lemma preamble_lazy (now : str) (v : bool) (fs : files) :
  let log := Log_init now v in
  let st1 := (mkLog now (path log) preambled ∅ v,
              <[path log := preamble_text]> fs) in
  _preamble None (log, fs) = (st1, Ok tt) /\
  _preamble None st1 = (st1, Ok tt).
Proof. now split. Qed.

(** C6 (the code differs).  On a fresh log the first call of
    [_preamble] that carries a summary writes the preamble under the
    timestamp-only name and sets the mode to [renamed] without renaming
    anything; as [renamed] is terminal, no later summary renames the
    file either: it never gets a name that holds a summary. *)
Theorem preamble_first_summary_not_renamed (now : str) (v : bool)
    (fs : files) (summary : str) :
  let log := Log_init now v in
  let st1 := (mkLog now (in_logdir (now ++ py ".html")) renamed ∅ v,
              <[in_logdir (now ++ py ".html") := preamble_text]> fs) in
  mode log = absent /\
  _preamble (Some summary) (log, fs) = (st1, Ok tt) /\
  forall s2, _preamble s2 st1 = (st1, Ok tt).
Proof. repeat split. Qed.




End LogClaims.

(* ===================================================================== *)
(** ** Claims on [parse_argv] *)
(* ===================================================================== *)

Lemma parse_argv_loop_spec (argv : list str) :
  forall current r l0,
  dict_get current r = Some l0 ->
  exists r',
    parse_argv_loop argv current r = Ok r' /\
    forall flag,
      dict_get flag r'
      = match last_values flag argv with
        | Some l => Some l
        | None => if str_eqb flag current
                  then Some (l0 ++ values_until_flag argv)
                  else dict_get flag r
        end.
Proof.
  induction argv as [|token argv IH]; intros current r l0 Hcur;
    cbn [parse_argv_loop last_values values_until_flag].
  - exists r. split; [reflexivity|]. intros flag.
    destruct (str_eqb flag current) eqn:E; [|reflexivity].
    apply str_eqb_eq in E. subst. now rewrite app_nil_r.
  - fold (is_flag token). destruct (is_flag token) eqn:Hflag.
    + destruct (IH token (dict_set token [] r) [] (dict_get_set_eq _ _ _))
        as (r' & -> & Hr').
      exists r'. split; [reflexivity|]. intros flag. rewrite Hr'.
      destruct (last_values flag argv); [reflexivity|].
      rewrite andb_true_r.
      destruct (str_eqb flag token) eqn:E; [reflexivity|].
      apply str_eqb_neq in E. rewrite dict_get_set_ne by exact E.
      destruct (str_eqb flag current) eqn:E'; [|reflexivity].
      apply str_eqb_eq in E'. subst. now rewrite app_nil_r.
    + unfold dict_append. rewrite Hcur. cbn [bind].
      destruct (IH current (dict_set current (l0 ++ [token]) r) (l0 ++ [token])
                   (dict_get_set_eq _ _ _)) as (r' & -> & Hr').
      exists r'. split; [reflexivity|]. intros flag. rewrite Hr'.
      destruct (last_values flag argv); [reflexivity|].
      rewrite andb_false_r.
      destruct (str_eqb flag current) eqn:E.
      * now rewrite <- app_assoc.
      * apply str_eqb_neq in E. now rewrite dict_get_set_ne.
Qed.

(** C10.  When the first token begins with [--], [parse_argv] returns a
    dict whose keys are the flag tokens, each with the tokens that follow
    its last occurrence up to the next flag.  When there is a first token
    and it does not begin with [--], [parse_argv] raises [KeyError]. *)
Theorem parse_argv_spec (token : str) (argv : list str) :
  (startswith (py "--") token = true ->
   exists r, parse_argv (token :: argv) = Ok r /\
             forall flag, dict_get flag r = last_values flag (token :: argv)) /\
  (startswith (py "--") token = false ->
   parse_argv (token :: argv) = Raise KeyError).
Proof.
  unfold parse_argv. cbn [parse_argv_loop]. split; intros Hflag; rewrite Hflag.
  - destruct (parse_argv_loop_spec argv token [(token, [])] [])
      as (r & Hr & Hget).
    { cbn [dict_get]. now rewrite str_eqb_refl. }
    change (dict_set token [] []) with [(token, @nil str)].
    exists r. split; [exact Hr|]. intros flag. rewrite Hget.
    cbn [last_values]. fold (is_flag token). unfold is_flag. rewrite Hflag.
    destruct (last_values flag argv); [reflexivity|].
    rewrite andb_true_r. cbn [dict_get].
    destruct (str_eqb flag token); reflexivity.
  - reflexivity.
Qed.

(* ===================================================================== *)
(** ** Further properties of the code *)
(* ===================================================================== *)

Lemma mapM_total {A B} (f : A -> res B) (l : list A) :
  (forall a, exists b, f a = Ok b) ->
  exists bs, mapM f l = Ok bs /\ Forall2 (fun a b => f a = Ok b) l bs.
Proof.
  intros Hf. induction l as [|a l (bs & IH & HF)]; cbn [mapM].
  - exists []. split; [reflexivity | constructor].
  - destruct (Hf a) as [b Hb]. rewrite Hb, IH. cbn [bind].
    exists (b :: bs). split; [reflexivity | now constructor].
Qed.

Lemma lstrip_by_all f (s : str) : forallb f s = true -> lstrip_by f s = [].
Proof.
  induction s as [|c s IH]; simpl; [reflexivity|].
  intros H. apply andb_prop in H as [-> H]. auto.
Qed.

Lemma strip_by_all f (s : str) : forallb f s = true -> strip_by f s = [].
Proof. intros H. unfold strip_by. now rewrite (lstrip_by_all f s H). Qed.

(** The step of [splitlines] at a line boundary: CR LF is one boundary. *)
Lemma splitlines_from_cons (c : N) (s cur : str) :
  splitlines_from cur (c :: s)
  = if is_linebreak c then
      rev cur ::
      splitlines_from []
        (if ((c =? 13) && match s with c2 :: _ => c2 =? 10 | [] => false end)%N
         then tl s else s)
    else splitlines_from (c :: cur) s.
Proof.
  cbn [splitlines_from]. destruct (is_linebreak c); [|reflexivity].
  destruct (N.eqb_spec c 13) as [->|Hc].
  - destruct s as [|c2 s]; [reflexivity|].
    destruct (N.eqb_spec c2 10) as [->|Hc2]; [reflexivity|].
    cbn [andb].
    destruct c2 as [|p]; [reflexivity|].
    do 4 (try destruct p as [p|p|]); try reflexivity; congruence.
  - cbn [andb].
    destruct c as [|p]; [reflexivity|].
    do 4 (try destruct p as [p|p|]); try reflexivity; congruence.
Qed.

(** Every character of a line of [splitlines] is a character of the
    text that is no line boundary. *)
Lemma splitlines_from_chars (Q : N -> Prop) (n : nat) : forall s cur,
  (length s <= n)%nat ->
  Forall Q cur -> (forall c, In c s -> is_linebreak c = false -> Q c) ->
  Forall (Forall Q) (splitlines_from cur s).
Proof.
  induction n as [|n IH]; intros s cur Hn Hcur Hs.
  - destruct s; [|simpl in Hn; lia]. cbn [splitlines_from].
    destruct cur; [constructor|]. repeat constructor.
    apply List.Forall_forall. intros x Hx. apply in_rev in Hx.
    rewrite List.Forall_forall in Hcur. now apply Hcur.
  - destruct s as [|c s].
    + cbn [splitlines_from].
      destruct cur; [constructor|]. repeat constructor.
      apply List.Forall_forall. intros x Hx. apply in_rev in Hx.
      rewrite List.Forall_forall in Hcur. now apply Hcur.
    + rewrite splitlines_from_cons. cbn [length] in Hn.
      destruct (is_linebreak c) eqn:Hc.
      * constructor.
        { apply List.Forall_forall. intros x Hx. apply in_rev in Hx.
          rewrite List.Forall_forall in Hcur. now apply Hcur. }
        apply IH.
        -- destruct (_ && _)%bool; [destruct s; simpl in *; lia | lia].
        -- constructor.
        -- intros x Hx. apply Hs. right.
           destruct (_ && _)%bool; [destruct s; simpl in *; tauto | exact Hx].
      * apply IH; [lia | |].
        -- constructor; [|exact Hcur]. apply Hs; [now left | exact Hc].
        -- intros x Hx. apply Hs. now right.
Qed.

Lemma splitlines_chars (Q : N -> Prop) (s : str) :
  (forall c, In c s -> is_linebreak c = false -> Q c) ->
  Forall (Forall Q) (splitlines s).
Proof.
  intros H. apply (splitlines_from_chars Q (length s)); [lia | constructor | exact H].
Qed.

Section NormalizerExtras.

Context {env : Environment}.

Lemma is_blank_space (s : str) : forallb is_space s = true -> is_blank s = true.
Proof.
  intros H. unfold is_blank, strip. now rewrite (strip_by_all _ _ H).
Qed.

Lemma is_data_space (s : str) : forallb is_space s = true -> is_data s = false.
Proof.
  destruct s as [|c s]; [reflexivity|]. cbn [forallb]. intros H.
  apply andb_prop in H as [H _]. unfold is_data.
  change (py "data:") with (100%N :: py "ata:"). cbn [startswith].
  destruct (N.eqb_spec 100 c) as [<-|]; [discriminate H | reflexivity].
Qed.

(** X1.  [read_varint] reads the little-endian base-128 number: on
    success the bytes from [pos] to the returned position are a run of
    bytes with the top bit set closed by one without, the value is the sum
    of their low seven bits weighted by the powers of 128, and the
    position stays within the data.  It fails, with the [AssertionError]
    of its last line, exactly when every byte from [pos] on has the top
    bit set (so also when [pos] is at or past the end). *)
Theorem read_varint_value (data : bytes) (pos : nat) :
  match read_varint data pos with
  | Ok (v, pos') =>
      (pos < pos' <= length data)%nat /\
      varint_enc (slice data pos pos') /\
      v = varint_val (slice data pos pos') /\
      0 <= v < 2 ^ (7 * Z.of_nat (pos' - pos))
  | Raise e =>
      e = AssertionError /\
      Forall (fun b => 0x80 <= byte_val b) (skipn pos data)
  end.
Proof.
  pose proof (read_varint_spec data pos) as H.
  destruct (read_varint data pos) as [[v pos']|e]; [|exact H].
  destruct H as (k & r & Hsk & Hk & -> & ->).
  pose proof (varint_enc_nonempty k Hk) as Hlen.
  assert (Hpos : (pos <= length data)%nat).
  { destruct (Nat.le_gt_cases pos (length data)) as [Hle|Hgt]; [exact Hle|].
    rewrite skipn_all2 in Hsk by lia.
    destruct k; [simpl in Hlen; lia | discriminate Hsk]. }
  pose proof (skipn_length_le data k r pos Hsk Hpos) as Hsum.
  assert (Hslice : slice data pos (pos + length k) = k).
  { unfold slice. rewrite Hsk.
    replace (pos + length k - pos)%nat with (length k + 0)%nat by lia.
    rewrite firstn_app_2. cbn [firstn]. apply app_nil_r. }
  rewrite Hslice.
  replace (pos + length k - pos)%nat with (length k) by lia.
  repeat split; try lia; try assumption; apply varint_val_range.
Qed.

(** X2.  [pretty] returns a value for every payload: the failures of
    the wire decoder, of the UTF-8 decoding and of the JSON parser are
    all caught.  What the decoder itself raises is an [AssertionError]
    of one of its checks or the [TypeError] of its collapse. *)
Theorem pretty_never_raises :
  (forall p : payload, exists v, pretty p = Ok v) /\
  (forall buf e, pretty_proto buf = Raise e ->
     e = AssertionError \/ e = TypeError).
Proof.
  split.
  - apply pretty_total.
  - apply pretty_proto_raise.
Qed.

(** X3.  A binary payload that the wire decoder rejects and that is
    valid UTF-8 is always normalized as its decoded, stripped text: the
    hex text has two digits a byte and is never the shorter one, so the
    [return hex] of the [try] is never taken. *)
Theorem pretty_bytes_text_over_hex (buf : bytes) (text : str) (e : exn) :
  pretty_proto buf = Raise e ->
  decode_utf8 buf = Some text ->
  pretty (PBytes buf) = pretty (PStr (strip text)).
Proof.
  intros Hproto Hdec. cbn [pretty]. unfold pretty_bytes.
  rewrite Hproto, Hdec. cbn [try_except].
  now rewrite (hex_never_shorter buf text Hdec).
Qed.

(** X4.  A text of white space only (the empty text included) is
    normalized to the empty list, not to a text: all its lines are blank,
    so it is taken for server-sent events without data, and the empty
    text that is left has no JSON lines.  [json.loads] rejects the empty
    text. *)
Theorem pretty_blank_text (s : str) :
  json_loads [] = None ->
  forallb is_space s = true ->
  pretty (PStr s) = Ok (VList []).
Proof.
  intros Hjson Hs. cbn [pretty]. unfold pretty_text.
  assert (Hlines : Forall (fun line => forallb is_space line = true) (splitlines s)).
  { assert (H : Forall (Forall (fun c => is_space c = true)) (splitlines s)).
    { apply splitlines_chars. intros c Hc _.
      rewrite forallb_forall in Hs. now apply Hs. }
    eapply List.Forall_impl; [|exact H]. intros line Hline.
    apply forallb_forall. now apply List.Forall_forall. }
  assert (Hall : forallb (fun s0 => is_data s0 || is_blank s0) (splitlines s) = true).
  { apply forallb_forall. intros line Hin.
    rewrite List.Forall_forall in Hlines.
    rewrite (is_blank_space line (Hlines line Hin)). apply orb_true_r. }
  assert (Hdata : List.filter is_data (splitlines s) = []).
  { clear Hall. induction Hlines as [|line ls Hl _ IH]; [reflexivity|].
    cbn [List.filter]. rewrite (is_data_space line Hl). exact IH. }
  rewrite Hall, Hdata. cbn [map join]. rewrite Hjson. reflexivity.
Qed.

(** X5.  The decoder reads back what the reference encoder writes: for
    every message of no field or of two fields and more, each of wire
    type 0, 1, 2 or 5 and in range, [pretty_proto] returns the list of
    the values in the order of the fields, an integer for an integer
    field and the normalized payload for a length-delimited one.  The
    field numbers are not kept. *)
Theorem pretty_proto_decodes_encoded (fields : list (Z * wire_value)) :
  Forall encodable fields -> length fields <> 1%nat ->
  exists ws,
    pretty_proto (encode_message fields) = Ok (VList ws) /\
    Forall2 (fun fld w =>
               decoded (fun blob => pretty (PBytes blob)) (snd fld) = Ok w)
            fields ws.
Proof.
  intros Henc Hlen.
  destruct (mapM_total
              (fun fld => decoded (fun blob => pretty (PBytes blob)) (snd fld))
              fields) as (ws & Hws & HF).
  { intros [number [n|n|b|n]]; cbn [decoded snd]; eauto. apply pretty_total. }
  exists ws. split; [|exact HF].
  rewrite (pretty_proto_encoded fields ws Henc Hws).
  apply Forall2_length in HF.
  destruct ws as [|w1 [|w2 ws]]; try reflexivity.
  simpl in HF. lia.
Qed.

End NormalizerExtras.

Lemma length_dict_set {V} (k : str) (v : V) (d : list (str * V)) :
  (length (dict_set k v d) <= S (length d))%nat.
Proof.
  induction d as [|[k' v'] d IH]; simpl; [lia|].
  destruct (str_eqb k k'); simpl; lia.
Qed.

Lemma dict_of_items_last (items : list value) : forall d,
  forallb is_entry items = true ->
  exists d', dict_of_items d items = Ok d' /\
    (forall k, dict_get k d' = match last_entry k items with
                               | Some w => Some w
                               | None => dict_get k d
                               end) /\
    (length d' <= length d + length items)%nat.
Proof.
  induction items as [|x items IH]; intros d Hall.
  - exists d. split; [reflexivity|]. split; [reflexivity | cbn [length]; lia].
  - cbn [forallb] in Hall. apply andb_prop in Hall as [Hx Hall].
    destruct x as [| | | | |l|]; try discriminate Hx.
    destruct l as [|k0 [|w [|? ?]]]; try discriminate Hx.
    destruct k0 as [| | | |k0| |]; try discriminate Hx.
    cbn [dict_of_items].
    destruct (IH (dict_set k0 w d) Hall) as (d' & Hd' & Hget & Hlen).
    exists d'. split; [exact Hd'|]. split.
    + intros k. rewrite Hget. cbn [last_entry].
      destruct (last_entry k items); [reflexivity|].
      destruct (str_eqb k k0) eqn:E.
      * apply str_eqb_eq in E. subst. now rewrite dict_get_set_eq.
      * apply str_eqb_neq in E. now rewrite dict_get_set_ne.
    + pose proof (length_dict_set k0 w d). cbn [length]. lia.
Qed.

(** X6.  The readability collapse of [pretty_proto]: a message that is
    one field holding a list of pairs, each a text key with a value,
    becomes a dict in which a key that occurs more than once keeps the
    value of its last pair only; the other values of the key are dropped.
    The empty list becomes the empty dict. *)
Theorem collapse_keeps_last_entry (items : list value) :
  forallb is_entry items = true ->
  exists d,
    collapse [VList items] = Ok (VDict d) /\
    (forall k, dict_get k d = last_entry k items) /\
    (length d <= length items)%nat.
Proof.
  intros Hall. cbn [collapse py_iter bind]. rewrite Hall.
  cbn [py_dict py_iter bind].
  destruct (dict_of_items_last items [] Hall) as (d & Hd & Hget & Hlen).
  rewrite Hd. cbn [bind]. exists d. split; [reflexivity|]. split.
  - intros k. rewrite Hget. now destruct (last_entry k items).
  - exact Hlen.
Qed.

Lemma mapM_app {A B} (f : A -> res B) (l1 l2 : list A) :
  mapM f (l1 ++ l2)
  = let* b1 := mapM f l1 in let* b2 := mapM f l2 in Ok (b1 ++ b2).
Proof.
  induction l1 as [|a l1 IH]; cbn [mapM app bind].
  - now destruct (mapM f l2).
  - destruct (f a) as [b|e]; cbn [bind]; [|reflexivity].
    rewrite IH. destruct (mapM f l1) as [b1|e]; cbn [bind]; [|reflexivity].
    now destruct (mapM f l2).
Qed.

Lemma find_index_Some {A} (f : A -> bool) (l : list A) : forall i,
  find_index f l = Some i ->
  (i < length l)%nat /\ exists x, nth_error l i = Some x /\ f x = true.
Proof.
  induction l as [|x l IH]; intros i; cbn [find_index]; [discriminate|].
  destruct (f x) eqn:Hx.
  - intros [= <-]. split; [simpl; lia|]. exists x. now split.
  - destruct (find_index f l) as [j|]; [|discriminate].
    intros [= <-]. destruct (IH j eq_refl) as (Hlt & y & Hy & Hfy).
    split; [simpl; lia|]. exists y. now split.
Qed.

Lemma find_index_None {A} (f : A -> bool) (l : list A) :
  (forall x, In x l -> f x = false) -> find_index f l = None.
Proof.
  induction l as [|x l IH]; intros H; cbn [find_index]; [reflexivity|].
  rewrite (H x (or_introl eq_refl)). rewrite IH; [reflexivity|].
  intros y Hy. apply H. now right.
Qed.

Lemma bytes_eqb_eq (a b : bytes) : bytes_eqb a b = true -> a = b.
Proof.
  unfold bytes_eqb. destruct (List.list_eq_dec _ a b); [auto | discriminate].
Qed.

Lemma bytes_eqb_neq (a b : bytes) : a <> b -> bytes_eqb a b = false.
Proof.
  unfold bytes_eqb. destruct (List.list_eq_dec _ a b); [contradiction | auto].
Qed.

Lemma sublist_map {A B} (f : A -> B) (l1 l2 : list A) :
  sublist l1 l2 -> sublist (map f l1) (map f l2).
Proof. induction 1; cbn [map]; now constructor. Qed.

Lemma sublist_firstn_S {A} (l : list A) (n : nat) :
  sublist (firstn n l) (firstn (S n) l).
Proof.
  revert n. induction l as [|x l IH]; intros [|n]; cbn [firstn].
  - constructor.
  - constructor.
  - apply sublist_cons. constructor.
  - apply sublist_skip. apply IH.
Qed.

(** The walk of the list branch over the hashed elements of [prev]: what
    it adds to the removals is a subsequence of [prev], what it adds to
    the additions a subsequence of the part of [new] it went over, and
    the elements of both lists it reports nothing about are as many.
    When it reports nothing at all, the hashes it went over are those of
    [prev], in order. *)
Lemma delta_list_walk (hp : list (value * bytes)) :
  forall removals additions hn removals' additions' rest,
  fold_left delta_list_step hp (removals, additions, hn)
  = (removals', additions', rest) ->
  exists rem1 add1 used,
    removals' = removals ++ rem1 /\ additions' = additions ++ add1 /\
    hn = used ++ rest /\
    sublist rem1 (map fst hp) /\ sublist add1 (map fst used) /\
    (length hp + length add1 = length used + length rem1)%nat /\
    (rem1 = [] -> add1 = [] -> map snd used = map snd hp).
Proof.
  induction hp as [|[pv ph] hp IH];
    intros removals additions hn removals' additions' rest; cbn [fold_left].
  - intros [= <- <- <-]. exists [], [], [].
    rewrite !app_nil_r. repeat split; constructor.
  - unfold delta_list_step at 2.
    destruct (find_index (fun '(_, nh) => bytes_eqb ph nh) hn) as [ni|] eqn:Hfind.
    + intros Hwalk.
      destruct (IH _ _ _ _ _ _ Hwalk)
        as (rem1 & add1 & used & -> & -> & Hhn & Hrem & Hadd & Hcount & Hsame).
      destruct (find_index_Some _ _ _ Hfind) as (Hlt & [xv xh] & Hnth & Hx).
      apply bytes_eqb_eq in Hx. subst xh.
      exists rem1, (map fst (firstn ni hn) ++ add1), (firstn (ni + 1) hn ++ used).
      split; [reflexivity|]. split; [now rewrite app_assoc|].
      split; [rewrite <- app_assoc, <- Hhn; now rewrite firstn_skipn|].
      split; [now apply sublist_cons|].
      split.
      { rewrite map_app. apply sublist_app; [|exact Hadd].
        apply sublist_map. rewrite Nat.add_1_r. apply sublist_firstn_S. }
      split.
      { rewrite !length_app, length_map, !firstn_length_le by lia.
        cbn [length]. lia. }
      intros Hr Ha. apply app_eq_nil in Ha as [Ha1 Ha2].
      assert (Hni : ni = O).
      { apply (f_equal (@length value)) in Ha1.
        rewrite length_map, firstn_length_le in Ha1 by lia. exact Ha1. }
      subst ni. rewrite map_app, (Hsame Hr Ha2).
      destruct hn as [|h0 hn0]; [discriminate Hnth|].
      injection Hnth as ->. reflexivity.
    + intros Hwalk.
      destruct (IH _ _ _ _ _ _ Hwalk)
        as (rem1 & add1 & used & -> & -> & Hhn & Hrem & Hadd & Hcount & Hsame).
      exists (pv :: rem1), add1, used.
      split; [now rewrite <- app_assoc|]. split; [reflexivity|].
      split; [exact Hhn|]. split; [now apply sublist_skip|].
      split; [exact Hadd|]. split; [cbn [length]; lia|].
      discriminate.
Qed.

(** Walking over a prefix of the new list consumes it and finds no
    change. *)
Lemma delta_list_walk_prefix (hl : list (value * bytes)) :
  forall removals additions rest,
  fold_left delta_list_step hl (removals, additions, hl ++ rest)
  = (removals, additions, rest).
Proof.
  induction hl as [|[pv ph] hl IH]; intros removals additions rest; simpl.
  - reflexivity.
  - rewrite bytes_eqb_refl. simpl. rewrite app_nil_r. apply IH.
Qed.

(** Walking over elements the new list has no hash of removes them
    all. *)
Lemma delta_list_walk_gone (hl hn : list (value * bytes)) :
  (forall p n, In p hl -> In n hn -> snd p <> snd n) ->
  forall removals additions,
  fold_left delta_list_step hl (removals, additions, hn)
  = (removals ++ map fst hl, additions, hn).
Proof.
  intros Hne. induction hl as [|[pv ph] hl IH]; intros removals additions;
    cbn [fold_left map].
  - now rewrite app_nil_r.
  - unfold delta_list_step at 2.
    rewrite find_index_None.
    + rewrite IH; [now rewrite <- app_assoc|].
      intros p n Hp Hn. apply Hne; [now right | exact Hn].
    + intros [nv nh] Hn. apply bytes_eqb_neq.
      apply (Hne (pv, ph) (nv, nh)); [now left | exact Hn].
Qed.

Lemma dict_get_In {V} (k : str) (v : V) (d : list (str * V)) :
  dict_get k d = Some v -> In (k, v) d.
Proof.
  induction d as [|[k' v'] d IH]; cbn [dict_get]; [discriminate|].
  destruct (str_eqb k k') eqn:E.
  - apply str_eqb_eq in E. subst. intros [= ->]. now left.
  - intros H. right. auto.
Qed.

Lemma find_index_None_inv {A} (f : A -> bool) (l : list A) :
  find_index f l = None -> Forall (fun x => f x = false) l.
Proof.
  induction l as [|x l IH]; cbn [find_index]; [constructor|].
  destruct (f x) eqn:Hx; [discriminate|].
  destruct (find_index f l); [discriminate|]. intros _. now constructor; [|apply IH].
Qed.

(** The first element that satisfies [f] splits the list. *)
Lemma find_index_split {A} (f : A -> bool) (l : list A) : forall i,
  find_index f l = Some i ->
  exists before x after,
    l = before ++ x :: after /\ length before = i /\
    Forall (fun y => f y = false) before /\ f x = true.
Proof.
  induction l as [|x l IH]; intros i; cbn [find_index]; [discriminate|].
  destruct (f x) eqn:Hx.
  - intros [= <-]. exists [], x, l. repeat split; [constructor | exact Hx].
  - destruct (find_index f l) as [j|]; [|discriminate].
    intros [= <-]. destruct (IH j eq_refl) as (before & y & after & -> & Hlen & Hb & Hy).
    exists (x :: before), y, after. cbn [app length].
    repeat split; [now rewrite Hlen | now constructor | exact Hy].
Qed.

(** Two splits of a list at the first element of a kind are the same
    split. *)
Lemma first_split_unique {A} (P : A -> Prop) (b1 b2 : list A) (x1 x2 : A)
    (a1 a2 : list A) :
  b1 ++ x1 :: a1 = b2 ++ x2 :: a2 ->
  Forall (fun y => ~ P y) b1 -> P x1 ->
  Forall (fun y => ~ P y) b2 -> P x2 ->
  b1 = b2 /\ x1 = x2 /\ a1 = a2.
Proof.
  revert b2. induction b1 as [|y b1 IH]; intros [|z b2]; cbn [app];
    intros Heq H1 Hx1 H2 Hx2.
  - now injection Heq as -> ->.
  - injection Heq as -> _. inversion H2; subst. contradiction.
  - injection Heq as -> _. inversion H1; subst. contradiction.
  - injection Heq as -> Heq. inversion H1; subst. inversion H2; subst.
    destruct (IH b2 Heq) as (-> & -> & ->); auto.
Qed.

(** The walk of the list diff finds one set of removals and additions. *)
Lemma list_walk_functional hp hn removals additions :
  list_walk hp hn removals additions ->
  forall removals' additions',
  list_walk hp hn removals' additions' ->
  removals' = removals /\ additions' = additions.
Proof.
  induction 1 as [current
                 | p previous current removals additions Hnone _ IH
                 | p previous before n after removals additions Hbefore Hn _ IH];
    intros removals' additions' Hwalk.
  - inversion Hwalk; subst. now split.
  - inversion Hwalk; subst.
    + match goal with
      | H : list_walk previous current _ _ |- _ =>
          destruct (IH _ _ H) as [-> ->]
      end.
      now split.
    + exfalso. apply Forall_app in Hnone as [_ Hnone].
      inversion Hnone; subst. contradiction.
  - inversion Hwalk; subst.
    + exfalso.
      match goal with
      | H : Forall _ (before ++ n :: after) |- _ =>
          apply Forall_app in H as [_ H]; inversion H; subst
      end.
      contradiction.
    + match goal with
      | H : _ ++ _ :: _ = before ++ n :: after |- _ =>
          destruct (first_split_unique (fun m => snd m = snd p) _ _ _ _ _ _ H)
            as (-> & -> & ->)
      end; try assumption.
      match goal with
      | H : list_walk previous after _ _ |- _ =>
          destruct (IH _ _ H) as [-> ->]
      end.
      now split.
Qed.

Lemma ints_ok_dict_get (d : list (str * value)) (k : str) (v : value) :
  forallb (fun kv => ints_ok (snd kv)) d = true ->
  dict_get k d = Some v -> ints_ok v = true.
Proof.
  intros Hd Hget. apply dict_get_In in Hget.
  rewrite forallb_forall in Hd. exact (Hd (k, v) Hget).
Qed.

Section DiffExtras.

Context {env : Environment}.

Lemma hashed_app (l1 l2 : list value) :
  hashed (l1 ++ l2)
  = let* h1 := hashed l1 in let* h2 := hashed l2 in Ok (h1 ++ h2).
Proof. apply mapM_app. Qed.

Lemma hashed_In (l : list value) : forall hl p,
  hashed l = Ok hl -> In p hl ->
  In (fst p) l /\ hash_of (fst p) = Ok (snd p).
Proof.
  induction l as [|v l IH]; intros hl p; unfold hashed; cbn [mapM].
  - intros [= <-] [].
  - destruct (hash_of v) as [h|e] eqn:Hh; cbn [bind]; [|discriminate].
    fold (hashed l). destruct (hashed l) as [hl'|e] eqn:Hl; cbn [bind]; [|discriminate].
    intros [= <-] [<-|Hin].
    + split; [now left | exact Hh].
    + destruct (IH hl' p eq_refl Hin) as [H1 H2]. split; [now right | exact H2].
Qed.

Lemma hashed_fst (l : list value) : forall hl,
  hashed l = Ok hl -> map fst hl = l.
Proof.
  induction l as [|v l IH]; intros hl; unfold hashed; cbn [mapM].
  - now intros [= <-].
  - destruct (hash_of v) as [h|e]; cbn [bind]; [|discriminate].
    fold (hashed l). destruct (hashed l) as [hl'|e]; cbn [bind]; [|discriminate].
    intros [= <-]. cbn [map fst]. now rewrite (IH hl' eq_refl).
Qed.

(** The outcome of the list branch, from the outcome of its walk. *)
Lemma delta_list_outcome (prev new : list value)
    (hp hn : list (value * bytes)) (removals additions : list value)
    (rest : list (value * bytes)) :
  hashed prev = Ok hp -> hashed new = Ok hn ->
  fold_left delta_list_step hp ([], [], hn) = (removals, additions, rest) ->
  delta_list prev new
  = let additions := additions ++ map fst rest in
    if Nat.eqb (length removals) 0 && Nat.eqb (length additions) 0
    then Ok (true, VList new)
    else if (length removals + length additions <? length new)%nat
         then Ok (false, VList (list_report additions removals))
         else Ok (false, VList new).
Proof.
  intros Hp Hn Hwalk. unfold delta_list. rewrite Hp, Hn. cbn [bind].
  rewrite Hwalk. reflexivity.
Qed.

(** The loop of the list branch is the walk of the design. *)
Lemma delta_list_step_walk (hp : list (value * bytes)) :
  forall removals additions hn removals' additions' rest,
  fold_left delta_list_step hp (removals, additions, hn)
  = (removals', additions', rest) ->
  exists rem1 add1,
    removals' = removals ++ rem1 /\ additions' = additions ++ add1 /\
    list_walk hp hn rem1 (add1 ++ map fst rest).
Proof.
  induction hp as [|[pv ph] hp IH];
    intros removals additions hn removals' additions' rest; cbn [fold_left].
  - intros [= <- <- <-]. exists [], [].
    rewrite !app_nil_r. repeat split. constructor.
  - unfold delta_list_step at 2.
    destruct (find_index (fun '(_, nh) => bytes_eqb ph nh) hn) as [ni|] eqn:Hfind.
    + intros Hwalk.
      destruct (find_index_split _ _ _ Hfind)
        as (before & [nv nh] & after & -> & Hlen & Hbefore & Hn).
      apply bytes_eqb_eq in Hn. subst nh.
      assert (Hfirst : firstn ni (before ++ (nv, ph) :: after) = before).
      { rewrite <- Hlen, <- (Nat.add_0_r (length before)), firstn_app_2.
        cbn [firstn]. apply app_nil_r. }
      assert (Hskip : skipn (ni + 1) (before ++ (nv, ph) :: after) = after).
      { rewrite <- Hlen. rewrite skipn_app, skipn_all2 by lia.
        replace (length before + 1 - length before)%nat with 1%nat by lia.
        reflexivity. }
      rewrite Hfirst, Hskip in Hwalk.
      destruct (IH _ _ _ _ _ _ Hwalk) as (rem1 & add1 & -> & -> & Hw).
      exists rem1, (map fst before ++ add1).
      split; [reflexivity|]. split; [now rewrite app_assoc|].
      rewrite <- app_assoc. apply walk_matched; [|reflexivity | exact Hw].
      eapply List.Forall_impl; [|exact Hbefore].
      intros [mv mh] Hm Heq. cbn [snd] in Heq. subst mh.
      now rewrite bytes_eqb_refl in Hm.
    + intros Hwalk.
      destruct (IH _ _ _ _ _ _ Hwalk) as (rem1 & add1 & -> & -> & Hw).
      exists (pv :: rem1), add1.
      split; [now rewrite <- app_assoc|]. split; [reflexivity|].
      apply (walk_removed (pv, ph)); [|exact Hw].
      apply find_index_None_inv in Hfind.
      eapply List.Forall_impl; [|exact Hfind].
      intros [mv mh] Hm Heq. cbn [snd] in Heq. subst mh.
      now rewrite bytes_eqb_refl in Hm.
Qed.

(** A failed step stops the loop over the common keys. *)
Lemma common_fold_raised (sub : str -> res (bool * value)) newl ks e :
  fold_left
    (fun acc k =>
       let* d := acc in
       let* r := sub k in
       match dict_get k newl with
       | Some newv => delta_entry k newv r d
       | None => Raise KeyError
       end) ks (Raise e) = Raise e.
Proof. induction ks as [|k ks IH]; cbn [fold_left bind]; [reflexivity | exact IH]. Qed.

(** Where the loop over the common keys fails. *)
Lemma common_fold_raise (sub : str -> res (bool * value)) newl ks : forall d e,
  fold_left
    (fun acc k =>
       let* d := acc in
       let* r := sub k in
       match dict_get k newl with
       | Some newv => delta_entry k newv r d
       | None => Raise KeyError
       end) ks (Ok d) = Raise e ->
  exists k, In k ks /\
    (sub k = Raise e \/
     exists r, sub k = Ok r /\
       match dict_get k newl with
       | Some newv => exists d0, delta_entry k newv r d0 = Raise e
       | None => e = KeyError
       end).
Proof.
  induction ks as [|k ks IH]; intros d e; cbn [fold_left]; [discriminate|].
  cbn [bind]. destruct (sub k) as [r|e0] eqn:Hsub; cbn [bind].
  2:{ rewrite common_fold_raised. intros [= ->]. exists k. split; [now left | now left]. }
  destruct (dict_get k newl) as [newv|] eqn:Hnew.
  2:{ rewrite common_fold_raised. intros [= <-]. exists k. split; [now left|].
      right. exists r. rewrite Hnew. split; [exact Hsub | reflexivity]. }
  destruct (delta_entry k newv r d) as [d1|e1] eqn:Hentry.
  2:{ rewrite common_fold_raised. intros [= ->]. exists k. split; [now left|].
      right. exists r. rewrite Hnew. split; [exact Hsub | now exists d]. }
  intros H. destruct (IH _ _ H) as (k' & Hin & H').
  exists k'. split; [now right | exact H'].
Qed.

(** One common key fails on the first element of an empty changed list,
    or on the text of an unchanged value that holds an integer that
    cannot be converted. *)
Lemma delta_entry_raise k newv r d e :
  delta_entry k newv r d = Raise e ->
  e = IndexError \/ (e = ValueError /\ ints_ok newv = false).
Proof.
  destruct r as [identical subdelta]. unfold delta_entry.
  destruct identical.
  - destruct (json_dumps false newv) as [text|e1] eqn:Htext; cbn [bind].
    + repeat match goal with
             | |- context [if ?b then _ else _] => destruct b
             end; discriminate.
    + apply json_dumps_raise in Htext as [Hv ->]. intros [= <-]. now right.
  - destruct subdelta as [| | | | |l|]; try discriminate.
    destruct l as [|x l]; cbn [py_first bind].
    + intros [= <-]. now left.
    + destruct (negb _ && negb _); discriminate.
Qed.

(** What [delta] raises, when [repr] of a float is ASCII text. *)
Lemma delta_raise (prev new : value) (e : exn) :
  (forall f, ascii_only (float_repr f)) ->
  delta prev new = Raise e ->
  e = IndexError \/
  (e = ValueError /\ (ints_ok prev = false \/ ints_ok new = false)).
Proof.
  intros Hrepr. revert new e.
  induction prev as [| b | z | f | s | l _ | d IH] using value_nested_ind;
    intros new e; try (destruct new; discriminate).
  - destruct new as [| | | | |nl|]; try discriminate.
    rewrite delta_list_eq. unfold delta_list. cbn [ints_ok].
    destruct (hashed l) as [hp|e1] eqn:Hp; cbn [bind].
    2:{ intros [= <-]. apply (hashed_raise Hrepr) in Hp as [Hp ->]. auto. }
    destruct (hashed nl) as [hn|e2] eqn:Hn; cbn [bind].
    2:{ intros [= <-]. apply (hashed_raise Hrepr) in Hn as [Hn ->]. auto. }
    destruct (fold_left _ _ _) as [[removals additions] rest].
    repeat match goal with
           | |- context [if ?b then _ else _] => destruct b
           end; discriminate.
  - destruct new as [| | | | | |nd]; try discriminate.
    rewrite delta_dict_eq. unfold delta_dict. cbn [ints_ok].
    destruct (fold_left _ _ (Ok _)) as [d3|e0] eqn:Hfold; cbn [bind]; [discriminate|].
    intros [= ->].
    apply common_fold_raise in Hfold as (k & Hin & Hk).
    apply In_common_keys in Hin as [Hp Hn].
    unfold dict_has in Hp, Hn.
    destruct (dict_get k d) as [pv|] eqn:Hpv; [|discriminate].
    destruct (dict_get k nd) as [nv|] eqn:Hnv; [|discriminate].
    assert (Hpv' : ints_ok pv = false ->
                   forallb (fun kv => ints_ok (snd kv)) d = false).
    { intros H. apply not_true_is_false. intros Hd.
      rewrite (ints_ok_dict_get d k pv Hd Hpv) in H. discriminate H. }
    assert (Hnv' : ints_ok nv = false ->
                   forallb (fun kv => ints_ok (snd kv)) nd = false).
    { intros H. apply not_true_is_false. intros Hd.
      rewrite (ints_ok_dict_get nd k nv Hd Hnv) in H. discriminate H. }
    destruct Hk as [Hsub | (r & Hsub & d0 & Hentry)].
    + unfold delta_key in Hsub. rewrite Hpv, Hnv in Hsub.
      pose proof (dict_get_In _ _ _ Hpv) as Hin.
      rewrite List.Forall_forall in IH.
      destruct (IH _ Hin nv e Hsub) as [He | [He [H|H]]]; auto.
    + destruct (delta_entry_raise _ _ _ _ _ Hentry) as [He | [He H]]; auto.
Qed.

(** X7.  What [delta] raises, when [repr] of a float is ASCII text: the
    [IndexError] of [subdelta[0]] on an empty changed list, or the
    [ValueError] of [json.dumps] on an integer of more than 4300 digits,
    which one of the two values then holds.  Every key the dict branch
    looks up is a key of both dicts, so no [KeyError] is raised. *)
Theorem delta_raises_index_or_value_error (prev new : value) (e : exn) :
  (forall f, ascii_only (float_repr f)) ->
  delta prev new = Raise e ->
  e = IndexError \/
  (e = ValueError /\ (ints_ok prev = false \/ ints_ok new = false)).
Proof. apply delta_raise. Qed.

(** X8.  A list that grows or shrinks at its end, and holds no integer
    of more than 4300 digits.  When elements are appended to a list that
    is not empty, [delta] returns the marker ["..."] followed by the
    appended elements; when a list loses its last elements and they are
    fewer than those that stay, [delta] returns the marker ["---"]
    followed by the lost elements. *)
Theorem delta_list_grows_or_shrinks (l extra : list value) :
  (forall f, ascii_only (float_repr f)) ->
  ints_ok (VList (l ++ extra)) = true ->
  l <> [] -> extra <> [] ->
  delta (VList l) (VList (l ++ extra))
  = Ok (false, VList (VStr (py "...") :: extra)) /\
  ((length extra < length l)%nat ->
   delta (VList (l ++ extra)) (VList l)
   = Ok (false, VList (VStr (py "---") :: extra))).
Proof.
  intros Hrepr Hints Hl Hextra. cbn [ints_ok] in Hints.
  rewrite forallb_app in Hints. apply andb_prop in Hints as [Hil Hie].
  destruct (hashed_ok Hrepr l Hil) as (hl & Hhl & Hfl).
  destruct (hashed_ok Hrepr extra Hie) as (he & Hhe & Hfe).
  assert (Happ : hashed (l ++ extra) = Ok (hl ++ he)).
  { rewrite hashed_app, Hhl, Hhe. reflexivity. }
  assert (Hlen : length extra <> O) by (destruct extra; simpl; congruence).
  assert (Hlen' : length l <> O) by (destruct l; simpl; congruence).
  split.
  - rewrite delta_list_eq.
    rewrite (delta_list_outcome l (l ++ extra) hl (hl ++ he) [] [] he Hhl Happ
               (delta_list_walk_prefix hl [] [] he)).
    cbn [app length Nat.eqb andb]. rewrite Hfe.
    destruct (Nat.eqb_spec (length extra) 0) as [E|_]; [contradiction|].
    cbn [Nat.add]. rewrite length_app.
    destruct (Nat.ltb_spec (length extra) (length l + length extra)); [|lia].
    reflexivity.
  - intros Hshort. rewrite delta_list_eq.
    assert (Hwalk : fold_left delta_list_step (hl ++ he) ([], [], hl)
                    = (map fst he, [], [])).
    { rewrite fold_left_app.
      rewrite <- (app_nil_r hl) at 2. rewrite delta_list_walk_prefix.
      rewrite (delta_list_walk_gone he []); [reflexivity|].
      intros p n _ []. }
    rewrite (delta_list_outcome (l ++ extra) l (hl ++ he) hl _ _ _ Happ Hhl Hwalk).
    cbn [app map length]. rewrite Hfe.
    destruct (Nat.eqb_spec (length extra) 0) as [E|_]; [contradiction|].
    cbn [andb]. rewrite Nat.add_0_r.
    destruct (Nat.ltb_spec (length extra) (length l)); [|lia].
    unfold list_report. cbn [length Nat.eqb].
    destruct (Nat.eqb_spec (length extra) 0) as [E|_]; [contradiction|].
    reflexivity.
Qed.

(** X9.  The list branch of [delta] and the walk of the design.  On two
    lists that hold no integer of more than 4300 digits, [delta] returns,
    and what it reports are the removals and the additions of the walk
    over the hashed elements ([list_walk], which finds one pair of
    them): a previous element is removed when no element left of the new
    list has its hash, and is matched with the first that has it
    otherwise, the elements passed over being additions, as are those
    left at the end.  The additions are a subsequence of the new list,
    the removals one of the previous list, and the elements reported in
    neither are as many in both lists.  The verdict is unchanged exactly
    when there is no addition and no removal; the markers are used when
    additions and removals together are fewer than the elements of the
    new list, which is returned as it is otherwise.  On lists that hold
    such an integer, [delta] raises [ValueError]. *)
Theorem delta_list_accounts (prev new : list value) :
  (forall f, ascii_only (float_repr f)) ->
  (ints_ok (VList prev) && ints_ok (VList new) = true ->
   exists hp hn additions removals,
     hashed prev = Ok hp /\ hashed new = Ok hn /\
     list_walk hp hn removals additions /\
     (forall removals' additions',
        list_walk hp hn removals' additions' ->
        removals' = removals /\ additions' = additions) /\
     sublist additions new /\ sublist removals prev /\
     (length prev + length additions = length new + length removals)%nat /\
     delta (VList prev) (VList new)
     = Ok (if Nat.eqb (length removals) 0 && Nat.eqb (length additions) 0
           then (true, VList new)
           else (false,
                 VList (if (length removals + length additions
                            <? length new)%nat
                        then list_report additions removals else new)))) /\
  (ints_ok (VList prev) && ints_ok (VList new) = false ->
   delta (VList prev) (VList new) = Raise ValueError).
Proof.
  intros Hrepr. cbn [ints_ok]. split.
  - intros Hints. apply andb_prop in Hints as [Hip Hin].
    destruct (hashed_ok Hrepr prev Hip) as (hp & Hhp & Hfp).
    destruct (hashed_ok Hrepr new Hin) as (hn & Hhn & Hfn).
    destruct (fold_left delta_list_step hp ([], [], hn))
      as [[removals additions] rest] eqn:Hwalk.
    destruct (delta_list_walk _ _ _ _ _ _ _ Hwalk)
      as (rem1 & add1 & used & Hrem & Hadd & Hused & Srem & Sadd & Hcount & _).
    destruct (delta_list_step_walk _ _ _ _ _ _ _ Hwalk)
      as (rem2 & add2 & Hrem2 & Hadd2 & Hw).
    cbn [app] in Hrem, Hadd, Hrem2, Hadd2. subst removals additions.
    subst rem2 add2.
    exists hp, hn, (add1 ++ map fst rest), rem1.
    split; [exact Hhp|]. split; [exact Hhn|]. split; [exact Hw|].
    split; [exact (list_walk_functional _ _ _ _ Hw)|].
    split; [|split; [|split]].
    + rewrite <- Hfn, Hused, map_app. now apply sublist_app.
    + now rewrite <- Hfp.
    + rewrite <- Hfp, <- Hfn, Hused, !length_app, !length_map, length_app. lia.
    + rewrite delta_list_eq.
      rewrite (delta_list_outcome prev new hp hn rem1 add1 rest Hhp Hhn Hwalk).
      cbv zeta.
      destruct (Nat.eqb (length rem1) 0 && Nat.eqb (length (add1 ++ map fst rest)) 0);
        [reflexivity|].
      now destruct (_ <? _)%nat.
  - intros Hints. rewrite delta_list_eq. unfold delta_list.
    destruct (hashed prev) as [hp|e1] eqn:Hp; cbn [bind].
    2:{ apply (hashed_raise Hrepr) in Hp as [_ ->]. reflexivity. }
    destruct (hashed new) as [hn|e2] eqn:Hn; cbn [bind].
    2:{ apply (hashed_raise Hrepr) in Hn as [_ ->]. reflexivity. }
    exfalso.
    assert (Hip : forallb ints_ok prev = true).
    { destruct (forallb ints_ok prev) eqn:E; [reflexivity|].
      exfalso. clear Hints Hn. revert hp Hp E.
      induction prev as [|v prev IH]; intros hp Hp E; [discriminate E|].
      unfold hashed in Hp. cbn [mapM] in Hp. unfold hash_of at 1 in Hp.
      destruct (json_dumps true v) as [t|e] eqn:Hv; cbn [bind] in Hp;
        [|discriminate Hp].
      apply json_dumps_ok in Hv as [Hv _].
      destruct (blake2b t); cbn [bind] in Hp; [|discriminate Hp].
      fold (hashed prev) in Hp.
      destruct (hashed prev) as [hl|e] eqn:Hl; cbn [bind] in Hp; [|discriminate Hp].
      cbn [forallb] in E. rewrite Hv in E. cbn [andb] in E.
      exact (IH hl eq_refl E). }
    assert (Hin : forallb ints_ok new = true).
    { destruct (forallb ints_ok new) eqn:E; [reflexivity|].
      exfalso. clear Hints Hp Hip. revert hn Hn E.
      induction new as [|v new IH]; intros hn Hn E; [discriminate E|].
      unfold hashed in Hn. cbn [mapM] in Hn. unfold hash_of at 1 in Hn.
      destruct (json_dumps true v) as [t|e] eqn:Hv; cbn [bind] in Hn;
        [|discriminate Hn].
      apply json_dumps_ok in Hv as [Hv _].
      destruct (blake2b t); cbn [bind] in Hn; [|discriminate Hn].
      fold (hashed new) in Hn.
      destruct (hashed new) as [hl|e] eqn:Hl; cbn [bind] in Hn; [|discriminate Hn].
      cbn [forallb] in E. rewrite Hv in E. cbn [andb] in E.
      exact (IH hl eq_refl E). }
    rewrite Hip, Hin in Hints. discriminate Hints.
Qed.

(** The dict branch reports every key that only one of the dicts
    has, so on the unchanged verdict the dicts have the same keys. *)
Lemma delta_dict_same_keys (previous current : list (str * value)) (r : value) :
  delta (VDict previous) (VDict current) = Ok (true, r) ->
  forall k, dict_has k previous = dict_has k current.
Proof.
  rewrite delta_dict_eq. unfold delta_dict.
  set (R := sorted (keys_minus (set_of (dict_keys previous))
                               (set_of (dict_keys current)))).
  set (A := sorted (keys_minus (set_of (dict_keys current))
                               (set_of (dict_keys previous)))).
  set (gm := fun k : str => py "-" ++ k).
  set (gp := fun k : str => py "+" ++ k).
  set (vm := fun _ : str => Some VNone).
  set (vp := fun k : str => dict_get k current).
  change (fold_left (fun d k => dict_set (py "-" ++ k) VNone d) R [])
    with (fold_left (fun d k => match vm k with
                                | Some x => dict_set (gm k) x d
                                | None => d
                                end) R []).
  change (fun (d : list (str * value)) (k : str) =>
            match dict_get k current with
            | Some x => dict_set (py "+" ++ k) x d
            | None => d
            end)
    with (fun (d : list (str * value)) (k : str) =>
            match vp k with
            | Some x => dict_set (gp k) x d
            | None => d
            end).
  set (d1 := fold_left _ R []).
  set (d2 := fold_left _ A d1).
  destruct (fold_left _ _ (Ok d2)) as [d3|e] eqn:Hfold; cbn [bind]; [|discriminate].
  intros [= Hlen _].
  assert (Hd3 : d3 = []).
  { destruct d3; [reflexivity | discriminate Hlen]. }
  subst d3.
  pose proof (fold_set_sets_only gp vp A d1) as S2.
  change (sets_only (fun key => existsb (fun k => str_eqb key (gp k)) A) d1 d2) in S2.
  pose proof (common_fold_sets_only _ _ _ _ _ Hfold) as S3.
  assert (Hnone : forall key, dict_has key d2 = false).
  { intros key. apply not_true_is_false. intros H.
    apply (proj2 S3) in H. discriminate H. }
  assert (Hgm : forall a b, gm a = gm b -> a = b)
    by (intros a b; apply app_inj_head).
  assert (Hgp : forall a b, gp a = gp b -> a = b)
    by (intros a b; apply app_inj_head).
  assert (Honly : forall k, dict_has k previous = true -> dict_has k current = false ->
                            False).
  { intros k Hp Hc.
    assert (H1 : dict_get (gm k) d1 = Some VNone).
    { refine (fold_set_get gm vm R Hgm [] k VNone eq_refl _).
      left. now apply In_removed_keys. }
    assert (H2 : dict_has (gm k) d2 = true).
    { apply (proj2 S2). unfold dict_has. now rewrite H1. }
    rewrite Hnone in H2. discriminate H2. }
  assert (Honly' : forall k, dict_has k previous = false -> dict_has k current = true ->
                             False).
  { intros k Hp Hc. unfold dict_has in Hc.
    destruct (dict_get k current) as [x|] eqn:Hx; [|discriminate].
    assert (H2 : dict_get (gp k) d2 = Some x).
    { refine (fold_set_get gp vp A Hgp d1 k x Hx _).
      left. apply In_removed_keys. split; [|exact Hp].
      unfold dict_has. now rewrite Hx. }
    pose proof (Hnone (gp k)) as H3. unfold dict_has in H3.
    rewrite H2 in H3. discriminate H3. }
  intros k.
  destruct (dict_has k previous) eqn:Hp, (dict_has k current) eqn:Hc;
    try reflexivity; exfalso; eauto.
Qed.

(** X10.  What the unchanged verdict of [delta] stands for.  On two
    lists: the delta is the new list and the two lists have the same
    hashes, element by element.  On two dicts: the delta is the
    placeholder and the two dicts have the same keys.  On anything else:
    the delta is the new value and the two values are equal. *)
Theorem delta_unchanged_verdict (prev new r : value) :
  (forall f, ascii_only (float_repr f)) ->
  delta prev new = Ok (true, r) ->
  match prev, new with
  | VDict p, VDict n =>
      r = VStr (py "{repeat}") /\ forall k, dict_has k p = dict_has k n
  | VList p, VList n =>
      r = new /\
      exists hp hn, hashed p = Ok hp /\ hashed n = Ok hn /\
                    map snd hp = map snd hn
  | _, _ => r = new /\ py_eq prev new = true
  end.
Proof.
  intros Hrepr H.
  destruct prev as [| | | | |p|p], new as [| | | | |n|n];
    try (cbn [delta] in H; injection H; intros; subst r;
         split; first [reflexivity | assumption]).
  - rewrite delta_list_eq in H.
    destruct (hashed p) as [hp|e1] eqn:Hhp.
    2:{ unfold delta_list in H. rewrite Hhp in H. discriminate H. }
    destruct (hashed n) as [hn|e2] eqn:Hhn.
    2:{ unfold delta_list in H. rewrite Hhp, Hhn in H. discriminate H. }
    destruct (fold_left delta_list_step hp ([], [], hn))
      as [[removals additions] rest] eqn:Hwalk.
    rewrite (delta_list_outcome p n hp hn _ _ _ Hhp Hhn Hwalk) in H.
    cbv zeta in H.
    destruct (Nat.eqb (length removals) 0 &&
              Nat.eqb (length (additions ++ map fst rest)) 0) eqn:Hnone.
    2:{ destruct (_ <? _)%nat in H; discriminate H. }
    injection H as <-. split; [reflexivity|].
    apply andb_prop in Hnone as [Hr Ha].
    apply Nat.eqb_eq in Hr, Ha.
    destruct removals; [|discriminate Hr].
    destruct additions; [|discriminate Ha].
    destruct rest; [|discriminate Ha].
    destruct (delta_list_walk _ _ _ _ _ _ _ Hwalk)
      as (rem1 & add1 & used & Hrem & Hadd & Hused & _ & _ & _ & Hsame).
    cbn [app] in Hrem, Hadd. subst rem1 add1.
    rewrite app_nil_r in Hused. subst used.
    exists hp, hn. repeat split. symmetry. now apply Hsame.
  - split; [now apply (delta_dict_unchanged p n) | now apply (delta_dict_same_keys p n r)].
Qed.

(** X11.  A change that the dict branch of [delta] does not see.  When
    the list under a key, which holds no integer of more than 4300
    digits, changes into the one-element list of a marker, ["---"] or
    ["..."], and no element of the previous list hashes like the marker,
    the diff of the two lists is the changed new list; the dict branch
    takes its first element for a marker, finds nothing after it and
    assigns no key, so the diff of the two dicts is the placeholder with
    the unchanged verdict. *)
Theorem delta_misses_change_to_marker (k m : str) (pl : list value) :
  (forall f, ascii_only (float_repr f)) ->
  ints_ok (VList pl) = true ->
  m = py "---" \/ m = py "..." -> pl <> [] ->
  (forall x, In x pl -> hash_of x <> hash_of (VStr m)) ->
  delta (VList pl) (VList [VStr m]) = Ok (false, VList [VStr m]) /\
  delta (VDict [(k, VList pl)]) (VDict [(k, VList [VStr m])])
  = Ok (true, VStr (py "{repeat}")).
Proof.
  intros Hrepr Hints Hm Hpl Hhash. cbn [ints_ok] in Hints.
  assert (Hlist : delta (VList pl) (VList [VStr m]) = Ok (false, VList [VStr m])).
  { rewrite delta_list_eq.
    destruct (hashed_ok Hrepr pl Hints) as (hp & Hhp & Hfp).
    destruct (hashed_ok Hrepr [VStr m] eq_refl) as (hn & Hhn & Hfn).
    assert (Hwalk : fold_left delta_list_step hp ([], [], hn) = (map fst hp, [], hn)).
    { apply (delta_list_walk_gone hp hn).
      intros p n Hp Hn Heq.
      destruct (hashed_In _ _ _ Hhp Hp) as [Hin Hph].
      destruct (hashed_In _ _ _ Hhn Hn) as [Hin' Hnh].
      destruct Hin' as [Hin'|[]].
      apply (Hhash _ Hin). rewrite Hph, Hin', Hnh. now rewrite Heq. }
    rewrite (delta_list_outcome pl [VStr m] hp hn _ _ _ Hhp Hhn Hwalk).
    rewrite Hfp, Hfn. cbn [app length].
    destruct pl as [|x pl]; [contradiction|]. cbn [length Nat.eqb andb].
    destruct (Nat.ltb_spec (S (length pl) + 1) 1); [lia | reflexivity]. }
  split; [exact Hlist|].
  rewrite delta_dict_eq. unfold delta_dict, keys_minus, keys_inter.
  cbn [dict_keys map fst set_of fold_right existsb List.filter].
  rewrite str_eqb_refl. cbn [orb negb].
  unfold sorted. cbn [fold_right insert_sorted fold_left bind].
  unfold delta_key. cbn [dict_get]. rewrite str_eqb_refl, Hlist.
  cbn [bind]. unfold delta_entry. cbn [py_first bind].
  destruct Hm as [-> | ->]; reflexivity.
Qed.

(** X12.  The type of the delta, as the docstring of [delta] has it:
    for a new value that is a list the delta is a list, for a new value
    that is no list and no dict it is the new value itself, and for a dict
    it is a dict, but for the unchanged verdict on two dicts, where it is
    the text [{repeat}]. *)
Theorem delta_keeps_type (prev new : value) (b : bool) (r : value) :
  delta prev new = Ok (b, r) ->
  match new with
  | VDict _ =>
      (is_dict r = true /\ (is_dict prev = true -> b = false)) \/
      (is_dict prev = true /\ b = true /\ r = VStr (py "{repeat}"))
  | VList _ => is_list r = true
  | _ => r = new
  end.
Proof.
  intros H.
  destruct prev as [| | | | |p|p], new as [| | | | |n|n];
    try (cbn [delta] in H; injection H as _ Hr; subst r;
         first [reflexivity | left; split; [reflexivity | discriminate]]).
  - rewrite delta_list_eq in H. unfold delta_list in H.
    destruct (hashed p); cbn [bind] in H; [|discriminate].
    destruct (hashed n); cbn [bind] in H; [|discriminate].
    destruct (fold_left _ _ _) as [[removals additions] rest].
    repeat match type of H with
           | context [if ?c then _ else _] => destruct c
           end; injection H as _ Hr; subst r; reflexivity.
  - rewrite delta_dict_eq in H. unfold delta_dict in H.
    destruct (fold_left _ _ (Ok _)) as [d|e]; cbn [bind] in H; [|discriminate].
    injection H as <- <-.
    destruct (Nat.eqb (length d) 0).
    + right. repeat split.
    + left. split; [reflexivity|]. reflexivity.
Qed.

End DiffExtras.

Lemma printable_app (a b : str) : printable a -> printable b -> printable (a ++ b).
Proof. unfold printable. intros. apply Forall_app. now split. Qed.

Lemma printable_join (sep : str) (parts : list str) :
  printable sep -> Forall printable parts -> printable (join sep parts).
Proof.
  intros Hsep. induction 1 as [|p rest Hp Hrest IH]; simpl.
  - constructor.
  - destruct rest; [exact Hp|].
    apply printable_app; [exact Hp|]. apply printable_app; assumption.
Qed.

Lemma printable_lit (s : string) :
  forallb (fun c => (32 <=? c) && (c <=? 126))%N (py s) = true -> printable (py s).
Proof.
  unfold printable. intros H. apply List.Forall_forall. intros c Hc.
  rewrite forallb_forall in H. specialize (H c Hc).
  apply andb_prop in H as [H1 H2]. apply N.leb_le in H1, H2. lia.
Qed.

Lemma hex_digit_printable (n : N) : (n < 16)%N -> (32 <= hex_digit n <= 126)%N.
Proof. unfold hex_digit. destruct (n <? 10)%N eqn:E; lia. Qed.

Lemma hex4_printable (n : N) : (n < 65536)%N -> printable (hex4 n).
Proof.
  intros Hn. unfold hex4, printable.
  assert (H1 : (n / 4096 < 16)%N) by (apply N.Div0.div_lt_upper_bound; lia).
  assert (H2 : ((n / 256) mod 16 < 16)%N) by (apply N.mod_lt; lia).
  assert (H3 : ((n / 16) mod 16 < 16)%N) by (apply N.mod_lt; lia).
  assert (H4 : (n mod 16 < 16)%N) by (apply N.mod_lt; lia).
  repeat (apply List.Forall_cons; [now apply hex_digit_printable|]).
  apply List.Forall_nil.
Qed.

Lemma json_escape_char_printable (c : N) : printable (json_escape_char c).
Proof.
  unfold json_escape_char.
  repeat (match goal with
          | |- context [if ?b then _ else _] => destruct b eqn:?
          end; [repeat constructor; lia|]);
  repeat match goal with
         | |- context [if ?b then _ else _] => destruct b eqn:?
         end.
  - apply andb_prop in Heqb6 as [H1 H2]. apply N.leb_le in H1, H2.
    repeat constructor; lia.
  - apply N.ltb_lt in Heqb7.
    apply (printable_app [92; 117]%N); [repeat constructor; lia|].
    now apply hex4_printable.
  - apply (printable_app [92; 117]%N); [repeat constructor; lia|].
    apply printable_app.
    { apply hex4_printable.
      pose proof (N.mod_lt ((c - 65536) / 1024) 1024 ltac:(lia)). lia. }
    apply (printable_app [92; 117]%N); [repeat constructor; lia|].
    apply hex4_printable.
    pose proof (N.mod_lt (c - 65536) 1024 ltac:(lia)). lia.
Qed.

Lemma json_string_printable (s : str) : printable (json_string s).
Proof.
  unfold json_string. apply (printable_app [34%N]); [repeat constructor; lia|].
  apply printable_app; [|repeat constructor; lia].
  induction s as [|c s IH]; simpl; [constructor|].
  apply printable_app; [apply json_escape_char_printable | exact IH].
Qed.

Lemma uint_digits_printable (d : Decimal.uint) : printable (uint_digits d).
Proof. induction d; simpl; constructor; try assumption; lia. Qed.

Lemma int_str_printable (z : Z) : printable (int_str z).
Proof.
  unfold int_str. destruct (Z.to_int z).
  - apply uint_digits_printable.
  - constructor; [lia | apply uint_digits_printable].
Qed.

(** [s.replace(c, r)] leaves no [c] when [r] holds none. *)
Lemma replace_char_Forall (P Q : N -> Prop) (c : N) (r s : str) :
  Forall P s -> Forall Q r -> (forall x, P x -> x <> c -> Q x) ->
  Forall Q (replace_char c r s).
Proof.
  intros Hs Hr HPQ. unfold replace_char.
  induction Hs as [|x s Hx Hs IH]; cbn [flat_map]; [constructor|].
  apply Forall_app. split; [|exact IH].
  destruct (N.eqb_spec x c); [exact Hr|]. constructor; [|constructor].
  now apply HPQ.
Qed.

Lemma lstrip_by_suffix f (s : str) : exists pre, s = pre ++ lstrip_by f s.
Proof.
  induction s as [|c s [pre IH]]; cbn [lstrip_by].
  - now exists [].
  - destruct (f c).
    + exists (c :: pre). cbn [app]. now f_equal.
    + now exists [].
Qed.

Lemma lstrip_by_head f (s : str) (c : N) (rest : str) :
  lstrip_by f s = c :: rest -> f c = false.
Proof.
  induction s as [|x s IH]; cbn [lstrip_by]; [discriminate|].
  destruct (f x) eqn:Hx; [exact IH|]. now intros [= <- _].
Qed.

Lemma lstrip_by_Forall (P : N -> Prop) f (s : str) :
  Forall P s -> Forall P (lstrip_by f s).
Proof.
  intros H. destruct (lstrip_by_suffix f s) as [pre Hpre].
  rewrite Hpre in H. now apply Forall_app in H.
Qed.

Lemma strip_by_Forall (P : N -> Prop) f (s : str) :
  Forall P s -> Forall P (strip_by f s).
Proof.
  intros H. unfold strip_by.
  assert (Hrev : forall l : str, Forall P l -> Forall P (rev l)).
  { intros l Hl. apply List.Forall_forall. intros x Hx. apply in_rev in Hx.
    rewrite List.Forall_forall in Hl. now apply Hl. }
  apply Hrev, lstrip_by_Forall, Hrev, lstrip_by_Forall, H.
Qed.

(** A stripped text begins and ends with a character that is kept. *)
Lemma strip_by_ends f (s : str) :
  (forall c rest, strip_by f s = c :: rest -> f c = false) /\
  (forall c init, strip_by f s = init ++ [c] -> f c = false).
Proof.
  unfold strip_by.
  destruct (lstrip_by_suffix f (rev (lstrip_by f s))) as [pre Hpre].
  set (u := lstrip_by f s) in *. set (t := lstrip_by f (rev u)) in *.
  split.
  - intros c rest Hres.
    assert (Ht : t = rev rest ++ [c]).
    { rewrite <- (rev_involutive t), Hres. reflexivity. }
    assert (Hu : u = c :: rest ++ rev pre).
    { rewrite <- (rev_involutive u), Hpre, Ht, rev_app_distr, rev_app_distr.
      cbn [rev app]. now rewrite rev_involutive. }
    exact (lstrip_by_head f s c _ Hu).
  - intros c init Hres.
    assert (Ht : t = c :: rev init).
    { rewrite <- (rev_involutive t), Hres, rev_app_distr. reflexivity. }
    exact (lstrip_by_head f (rev u) c _ Ht).
Qed.

Lemma is_linebreak_space (c : N) : is_linebreak c = true -> is_space c = true.
Proof.
  unfold is_linebreak, is_space.
  rewrite !orb_true_iff, !andb_true_iff, !N.leb_le, !N.eqb_eq. lia.
Qed.

(** The first line of [splitlines] begins with the line being read. *)
Lemma splitlines_from_first (s : str) : forall cur,
  cur <> [] ->
  exists rest lines, splitlines_from cur s = (rev cur ++ rest) :: lines.
Proof.
  induction s as [|c s IH]; intros cur Hcur.
  - cbn [splitlines_from]. destruct cur; [contradiction|].
    exists [], []. now rewrite app_nil_r.
  - rewrite splitlines_from_cons. destruct (is_linebreak c).
    + eexists [], _. now rewrite app_nil_r.
    + destruct (IH (c :: cur) ltac:(discriminate)) as (rest & lines & ->).
      exists (c :: rest), lines. cbn [rev]. now rewrite <- app_assoc.
Qed.

Lemma dict_set_fresh {V} (k : str) (v : V) (d : list (str * V)) :
  ~ In k (map fst d) -> dict_set k v d = d ++ [(k, v)].
Proof.
  induction d as [|[k' v'] d IH]; cbn [dict_set map fst In app]; [reflexivity|].
  intros H. destruct (str_eqb k k') eqn:E.
  - apply str_eqb_eq in E. subst. tauto.
  - rewrite IH by tauto. reflexivity.
Qed.

(** What [strip] removes: a run of stripped characters at each end. *)
Lemma lstrip_by_split f (s : str) :
  exists pre, s = pre ++ lstrip_by f s /\ forallb f pre = true.
Proof.
  induction s as [|c s (pre & IH & Hpre)]; cbn [lstrip_by].
  - now exists [].
  - destruct (f c) eqn:Hc.
    + exists (c :: pre). cbn [app forallb]. rewrite Hc, Hpre.
      split; [now f_equal | reflexivity].
    + now exists [].
Qed.

Lemma strip_by_split f (s : str) :
  exists pre suf,
    s = pre ++ strip_by f s ++ suf /\
    forallb f pre = true /\ forallb f suf = true.
Proof.
  unfold strip_by.
  destruct (lstrip_by_split f s) as (pre & Hs & Hpre).
  destruct (lstrip_by_split f (rev (lstrip_by f s))) as (pre2 & Hu & Hpre2).
  exists pre, (rev pre2). split; [|split; [exact Hpre|]].
  - rewrite Hs at 1. f_equal.
    rewrite <- (rev_involutive (lstrip_by f s)), Hu at 1.
    now rewrite rev_app_distr.
  - apply forallb_forall. intros x Hx. apply in_rev in Hx.
    rewrite forallb_forall in Hpre2. now apply Hpre2.
Qed.

Section LogExtras.

Context {env : Environment}.

Lemma json_text_printable (sort_keys : bool) (v : value) :
  (forall f, printable (float_repr f)) ->
  printable (json_text sort_keys v).
Proof.
  intros Hrepr.
  induction v as [| [] | z | f | s | l IH | d IH] using value_nested_ind;
    cbn [json_text].
  - now apply printable_lit.
  - now apply printable_lit.
  - now apply printable_lit.
  - apply int_str_printable.
  - apply Hrepr.
  - apply json_string_printable.
  - apply printable_app; [now apply printable_lit|].
    apply printable_app; [|now apply printable_lit].
    apply printable_join; [now apply printable_lit|].
    induction IH; simpl; now constructor.
  - apply printable_app; [now apply printable_lit|].
    apply printable_app; [|now apply printable_lit].
    apply printable_join; [now apply printable_lit|].
    assert (Hitems : Forall (fun kv : str * str => printable (snd kv))
              (map (fun '(k, x) => (k, json_text sort_keys x)) d)).
    { induction IH as [|[k x] d Hx Hd IHd]; simpl; now constructor. }
    assert (Hsorted : Forall (fun kv : str * str => printable (snd kv))
              (if sort_keys
               then sort_items (map (fun '(k, x) => (k, json_text sort_keys x)) d)
               else map (fun '(k, x) => (k, json_text sort_keys x)) d)).
    { destruct sort_keys; [now apply sort_items_Forall | exact Hitems]. }
    clear Hitems IH. induction Hsorted as [|[k x] m Hx Hm IHm]; cbn [map].
    + constructor.
    + constructor; [|exact IHm].
      apply printable_app; [apply json_string_printable|].
      apply printable_app; [now apply printable_lit | exact Hx].
Qed.

(** X13.  The line written for a record is one line of printable
    ASCII that holds no angle bracket: a record that holds no integer of
    more than 4300 digits is serialized, to a line that ends with the
    only line feed it has and in which every character before it is
    printable, [<] and [>] excluded.  A record can so neither span two
    lines of the log nor close the comment or the script of the page it
    is appended to.  A record that holds such an integer is not
    serialized: [json.dumps] raises [ValueError]. *)
Theorem serialize_one_line (d : list (str * value)) :
  (forall f, printable (float_repr f)) ->
  (ints_ok (VDict d) = true ->
   exists body,
     serialize d = Ok (body ++ [10%N]) /\
     Forall (fun c => (32 <= c <= 126)%N /\ c <> 60%N /\ c <> 62%N) body) /\
  (ints_ok (VDict d) = false -> serialize d = Raise ValueError).
Proof.
  intros Hrepr. unfold serialize, json_dumps. split; intros ->; [|reflexivity].
  cbn [bind]. eexists. split; [reflexivity|].
  pose proof (json_text_printable false (VDict d) Hrepr) as H0.
  assert (H1 : printable (replace_char 38 (py "&amp;") (json_text false (VDict d)))).
  { apply (replace_char_Forall (fun c => (32 <= c <= 126)%N)); [exact H0 | |auto].
    now apply printable_lit. }
  assert (H2 : Forall (fun c => (32 <= c <= 126)%N /\ c <> 60%N)
                 (replace_char 60 (py "&lt;")
                    (replace_char 38 (py "&amp;") (json_text false (VDict d))))).
  { apply (replace_char_Forall (fun c => (32 <= c <= 126)%N)); [exact H1 | |auto].
    repeat constructor; cbn; lia. }
  apply (replace_char_Forall (fun c => (32 <= c <= 126)%N /\ c <> 60%N));
    [exact H2 | |].
  - repeat constructor; cbn; lia.
  - intros x [Hx Hx'] Hne. auto.
Qed.

(** X14.  What [re.sub] and [strip] do to a summary.  The sanitized
    summary is the summary with every character of the pattern (the nine
    punctuation characters and the code points below U+0020) replaced by
    an underscore, less a run of spaces and dots at each end; every
    other character is kept, U+007F and the characters outside ASCII
    included.  So it holds no character of the pattern, nor do its first
    120 characters; it neither begins nor ends with a space or a dot; and
    it has no more characters than the summary.  (Nothing bounds the
    bytes of the resulting file name.) *)
Theorem sanitize_replaces_and_strips (summary : str) :
  (exists pre suf,
     map (fun c => if is_illegal c then 95%N else c) summary
     = pre ++ sanitize summary ++ suf /\
     forallb (fun c => (c =? 32) || (c =? 46))%N pre = true /\
     forallb (fun c => (c =? 32) || (c =? 46))%N suf = true) /\
  Forall (fun c => is_illegal c = false) (sanitize summary) /\
  Forall (fun c => is_illegal c = false) (firstn 120 (sanitize summary)) /\
  (forall c rest, sanitize summary = c :: rest -> c <> 32%N /\ c <> 46%N) /\
  (forall c init, sanitize summary = init ++ [c] -> c <> 32%N /\ c <> 46%N) /\
  (length (sanitize summary) <= length summary)%nat.
Proof.
  assert (Hall : Forall (fun c => is_illegal c = false) (sanitize summary)).
  { unfold sanitize. apply strip_by_Forall.
    induction summary as [|c s IH]; cbn [map]; constructor; [|exact IH].
    destruct (is_illegal c) eqn:E; [reflexivity | exact E]. }
  assert (Hneq : forall c, ((c =? 32) || (c =? 46))%N = false ->
                           c <> 32%N /\ c <> 46%N).
  { intros c H. apply orb_false_elim in H as [H1 H2].
    apply N.eqb_neq in H1, H2. now split. }
  split; [unfold sanitize; apply strip_by_split|].
  split; [exact Hall|]. split.
  { rewrite <- (firstn_skipn 120 (sanitize summary)) in Hall.
    now apply Forall_app in Hall. }
  split; [|split].
  - intros c rest H. apply Hneq.
    exact (proj1 (strip_by_ends _ _) c rest H).
  - intros c init H. apply Hneq.
    exact (proj2 (strip_by_ends _ _) c init H).
  - unfold sanitize, strip_by.
    rewrite length_rev.
    etransitivity; [apply length_lstrip_by|]. rewrite length_rev.
    etransitivity; [apply length_lstrip_by|]. now rewrite length_map.
Qed.

(** [_preamble] on a log whose file is there when it should be, when
    it returns. *)
Lemma preamble_ok (summary : option str) (st st' : Log * files) (u : unit) :
  log_ok st ->
  _preamble summary st = (st', Ok u) ->
  log_ok st' /\ mode (fst st') <> absent /\
  snd st' !! path (fst st') = Some (log_content st) /\
  (forall p, p <> path (fst st) -> p <> path (fst st') ->
             snd st' !! p = snd st !! p) /\
  ts (fst st') = ts (fst st) /\ prev_log (fst st') = prev_log (fst st) /\
  verbose (fst st') = verbose (fst st).
Proof.
  destruct st as [log fs]. unfold log_ok, log_content. cbn [fst snd].
  intros Hok. unfold _preamble.
  destruct (mode log) eqn:Hmode.
  - intros [= <- _]. cbn [fst snd mode path ts prev_log verbose].
    split; [right; rewrite lookup_insert_eq; eauto|].
    split; [now destruct summary|].
    split; [apply lookup_insert_eq|].
    split; [|auto].
    intros p Hp _. now rewrite lookup_insert_ne.
  - destruct Hok as [Hok|[content Hc]]; [discriminate|].
    destruct summary as [summary|].
    + rewrite Hc. destruct (os_rename_error _); [discriminate|].
      intros [= <- _]. cbn [fst snd mode path ts prev_log verbose].
      split; [right; rewrite lookup_insert_eq; eauto|].
      split; [discriminate|].
      split; [now rewrite lookup_insert_eq|].
      split; [|auto].
      intros p Hp Hp'. rewrite lookup_insert_ne by congruence.
      now rewrite lookup_delete_ne.
    + intros [= <- _]. cbn [fst snd]. rewrite Hmode, Hc.
      split; [right; eauto|]. split; [discriminate|]. auto.
  - destruct Hok as [Hok|[content Hc]]; [discriminate|].
    intros [= <- _]. cbn [fst snd]. rewrite Hmode, Hc.
    split; [right; eauto|]. split; [discriminate|]. auto.
Qed.

(** [_preamble] on a log whose file is there when it should be, when
    it raises: the operating system refused the new name, and nothing
    has changed. *)
Lemma preamble_raise (summary : option str) (st st' : Log * files) (e : exn) :
  log_ok st ->
  _preamble summary st = (st', Raise e) ->
  st' = st /\ mode (fst st) = preambled /\
  exists s,
    summary = Some s /\
    os_rename_error
      (in_logdir (ts (fst st) ++ py " - " ++ firstn 120 (sanitize s)
                  ++ py ".html")) = Some e.
Proof.
  destruct st as [log fs]. unfold log_ok. cbn [fst snd].
  intros Hok. unfold _preamble.
  destruct (mode log) eqn:Hmode; try discriminate.
  destruct Hok as [Hok|[content Hc]]; [discriminate|].
  destruct summary as [summary|]; [|discriminate].
  rewrite Hc. destruct (os_rename_error _) as [e'|] eqn:Hos; [|discriminate].
  intros [= <- <-]. split; [reflexivity|]. split; [reflexivity|].
  exists summary. now split.
Qed.

(** X15.  The file of the log is there once the preamble is written,
    and [_preamble] keeps it so.  On a log in this state, when
    [_preamble] returns, the mode is other than [absent], the file of the
    log exists and holds the preamble when it was just written and what
    the file held before otherwise (also across the renaming); no other
    file is touched, nor is the time stamp, the stored state or the
    verbosity.  When it raises, the log had its preamble, the call
    carried a summary, the exception is the one the operating system
    raised for the new name (a name too long, or one that cannot be
    encoded), and the log and the files are as they were. *)
Theorem preamble_keeps_file (summary : option str) (st : Log * files) :
  log_ok st ->
  match _preamble summary st with
  | (st', Ok _) =>
      log_ok st' /\ mode (fst st') <> absent /\
      snd st' !! path (fst st') = Some (log_content st) /\
      (forall p, p <> path (fst st) -> p <> path (fst st') ->
                 snd st' !! p = snd st !! p) /\
      ts (fst st') = ts (fst st) /\ prev_log (fst st') = prev_log (fst st) /\
      verbose (fst st') = verbose (fst st)
  | (st', Raise e) =>
      st' = st /\ mode (fst st) = preambled /\
      exists s,
        summary = Some s /\
        os_rename_error
          (in_logdir (ts (fst st) ++ py " - " ++ firstn 120 (sanitize s)
                      ++ py ".html")) = Some e
  end.
Proof.
  intros Hok.
  destruct (_preamble summary st) as [st' [u|e]] eqn:H.
  - exact (preamble_ok summary st st' u Hok H).
  - exact (preamble_raise summary st st' e Hok H).
Qed.

End LogExtras.

Section TraceExtras.

Context {env : Environment}.

Lemma diff_key_raise (label endpoint : str) (k : value) (e : exn) :
  diff_key label endpoint k = Raise e -> e = TypeError \/ e = ValueError.
Proof.
  unfold diff_key. destruct (truthy k); [|discriminate].
  destruct k as [| | | | | |d]; cbn [py_in bind]; try (intros [= <-]; now left).
  - destruct (contains _ _); cbn [py_getitem bind];
      [intros [= <-]; now left | discriminate].
  - destruct (existsb _ _); cbn [py_getitem bind];
      [intros [= <-]; now left | discriminate].
  - destruct (dict_has _ d) eqn:Hhas; [|discriminate].
    unfold dict_has in Hhas. cbn [py_getitem].
    destruct (dict_get _ d) as [si|]; [|discriminate Hhas]. cbn [bind].
    destruct (json_dumps true si) as [text|e1] eqn:Hsi; cbn [bind]; [discriminate|].
    apply json_dumps_raise in Hsi as [_ ->]. intros [= <-]. now right.
Qed.

Lemma touch_up_raise (k request2 : value) (e : exn) :
  touch_up k request2 = Raise e ->
  e = TypeError \/ e = IndexError \/ e = AttributeError \/ e = KeyError.
Proof.
  unfold touch_up, get_either, py_in, py_getitem, py_len, py_first,
    py_prefix, py_add, with_item.
  intros H.
  repeat match type of H with
         | context [match ?c with _ => _ end] =>
             destruct c; cbv beta iota in H; cbn [bind] in H
         end;
    try discriminate H; injection H as <-; tauto.
Qed.

Lemma only_markers_raise (request2 : value) (e : exn) :
  only_markers request2 = Raise e -> e = AttributeError.
Proof. destruct request2; cbn [only_markers]; try discriminate; now intros [= <-]. Qed.

Lemma serialize_raise (d : list (str * value)) (e : exn) :
  serialize d = Raise e -> e = ValueError.
Proof.
  unfold serialize. destruct (json_dumps false (VDict d)) as [text|e1] eqn:H;
    cbn [bind]; [discriminate|].
  apply json_dumps_raise in H as [_ ->]. now intros [= <-].
Qed.


Lemma trace_line_raise label endpoint now k prev request2 response2
    req_headers resp_headers e :
  (forall f, ascii_only (float_repr f)) ->
  trace_line label endpoint now k prev request2 response2 req_headers resp_headers
  = Raise e ->
  e = TypeError \/ e = IndexError \/ e = AttributeError \/ e = KeyError \/
  e = ValueError.
Proof.
  intros Hrepr. unfold trace_line.
  destruct (match prev with
            | Some prev0 => delta (fst prev0) request2
            | None => Ok (true, request2)
            end) as [[b1 r1]|e1] eqn:H1; cbn [bind].
  2:{ intros [= <-]. destruct prev; [|discriminate H1].
      apply (delta_raise _ _ _ Hrepr) in H1 as [->|[-> _]]; auto 6. }
  destruct (match prev with
            | Some prev0 => delta (snd prev0) response2
            | None => Ok (true, response2)
            end) as [[b2 r2]|e2] eqn:H2; cbn [bind].
  2:{ intros [= <-]. destruct prev; [|discriminate H2].
      apply (delta_raise _ _ _ Hrepr) in H2 as [->|[-> _]]; auto 6. }
  destruct (touch_up k r1) as [r1'|e3] eqn:H3; cbn [bind].
  2:{ intros [= <-]. apply touch_up_raise in H3. tauto. }
  destruct (contains _ endpoint); cbn [bind].
  - destruct (only_markers r1') as [r1''|e4] eqn:H4; cbn [bind].
    + intros H. apply serialize_raise in H. auto 6.
    + intros [= <-]. apply only_markers_raise in H4. auto 6.
  - intros H. apply serialize_raise in H. auto 6.
Qed.

(** A [request] member that is a number or a truth value carries no
    summary: [k.get] raises inside the [try]. *)
Lemma summary_of_scalar (endpoint : str) (k response2 : value) :
  match k with
  | VBool _ | VInt _ | VFloat _ => True
  | _ => False
  end ->
  summary_of endpoint k response2 = None.
Proof.
  intros Hk. unfold summary_of, find_summary.
  destruct (contains _ endpoint); [|reflexivity].
  destruct k; try contradiction; cbn [andb]; destruct (truthy _); reflexivity.
Qed.

(** X16.  [Log.trace] keeps the file of the log: a new log is in the
    state where its file is there once the preamble is written, and every
    call of [trace], whatever it returns or raises, leaves the log in
    this state and keeps its time stamp and its verbosity. *)
Theorem trace_keeps_file (label endpoint : str) (request : payload)
    (req_headers : option (list (str * str))) (response : payload)
    (resp_headers : option (list (str * str))) (now : str) (st : Log * files) :
  (forall t v fs, log_ok (Log_init t v, fs)) /\
  (log_ok st ->
   let st' := fst (trace label endpoint request req_headers response
                     resp_headers now st) in
   log_ok st' /\ ts (fst st') = ts (fst st) /\
   verbose (fst st') = verbose (fst st)).
Proof.
  split; [intros t v fs; now left|].
  intros Hok. cbv zeta. unfold trace.
  destruct (negb _ && negb _); [now split|].
  destruct (pretty request) as [request2|e1]; [|now split].
  destruct (pretty response) as [response2|e2]; [|now split].
  destruct (_preamble (summary_of endpoint (request_of request2) response2) st)
    as [st1 [u|e0]] eqn:Hpre.
  2:{ destruct (preamble_raise _ _ _ _ Hok Hpre) as (-> & _). now split. }
  destruct (preamble_ok _ _ _ _ Hok Hpre)
    as (Hok1 & _ & _ & _ & Hts & _ & Hv).
  destruct (diff_key _ _ _) as [key|e3]; [|now split].
  destruct st1 as [log1 fs1]. cbn [fst snd] in *.
  destruct (trace_line _ _ _ _ _ _ _ _ _) as [line|e4].
  - cbn [append_line fst snd]. split; [|now split].
    right. cbn [fst snd path]. rewrite lookup_insert_eq. eauto.
  - cbn [fst snd]. split; [|now split]. exact Hok1.
Qed.

(** X17.  The exceptions of [Log.trace], when [repr] of a float is
    ASCII text.  On a log whose file is there when it should be, a call
    raises a [TypeError], an [IndexError], an [AttributeError] or a
    [KeyError], the [ValueError] of [json.dumps] on an integer of more
    than 4300 digits, or what the operating system raised for the new
    name of the file when a summary renames it.  No failure of the
    decoder escapes it; writing to the file of the log is taken to
    succeed, so the renaming is the only call of the operating system
    that fails. *)
Theorem trace_exceptions (label endpoint : str) (request : payload)
    (req_headers : option (list (str * str))) (response : payload)
    (resp_headers : option (list (str * str))) (now : str) (st : Log * files)
    (e : exn) :
  (forall f, ascii_only (float_repr f)) ->
  log_ok st ->
  snd (trace label endpoint request req_headers response resp_headers now st)
  = Raise e ->
  e = TypeError \/ e = IndexError \/ e = AttributeError \/ e = KeyError \/
  e = ValueError \/
  (mode (fst st) = preambled /\
   exists s,
     os_rename_error
       (in_logdir (ts (fst st) ++ py " - " ++ firstn 120 (sanitize s)
                   ++ py ".html")) = Some e).
Proof.
  intros Hrepr Hok. unfold trace.
  destruct (negb _ && negb _); [discriminate|].
  destruct (pretty_total request) as [request2 ->].
  destruct (pretty_total response) as [response2 ->].
  destruct (_preamble (summary_of endpoint (request_of request2) response2) st)
    as [st1 [u|e0]] eqn:Hpre.
  2:{ cbn [snd]. intros [= <-].
      destruct (preamble_raise _ _ _ _ Hok Hpre) as (_ & Hmode & s & _ & Hos).
      do 5 right. split; [exact Hmode | now exists s]. }
  destruct (diff_key _ _ _) as [key|e3] eqn:Hkey.
  2:{ cbn [snd]. intros [= <-]. apply diff_key_raise in Hkey. tauto. }
  destruct st1 as [log1 fs1].
  destruct (trace_line _ _ _ _ _ _ _ _ _) as [line|e4] eqn:Hline.
  - discriminate.
  - cbn [snd]. intros [= <-].
    apply (trace_line_raise _ _ _ _ _ _ _ _ _ _ Hrepr) in Hline. tauto.
Qed.


(** X19.  A request whose [request] member is a number other than zero
    or [True] makes [Log.trace] fail: on a log whose file is there when
    it should be, a call that is not dropped writes the preamble if it is
    still to be written and then raises the [TypeError] of
    ['systemInstruction' in k]; nothing is stored and no record is
    written. *)
Theorem trace_raises_on_scalar_request (label endpoint : str) (request : payload)
    (req_headers : option (list (str * str))) (response : payload)
    (resp_headers : option (list (str * str))) (now : str) (st : Log * files)
    (request2 : value) :
  log_ok st ->
  verbose (fst st) = true \/
  contains (py "streamGenerateContent") endpoint = true ->
  pretty request = Ok request2 ->
  truthy (request_of request2) = true ->
  match request_of request2 with
  | VBool _ | VInt _ | VFloat _ => True
  | _ => False
  end ->
  exists st',
    trace label endpoint request req_headers response resp_headers now st
    = (st', Raise TypeError) /\
    prev_log (fst st') = prev_log (fst st) /\
    mode (fst st') <> absent /\
    snd st' !! path (fst st') = Some (log_content st).
Proof.
  intros Hok Hkeep Hreq Htrue Hscalar. unfold trace.
  assert (Hgo : negb (verbose (fst st)) &&
                negb (contains (py "streamGenerateContent") endpoint) = false).
  { destruct Hkeep as [-> | ->]; [reflexivity | apply andb_false_r]. }
  rewrite Hgo, Hreq.
  destruct (pretty_total response) as [response2 ->].
  rewrite (summary_of_scalar endpoint (request_of request2) response2 Hscalar).
  destruct (_preamble None st) as [st1 [u|e0]] eqn:Hpre.
  2:{ destruct (preamble_raise _ _ _ _ Hok Hpre) as (_ & _ & s & Hs & _).
      discriminate Hs. }
  destruct (preamble_ok _ _ _ _ Hok Hpre)
    as (_ & Hmode & Hcontent & _ & _ & Hprev & _).
  assert (Hkey : diff_key label endpoint (request_of request2) = Raise TypeError).
  { unfold diff_key. rewrite Htrue.
    destruct (request_of request2); try contradiction; reflexivity. }
  rewrite Hkey. exists st1. auto.
Qed.

(** X20.  The summary that names the file is one line that is not
    empty: when [Log.trace] detects a summary, the endpoint holds
    [streamGenerateContent], the request has a [request] member that is
    true, and the summary holds no line boundary and begins with a
    character that is no white space. *)
Theorem summary_single_line (endpoint : str) (k response2 : value) (line : str) :
  summary_of endpoint k response2 = Some line ->
  contains (py "streamGenerateContent") endpoint = true /\
  truthy k = true /\
  Forall (fun c => is_linebreak c = false) line /\
  exists c rest, line = c :: rest /\ is_space c = false.
Proof.
  unfold summary_of.
  destruct (find_summary endpoint k response2) as [summary|e] eqn:H; [|discriminate].
  intros ->. unfold find_summary in H.
  destruct (contains _ endpoint) eqn:Hend; [|discriminate].
  destruct (truthy k) eqn:Hk; [|discriminate]. cbn [andb] in H.
  repeat match type of H with
         | bind ?c _ = _ => destruct c; cbn [bind] in H; [|discriminate H]
         end.
  destruct (existsb _ _); [|discriminate].
  repeat match type of H with
         | bind ?c _ = _ => destruct c; cbn [bind] in H; [|discriminate H]
         end.
  match type of H with
  | context [splitlines (strip ?t)] => set (text := t) in *
  end.
  destruct (splitlines (strip text)) as [|line0 lines] eqn:Hs; [discriminate|].
  injection H as ->.
  split; [reflexivity|]. split; [reflexivity|]. split.
  - assert (Hall : Forall (Forall (fun c => is_linebreak c = false))
                     (splitlines (strip text))).
    { apply splitlines_chars. auto. }
    rewrite Hs in Hall. now inversion Hall.
  - destruct (strip text) as [|c rest] eqn:Hstrip; [discriminate Hs|].
    assert (Hc : is_space c = false).
    { exact (proj1 (strip_by_ends is_space text) c rest Hstrip). }
    assert (Hlb : is_linebreak c = false).
    { destruct (is_linebreak c) eqn:E; [|reflexivity].
      apply is_linebreak_space in E. congruence. }
    unfold splitlines in Hs. rewrite splitlines_from_cons, Hlb in Hs.
    destruct (splitlines_from_first rest [c] ltac:(discriminate))
      as (r & ls & Hfirst).
    rewrite Hfirst in Hs. injection Hs as <- _.
    exists c, r. now split.
Qed.

(** X21.  On a headers mapping, whose names are distinct as the keys
    of a dict are, [_redact_headers] keeps every name, in the order of
    the mapping, with the marker as the value of a blocklisted name and
    the value as it is for every other name; and redacting twice is
    redacting once. *)
Theorem redact_headers_keeps_shape (h : list (str * str)) :
  NoDup (map fst h) ->
  _redact_headers h
  = map (fun '(k, v) => (k, if blocked k then py "[REDACTED]" else v)) h /\
  _redact_headers (_redact_headers h) = _redact_headers h.
Proof.
  assert (Hfold : forall (h d : list (str * str)),
            NoDup (map fst d ++ map fst h) ->
            fold_left
              (fun d '(k, v) =>
                 dict_set k (if existsb (str_eqb (str_lower k)) blocklist
                             then py "[REDACTED]" else v) d) h d
            = d ++ map (fun '(k, v) =>
                          (k, if blocked k then py "[REDACTED]" else v)) h).
  { clear h. induction h as [|[k v] h IH]; intros d Hnd; cbn [fold_left map].
    - now rewrite app_nil_r.
    - cbn [map fst] in Hnd.
      rewrite dict_set_fresh.
      2:{ apply NoDup_app in Hnd as (_ & Hdis & _).
          intros Hin. apply list_elem_of_In in Hin.
          apply (Hdis k Hin). constructor. }
      rewrite IH.
      + now rewrite <- app_assoc.
      + rewrite map_app. cbn [map fst]. rewrite <- app_assoc. exact Hnd. }
  intros Hnd.
  assert (Hshape : _redact_headers h
                   = map (fun '(k, v) =>
                            (k, if blocked k then py "[REDACTED]" else v)) h).
  { unfold _redact_headers. now rewrite (Hfold h []). }
  split; [exact Hshape|].
  assert (Hnames : map fst (_redact_headers h) = map fst h).
  { rewrite Hshape, map_map. apply map_ext. now intros [k v]. }
  unfold _redact_headers at 1. rewrite (Hfold _ []).
  2:{ cbn [map app]. now rewrite Hnames. }
  cbn [app]. rewrite Hshape, map_map. apply map_ext.
  intros [k v]. now destruct (blocked k).
Qed.

(** X22.  On an endpoint that holds [UpdateCascadeTrajectorySummaries]
    the record is built with [request2.items()], which only a dict has:
    when the diff of the request is no dict, the rest of [Log.trace]
    raises [AttributeError].  So it does when the request repeats a dict
    with the unchanged verdict, whose diff is the text [{repeat}] (as for
    the empty dict sent twice). *)
Theorem trace_line_wordy_endpoint (label endpoint now : str) (k : value)
    (prev : option (value * value)) (request2 response2 : value)
    (req_headers resp_headers : option (list (str * str)))
    (b1 b2 : bool) (r1 r2 : value) :
  contains (py "UpdateCascadeTrajectorySummaries") endpoint = true ->
  match prev with
  | Some prev => delta (fst prev) request2
  | None => Ok (true, request2)
  end = Ok (b1, r1) ->
  match prev with
  | Some prev => delta (snd prev) response2
  | None => Ok (true, response2)
  end = Ok (b2, r2) ->
  is_dict r1 = false \/
  (b1 = true /\ exists p, option_map fst prev = Some (VDict p) /\
                          is_dict request2 = true) ->
  trace_line label endpoint now k prev request2 response2 req_headers resp_headers
  = Raise AttributeError.
Proof.
  intros Hend H1 H2 Hr1.
  assert (Hnd : is_dict r1 = false).
  { destruct Hr1 as [Hr1|(-> & p & Hp & Hd)]; [exact Hr1|].
    destruct prev as [[preq presp]|]; [|discriminate Hp].
    cbn [option_map fst] in Hp, H1. injection Hp as ->.
    destruct request2 as [| | | | | |n]; try discriminate Hd.
    now rewrite (delta_dict_unchanged p n r1 H1). }
  unfold trace_line. rewrite H1, H2. cbn [bind].
  assert (Htouch : touch_up k r1 = Ok r1).
  { unfold touch_up. rewrite Hnd. now rewrite andb_false_r. }
  rewrite Htouch, Hend. cbn [bind].
  destruct r1; try discriminate Hnd; reflexivity.
Qed.

End TraceExtras.

Lemma dict_get_app_last {V} (k : str) (v : V) (d : list (str * V)) :
  ~ In k (map fst d) -> dict_get k (d ++ [(k, v)]) = Some v.
Proof.
  induction d as [|[k' v'] d IH]; cbn [dict_get map fst In app].
  - now rewrite str_eqb_refl.
  - intros H. destruct (str_eqb k k') eqn:E.
    + apply str_eqb_eq in E. subst. tauto.
    + apply IH. tauto.
Qed.

Lemma dict_set_app_last {V} (k : str) (v w : V) (d : list (str * V)) :
  ~ In k (map fst d) -> dict_set k w (d ++ [(k, v)]) = d ++ [(k, w)].
Proof.
  induction d as [|[k' v'] d IH]; cbn [dict_set map fst In app].
  - now rewrite str_eqb_refl.
  - intros H. destruct (str_eqb k k') eqn:E.
    + apply str_eqb_eq in E. subst. tauto.
    + rewrite IH by tauto. reflexivity.
Qed.

Lemma args_to_argv_app (a b : list (str * list str)) :
  args_to_argv (a ++ b) = args_to_argv a ++ args_to_argv b.
Proof. unfold args_to_argv. apply flat_map_app. Qed.

(** The loop of [parse_argv] on flags that are new: the dict grows at
    its end, and putting it back in a command line gives the tokens
    read. *)
Lemma parse_argv_loop_roundtrip (argv : list str) :
  forall current r0 l0,
  ~ In current (map fst r0) ->
  NoDup (List.filter is_flag argv) ->
  (forall t, In t argv -> is_flag t = true ->
             t <> current /\ ~ In t (map fst r0)) ->
  exists r',
    parse_argv_loop argv current (r0 ++ [(current, l0)]) = Ok r' /\
    args_to_argv r' = args_to_argv (r0 ++ [(current, l0)]) ++ argv.
Proof.
  induction argv as [|token argv IH]; intros current r0 l0 Hcur Hnd Hnew;
    cbn [parse_argv_loop].
  - eexists. split; [reflexivity|]. now rewrite app_nil_r.
  - fold (is_flag token). cbn [List.filter] in Hnd.
    destruct (is_flag token) eqn:Hflag.
    + destruct (Hnew token (or_introl eq_refl) Hflag) as [Hne Hnot].
      assert (Hfresh : ~ In token (map fst (r0 ++ [(current, l0)]))).
      { rewrite map_app, in_app_iff. cbn [map fst In]. intros [H|[H|[]]]; auto. }
      rewrite (dict_set_fresh token [] _ Hfresh).
      apply NoDup_cons in Hnd as [Hnotin Hnd].
      rewrite list_elem_of_In in Hnotin.
      destruct (IH token (r0 ++ [(current, l0)]) [] Hfresh Hnd) as (r' & Hr' & Hflat).
      { intros t Hin Ht. split.
        - intros ->. apply Hnotin. apply filter_In. now split.
        - rewrite map_app, in_app_iff. cbn [map fst In].
          destruct (Hnew t (or_intror Hin) Ht) as [H1 H2].
          intros [H|[H|[]]]; [now apply H2 | now apply H1]. }
      exists r'. split; [exact Hr'|]. rewrite Hflat.
      rewrite (args_to_argv_app (r0 ++ [(current, l0)]) [(token, [])]).
      rewrite <- app_assoc. reflexivity.
    + unfold dict_append. rewrite (dict_get_app_last current l0 r0 Hcur).
      cbn [bind]. rewrite (dict_set_app_last current l0 (l0 ++ [token]) r0 Hcur).
      destruct (IH current r0 (l0 ++ [token]) Hcur Hnd) as (r' & Hr' & Hflat).
      { intros t Hin Ht. apply Hnew; [now right | exact Ht]. }
      exists r'. split; [exact Hr'|]. rewrite Hflat.
      rewrite !args_to_argv_app. unfold args_to_argv at 2 4.
      cbn [flat_map]. rewrite !app_nil_r, <- !app_assoc. cbn [app].
      rewrite <- app_assoc. reflexivity.
Qed.

(** X23.  [parse_argv] and the comprehension that builds [argv2] are
    inverse on a well-formed command line: when the first token, if any,
    is a flag and no flag is given twice, the arguments are parsed
    without error and putting the dict back in a list gives the tokens as
    they were, in their order. *)
Theorem parse_argv_roundtrip (argv : list str) :
  match argv with
  | [] => True
  | token :: _ => is_flag token = true
  end ->
  NoDup (List.filter is_flag argv) ->
  exists r, parse_argv argv = Ok r /\ args_to_argv r = argv.
Proof.
  destruct argv as [|token argv]; intros Hfirst Hnd.
  - exists []. now split.
  - unfold parse_argv. cbn [parse_argv_loop]. fold (is_flag token).
    rewrite Hfirst. cbn [List.filter] in Hnd. rewrite Hfirst in Hnd.
    apply NoDup_cons in Hnd as [Hnotin Hnd].
    rewrite list_elem_of_In in Hnotin.
    change (dict_set token [] []) with ([] ++ [(token, @nil str)]).
    destruct (parse_argv_loop_roundtrip argv token [] [] (fun H => H) Hnd)
      as (r & Hr & Hflat).
    { intros t Hin Ht. split; [|auto].
      intros ->. apply Hnotin. apply filter_In. now split. }
    exists r. split; [exact Hr|]. rewrite Hflat. reflexivity.
Qed.

Lemma dict_set_keys {V} (k : str) (v : V) (d : list (str * V)) :
  map fst (dict_set k v d)
  = if dict_has k d then map fst d else map fst d ++ [k].
Proof.
  unfold dict_has.
  induction d as [|[k' v'] d IH]; cbn [dict_set dict_get map fst app]; [reflexivity|].
  destruct (str_eqb k k') eqn:E.
  - apply str_eqb_eq in E. now subst.
  - cbn [map fst]. rewrite IH. now destruct (dict_get k d).
Qed.

Lemma dict_set_NoDup {V} (k : str) (v : V) (d : list (str * V)) :
  NoDup (map fst d) -> NoDup (map fst (dict_set k v d)).
Proof.
  intros H. rewrite dict_set_keys. destruct (dict_has k d) eqn:E; [exact H|].
  apply NoDup_app. split; [exact H|]. split; [|apply NoDup_singleton].
  intros x Hx Hk. apply list_elem_of_In in Hx.
  apply list_elem_of_singleton in Hk. subst x.
  apply dict_has_In in Hx. congruence.
Qed.

(** The keys of the dict of [parse_argv] are distinct. *)
Lemma parse_argv_loop_NoDup (argv : list str) : forall current r r',
  NoDup (map fst r) -> parse_argv_loop argv current r = Ok r' ->
  NoDup (map fst r').
Proof.
  induction argv as [|token argv IH]; intros current r r' Hnd;
    cbn [parse_argv_loop].
  - now intros [= <-].
  - destruct (startswith _ token).
    + apply IH. now apply dict_set_NoDup.
    + unfold dict_append. destruct (dict_get current r); cbn [bind]; [|discriminate].
      apply IH. now apply dict_set_NoDup.
Qed.

(** Assigning to a key of a dict replaces its value where it is. *)
Lemma dict_set_map {V} (k : str) (v : V) (d : list (str * V)) :
  NoDup (map fst d) -> dict_has k d = true ->
  dict_set k v d = map (fun '(k', v') => (k', if str_eqb k' k then v else v')) d.
Proof.
  unfold dict_has.
  induction d as [|[k' v'] d IH]; cbn [dict_set dict_get map fst]; [discriminate|].
  intros Hnd Hhas. apply NoDup_cons in Hnd as [Hnotin Hnd].
  rewrite list_elem_of_In in Hnotin.
  destruct (str_eqb k k') eqn:E.
  - apply str_eqb_eq in E. subst k'. rewrite str_eqb_refl. f_equal.
    clear IH Hhas Hnd. induction d as [|[k2 v2] d IHd]; cbn [map]; [reflexivity|].
    cbn [map fst In] in Hnotin.
    destruct (str_eqb k2 k) eqn:E2.
    + apply str_eqb_eq in E2. subst. tauto.
    + rewrite <- IHd by tauto. reflexivity.
  - assert (E' : str_eqb k' k = false).
    { apply str_eqb_neq. apply str_eqb_neq in E. congruence. }
    rewrite E'. f_equal. now apply IH.
Qed.

Lemma first_value_has (flag : str) (args : list (str * list str)) (v : str) :
  first_value flag args = Ok v -> dict_has flag args = true.
Proof.
  unfold first_value, dict_has. now destruct (dict_get flag args) as [[|? ?]|].
Qed.

Lemma first_value_raise (flag : str) (args : list (str * list str)) (e : exn) :
  first_value flag args = Raise e -> e = KeyError \/ e = IndexError.
Proof.
  unfold first_value. destruct (dict_get flag args) as [[|? ?]|];
    intros [= <-]; auto.
Qed.

Lemma first_value_set_ne (flag k : str) (v : list str)
    (args : list (str * list str)) :
  flag <> k -> first_value flag (dict_set k v args) = first_value flag args.
Proof. intros H. unfold first_value. now rewrite dict_get_set_ne. Qed.

Lemma parse_argv_raise (argv : list str) : forall current r e,
  parse_argv_loop argv current r = Raise e -> e = KeyError.
Proof.
  induction argv as [|token argv IH]; intros current r e; cbn [parse_argv_loop];
    [discriminate|].
  destruct (startswith _ token); [apply IH|].
  unfold dict_append. destruct (dict_get current r); cbn [bind].
  - apply IH.
  - now intros [= <-].
Qed.

Section ShimExtras.

Variable py_int : str -> option Z.
Variable extension_proxy : Z -> str.
Variable web_proxy : str -> str -> str.

(** X24.  The command line [shim] starts the wrapped server with.  When
    [shim] gets that far, its own arguments were parsed, each of the four
    flags of the proxied servers had a first value, the port was an
    integer, and the command line is the path of the server followed by
    the parsed flags in their order, each with its values, but for the
    four flags, each of which gets the address of its proxy as its only
    value.  Otherwise, the proxies being taken to start, what the
    handling of the arguments raises is the [KeyError] of a missing flag
    (or of a first token that is no flag), the [IndexError] of a flag
    without a value or the [ValueError] of a port that is no integer. *)
Theorem shim_argv_spec (server : str) (sys_argv : list str) :
  match shim_argv py_int extension_proxy web_proxy server sys_argv with
  | Ok argv2 =>
      exists args port inference api cloud p,
        parse_argv (skipn 1 sys_argv) = Ok args /\
        first_value (py "--extension_server_port") args = Ok port /\
        py_int port = Some p /\
        first_value (py "--inference_api_server_url") args = Ok inference /\
        first_value (py "--api_server_url") args = Ok api /\
        first_value (py "--cloud_code_endpoint") args = Ok cloud /\
        argv2 = server ::
                args_to_argv
                  (map (proxied extension_proxy web_proxy p inference api cloud)
                       args)
  | Raise e => e = KeyError \/ e = IndexError \/ e = ValueError
  end.
Proof.
  unfold shim_argv.
  destruct (parse_argv (skipn 1 sys_argv)) as [args|e] eqn:Hargs; cbn [bind].
  2:{ apply parse_argv_raise in Hargs. auto. }
  assert (Hnd : NoDup (map fst args)).
  { apply (parse_argv_loop_NoDup (skipn 1 sys_argv) [] [] args);
      [apply NoDup_nil_2 | exact Hargs]. }
  destruct (first_value (py "--extension_server_port") args)
    as [port|e] eqn:H1; cbn [bind].
  2:{ apply first_value_raise in H1. tauto. }
  destruct (py_int port) as [p|] eqn:Hp; cbn [bind]; [|auto].
  rewrite first_value_set_ne by (intros H; vm_compute in H; discriminate H).
  destruct (first_value (py "--inference_api_server_url") args)
    as [inference|e] eqn:H2; cbn [bind].
  2:{ apply first_value_raise in H2. tauto. }
  rewrite !first_value_set_ne by (intros H; vm_compute in H; discriminate H).
  destruct (first_value (py "--api_server_url") args)
    as [api|e] eqn:H3; cbn [bind].
  2:{ apply first_value_raise in H3. tauto. }
  rewrite !first_value_set_ne by (intros H; vm_compute in H; discriminate H).
  destruct (first_value (py "--cloud_code_endpoint") args)
    as [cloud|e] eqn:H4; cbn [bind].
  2:{ apply first_value_raise in H4. tauto. }
  exists args, port, inference, api, cloud, p.
  repeat (split; [assumption || reflexivity|]).
  f_equal. f_equal.
  apply first_value_has in H1, H2, H3, H4.
  set (F1 := py "--extension_server_port") in *.
  set (F2 := py "--inference_api_server_url") in *.
  set (F3 := py "--api_server_url") in *.
  set (F4 := py "--cloud_code_endpoint") in *.
  assert (Hhas : forall k k' (v : list str) d,
            dict_has k d = true -> dict_has k (dict_set k' v d) = true).
  { intros k k' v d H. rewrite dict_has_set, H. apply orb_true_r. }
  rewrite (dict_set_map F1 _ args Hnd H1).
  set (a1 := map _ args).
  assert (Hk1 : map fst a1 = map fst args).
  { unfold a1. rewrite map_map. apply map_ext. now intros [k v]. }
  assert (Hh1 : forall k, dict_has k a1 = dict_has k args).
  { intros k. unfold a1. rewrite <- (dict_set_map F1 _ args Hnd H1).
    rewrite dict_has_set. destruct (str_eqb k F1) eqn:E; [|reflexivity].
    apply str_eqb_eq in E. subst k. now rewrite H1. }
  rewrite (dict_set_map F2 _ a1) by (rewrite ?Hk1, ?Hh1; assumption).
  set (a2 := map _ a1).
  assert (Hk2 : map fst a2 = map fst args).
  { unfold a2. rewrite map_map, <- Hk1. apply map_ext. now intros [k v]. }
  assert (Hh2 : forall k, dict_has k a2 = dict_has k args).
  { intros k. apply eq_true_iff_eq. rewrite !dict_has_In. unfold dict_keys.
    now rewrite Hk2. }
  rewrite (dict_set_map F3 _ a2) by (rewrite ?Hk2, ?Hh2; assumption).
  set (a3 := map _ a2).
  assert (Hk3 : map fst a3 = map fst args).
  { unfold a3. rewrite map_map, <- Hk2. apply map_ext. now intros [k v]. }
  assert (Hh3 : forall k, dict_has k a3 = dict_has k args).
  { intros k. apply eq_true_iff_eq. rewrite !dict_has_In. unfold dict_keys.
    now rewrite Hk3. }
  rewrite (dict_set_map F4 _ a3) by (rewrite ?Hk3, ?Hh3; assumption).
  unfold a3, a2, a1. rewrite !map_map. apply map_ext.
  intros [k v]. unfold proxied. fold F1 F2 F3 F4. f_equal.
  destruct (str_eqb k F1) eqn:E1.
  { apply str_eqb_eq in E1. subst k. reflexivity. }
  destruct (str_eqb k F2) eqn:E2.
  { apply str_eqb_eq in E2. subst k. reflexivity. }
  destruct (str_eqb k F3) eqn:E3.
  { apply str_eqb_eq in E3. subst k. reflexivity. }
  reflexivity.
Qed.

End ShimExtras.

(* ===================================================================== *)
(** ** The claims on concrete inputs *)
(* ===================================================================== *)

(** C4 on the buffer [08]: the tag of a variable-length field whose value
    is missing. *)
Lemma pretty_proto_rejects_malformed_witness :
  exists env : Environment,
    malformed_at [x08] 0 /\ ~ wire_stream [x08] /\
    proto_fields (fun _ => Ok VNone) 1 [x08] 0 [] = Raise AssertionError /\
    pretty_proto [x08] = Raise AssertionError.
Proof.
  exists plain_env.
  destruct (pretty_proto_rejects_malformed (env := plain_env) [x08])
    as (_ & _ & Hfield & Hstream & _).
  assert (Hbad : malformed_at [x08] 0).
  { apply truncated_value with 8 1%nat; [reflexivity | reflexivity | constructor]. }
  assert (Hnot : ~ wire_stream [x08]).
  { intros Hw.
    apply (wire_stream_decodes (fun _ => Ok VNone)) in Hw; [|eauto].
    destruct Hw as [out Hw]. discriminate Hw. }
  split; [exact Hbad|]. split; [exact Hnot|]. split.
  - apply Hfield; [simpl; lia | exact Hbad].
  - apply Hstream. exact Hnot.
Defined.

(** C9 on [ff fe], which is not UTF-8, and on the two letters [hi]. *)
Lemma pretty_bytes_fallback_witness :
  exists env : Environment,
    pretty_proto [xff; xfe] = Raise AssertionError /\
    pretty (PBytes [xff; xfe]) = Ok (VStr (py "fffe")) /\
    pretty_proto [x68; x69] = Raise TypeError /\
    pretty (PBytes [x68; x69]) = pretty (PStr (py "hi")).
Proof.
  exists plain_env.
  split; [reflexivity|]. split.
  - apply (pretty_bytes_fallback (env := plain_env) [xff; xfe] AssertionError).
    reflexivity.
  - split; [reflexivity|].
    apply (pretty_bytes_fallback (env := plain_env) [x68; x69] TypeError).
    reflexivity.
Defined.

(** C7 as stated fails on [{a: 1}] against itself: the delta holds the
    key [a], whose values do not differ. *)
Lemma delta_unchanged_key_counterexample :
  ~ exists env : Environment,
      mapping_law_as_stated [(py "a", VInt 1)] [(py "a", VInt 1)].
Proof.
  intros (env & H).
  specialize (H false [(py "a", VInt 1)] eq_refl (py "a") eq_refl).
  destruct H as [(k & Hp & Hc & _) | [(k & Hp & Hc & _) | (k & pv & cv & Hp & Hc & Hne)]].
  - congruence.
  - congruence.
  - cbn [dict_get] in Hp, Hc. destruct (str_eqb k (py "a")); [|discriminate].
    injection Hp as <-. injection Hc as <-. discriminate Hne.
Qed.

(** C7 (amended) on [{a: 1, b: 2}] against [{b: 2, c: 3}]. *)
Lemma delta_mapping_law_witness :
  exists env : Environment,
    delta (VDict [(py "a", VInt 1); (py "b", VInt 2)])
          (VDict [(py "b", VInt 2); (py "c", VInt 3)])
    = Ok (false, VDict [(py "-a", VNone); (py "+c", VInt 3); (py "b", VInt 2)]) /\
    mapping_law
      [(py "a", VInt 1); (py "b", VInt 2)] [(py "b", VInt 2); (py "c", VInt 3)]
      false (VDict [(py "-a", VNone); (py "+c", VInt 3); (py "b", VInt 2)]).
Proof.
  exists plain_env.
  split; [reflexivity|]. apply (delta_mapping_law (env := plain_env)). reflexivity.
Defined.

(** C5 as stated fails on what [pump_output] traces with verbosity off:
    the call is dropped and nothing is stored under its key. *)
Lemma trace_dropped_call_counterexample :
  ~ exists env : Environment,
      prev_log
        (fst (fst (trace (py "STDIO") (py "stdout") PNone None
                     (PBytes [x08; x01; x10; x02]) None (py "12:00:00.000")
                     (Log_init (py "2026.01.01_12.00.00") false, ∅))))
      !! (py "STDIO:stdout")
      = Some (VNone, VList [VInt 1; VInt 2]).
Proof.
  intros (env & H). cbn in H. discriminate H.
Qed.

(** C5 (amended) on the same call, with verbosity on and off. *)
Lemma trace_stored_state_witness :
  exists env : Environment,
    prev_log
      (fst (fst (trace (py "STDIO") (py "stdout") PNone None
                   (PBytes [x08; x01; x10; x02]) None (py "12:00:00.000")
                   (Log_init (py "2026.01.01_12.00.00") true, ∅))))
    = <[py "STDIO:stdout" := (VNone, VList [VInt 1; VInt 2])]> ∅ /\
    trace (py "STDIO") (py "stdout") PNone None
      (PBytes [x08; x01; x10; x02]) None (py "12:00:00.000")
      (Log_init (py "2026.01.01_12.00.00") false, ∅)
    = ((Log_init (py "2026.01.01_12.00.00") false, ∅), Ok tt).
Proof.
  exists plain_env.
  split.
  - exact (proj2 (trace_stored_state (env := plain_env)
                    (py "STDIO") (py "stdout") PNone None
                    (PBytes [x08; x01; x10; x02]) None (py "12:00:00.000")
                    (Log_init (py "2026.01.01_12.00.00") true, ∅))
             VNone (VList [VInt 1; VInt 2])
             (mkLog (py "2026.01.01_12.00.00")
                (in_logdir (py "2026.01.01_12.00.00" ++ py ".html"))
                preambled ∅ true,
              <[in_logdir (py "2026.01.01_12.00.00" ++ py ".html")
                := preamble_text]> ∅)
             (py "STDIO:stdout")
             (or_introl eq_refl) eq_refl eq_refl eq_refl eq_refl).
  - exact (proj1 (trace_stored_state (env := plain_env)
                    (py "STDIO") (py "stdout") PNone None
                    (PBytes [x08; x01; x10; x02]) None (py "12:00:00.000")
                    (Log_init (py "2026.01.01_12.00.00") false, ∅))
             eq_refl eq_refl).
Defined.


(** C10 on the example of the docstring, and on a positional argument
    ahead of the flags. *)
Lemma parse_argv_spec_witness :
  startswith (py "--") (py "--foo") = true /\
  (exists r,
     parse_argv [py "--foo"; py "1"; py "--bar"; py "--baz"; py "2"; py "3"] = Ok r /\
     forall flag,
       dict_get flag r
       = last_values flag [py "--foo"; py "1"; py "--bar"; py "--baz"; py "2"; py "3"]) /\
  startswith (py "--") (py "1") = false /\
  parse_argv [py "1"; py "--foo"] = Raise KeyError.
Proof.
  split; [reflexivity|]. split.
  - apply (proj1 (parse_argv_spec (py "--foo")
                    [py "1"; py "--bar"; py "--baz"; py "2"; py "3"])).
    reflexivity.
  - split; [reflexivity|].
    apply (proj2 (parse_argv_spec (py "1") [py "--foo"])). reflexivity.
Defined.

Example parse_argv_docstring :
  parse_argv [py "--foo"; py "1"; py "--bar"; py "--baz"; py "2"; py "3"]
  = Ok [(py "--foo", [py "1"]); (py "--bar", []); (py "--baz", [py "2"; py "3"])].
Proof. reflexivity. Qed.

(* ===================================================================== *)
(** ** The further properties on concrete inputs *)
(* ===================================================================== *)

(** [repr] of a float in [plain_env] is ASCII text, and printable. *)
Lemma plain_repr_ascii : forall f : float, ascii_only (@float_repr plain_env f).
Proof. intros f. now apply ascii_lit. Defined.

Lemma plain_repr_printable : forall f : float, printable (@float_repr plain_env f).
Proof. intros f. now apply printable_lit. Defined.

(** X3 on the two letters [hi], which the decoder rejects. *)
Lemma pretty_bytes_text_over_hex_witness :
  exists env : Environment,
    pretty_proto [x68; x69] = Raise TypeError /\
    decode_utf8 [x68; x69] = Some (py "hi") /\
    pretty (PBytes [x68; x69]) = pretty (PStr (strip (py "hi"))).
Proof.
  exists plain_env. split; [reflexivity|]. split; [reflexivity|].
  apply (pretty_bytes_text_over_hex (env := plain_env)
           [x68; x69] (py "hi") TypeError); reflexivity.
Defined.

(** X4 on a space, a line feed and a tab. *)
Lemma pretty_blank_text_witness :
  exists env : Environment,
    json_loads [] = None /\
    forallb is_space [32; 10; 9]%N = true /\
    pretty (PStr [32; 10; 9]%N) = Ok (VList []).
Proof.
  exists plain_env. split; [reflexivity|]. split; [reflexivity|].
  apply (pretty_blank_text (env := plain_env)); reflexivity.
Defined.

(** X5 on the message with the integer 1 in field 1 and the bytes of
    [hi] in field 2. *)
Lemma pretty_proto_decodes_encoded_witness :
  exists env : Environment,
    Forall encodable [(1, Varint 1); (2, Blob [x68; x69])] /\
    length [(1, Varint 1); (2, Blob [x68; x69])] <> 1%nat /\
    exists ws,
      pretty_proto (encode_message [(1, Varint 1); (2, Blob [x68; x69])])
      = Ok (VList ws) /\
      Forall2 (fun fld w =>
                 decoded (fun blob => pretty (PBytes blob)) (snd fld) = Ok w)
              [(1, Varint 1); (2, Blob [x68; x69])] ws.
Proof.
  exists plain_env.
  assert (Henc : Forall encodable [(1, Varint 1); (2, Blob [x68; x69])]).
  { repeat constructor; cbn; lia. }
  assert (Hlen : length [(1, Varint 1); (2, Blob [x68; x69])] <> 1%nat)
    by (cbn; lia).
  split; [exact Henc|]. split; [exact Hlen|].
  exact (pretty_proto_decodes_encoded (env := plain_env) _ Henc Hlen).
Defined.

(** X6 on the pairs [[a, 1]] and [[a, 2]]. *)
Lemma collapse_keeps_last_entry_witness :
  forallb is_entry [VList [VStr (py "a"); VInt 1]; VList [VStr (py "a"); VInt 2]]
  = true /\
  exists d,
    collapse [VList [VList [VStr (py "a"); VInt 1]; VList [VStr (py "a"); VInt 2]]]
    = Ok (VDict d) /\
    (forall k, dict_get k d
               = last_entry k [VList [VStr (py "a"); VInt 1];
                               VList [VStr (py "a"); VInt 2]]) /\
    (length d <= 2)%nat.
Proof.
  split; [reflexivity|].
  exact (collapse_keeps_last_entry
           [VList [VStr (py "a"); VInt 1]; VList [VStr (py "a"); VInt 2]] eq_refl).
Defined.

(** X7 on [{a: [1]}] against [{a: []}]. *)
Lemma delta_raises_index_or_value_error_witness :
  exists (env : Environment) (e : exn),
    (forall f, ascii_only (float_repr f)) /\
    delta (VDict [(py "a", VList [VInt 1])]) (VDict [(py "a", VList [])])
    = Raise e /\
    (e = IndexError \/
     (e = ValueError /\
      (ints_ok (VDict [(py "a", VList [VInt 1])]) = false \/
       ints_ok (VDict [(py "a", VList [])]) = false))).
Proof.
  exists plain_env, IndexError.
  split; [exact plain_repr_ascii|]. split; [reflexivity|].
  exact (delta_raises_index_or_value_error (env := plain_env)
           (VDict [(py "a", VList [VInt 1])]) (VDict [(py "a", VList [])])
           IndexError plain_repr_ascii eq_refl).
Defined.

(** X8 on [[1, 2]] and the element [3]. *)
Lemma delta_list_grows_or_shrinks_witness :
  exists env : Environment,
    (forall f, ascii_only (float_repr f)) /\
    ints_ok (VList ([VInt 1; VInt 2] ++ [VInt 3])) = true /\
    [VInt 1; VInt 2] <> [] /\ [VInt 3] <> [] /\
    delta (VList [VInt 1; VInt 2]) (VList ([VInt 1; VInt 2] ++ [VInt 3]))
    = Ok (false, VList (VStr (py "...") :: [VInt 3])) /\
    ((length [VInt 3] < length [VInt 1; VInt 2])%nat ->
     delta (VList ([VInt 1; VInt 2] ++ [VInt 3])) (VList [VInt 1; VInt 2])
     = Ok (false, VList (VStr (py "---") :: [VInt 3]))).
Proof.
  exists plain_env.
  split; [exact plain_repr_ascii|]. split; [reflexivity|].
  split; [discriminate|]. split; [discriminate|].
  apply (delta_list_grows_or_shrinks (env := plain_env));
    [exact plain_repr_ascii | reflexivity | discriminate | discriminate].
Defined.

(** X9 on [[1, 2]] against [[2, 3]]: [1] is removed, [2] is matched and
    [3] is added. *)
Lemma delta_list_accounts_witness :
  exists env : Environment,
    (forall f, ascii_only (float_repr f)) /\
    ints_ok (VList [VInt 1; VInt 2]) && ints_ok (VList [VInt 2; VInt 3]) = true /\
    delta (VList [VInt 1; VInt 2]) (VList [VInt 2; VInt 3])
    = Ok (false, VList [VInt 2; VInt 3]) /\
    exists hp hn additions removals,
      hashed [VInt 1; VInt 2] = Ok hp /\ hashed [VInt 2; VInt 3] = Ok hn /\
      list_walk hp hn removals additions /\
      (forall removals' additions',
         list_walk hp hn removals' additions' ->
         removals' = removals /\ additions' = additions) /\
      sublist additions [VInt 2; VInt 3] /\
      sublist removals [VInt 1; VInt 2] /\
      (length [VInt 1; VInt 2] + length additions
       = length [VInt 2; VInt 3] + length removals)%nat /\
      delta (VList [VInt 1; VInt 2]) (VList [VInt 2; VInt 3])
      = Ok (if Nat.eqb (length removals) 0 && Nat.eqb (length additions) 0
            then (true, VList [VInt 2; VInt 3])
            else (false,
                  VList (if (length removals + length additions
                             <? length [VInt 2; VInt 3])%nat
                         then list_report additions removals
                         else [VInt 2; VInt 3]))).
Proof.
  exists plain_env. split; [exact plain_repr_ascii|].
  split; [reflexivity|]. split; [reflexivity|].
  exact (proj1 (delta_list_accounts (env := plain_env)
                  [VInt 1; VInt 2] [VInt 2; VInt 3] plain_repr_ascii)
           eq_refl).
Defined.

(** X10 on the list [[1]] against itself. *)
Lemma delta_unchanged_verdict_witness :
  exists env : Environment,
    (forall f, ascii_only (float_repr f)) /\
    delta (VList [VInt 1]) (VList [VInt 1]) = Ok (true, VList [VInt 1]) /\
    VList [VInt 1] = VList [VInt 1] /\
    exists hp hn, hashed [VInt 1] = Ok hp /\ hashed [VInt 1] = Ok hn /\
                  map snd hp = map snd hn.
Proof.
  exists plain_env. split; [exact plain_repr_ascii|]. split; [reflexivity|].
  exact (delta_unchanged_verdict (env := plain_env)
           (VList [VInt 1]) (VList [VInt 1]) (VList [VInt 1])
           plain_repr_ascii eq_refl).
Defined.

(** X11 on [{a: [x]}] against [{a: [---]}]. *)
Lemma delta_misses_change_to_marker_witness :
  exists env : Environment,
    (forall f, ascii_only (float_repr f)) /\
    ints_ok (VList [VStr (py "x")]) = true /\
    (py "---" = py "---" \/ py "---" = py "...") /\
    [VStr (py "x")] <> [] /\
    (forall x, In x [VStr (py "x")] ->
       hash_of x <> hash_of (VStr (py "---"))) /\
    delta (VList [VStr (py "x")]) (VList [VStr (py "---")])
    = Ok (false, VList [VStr (py "---")]) /\
    delta (VDict [(py "a", VList [VStr (py "x")])])
          (VDict [(py "a", VList [VStr (py "---")])])
    = Ok (true, VStr (py "{repeat}")).
Proof.
  exists plain_env.
  assert (Hhash : forall x, In x [VStr (py "x")] ->
            @hash_of plain_env x <> @hash_of plain_env (VStr (py "---"))).
  { intros x [<-|[]]. vm_compute. discriminate. }
  split; [exact plain_repr_ascii|]. split; [reflexivity|].
  split; [now left|].
  split; [discriminate|]. split; [exact Hhash|].
  exact (delta_misses_change_to_marker (env := plain_env)
           (py "a") (py "---") [VStr (py "x")] plain_repr_ascii eq_refl
           (or_introl eq_refl) ltac:(discriminate) Hhash).
Defined.

(** X12 on the empty dict against itself, and on a list. *)
Lemma delta_keeps_type_witness :
  exists env : Environment,
    delta (VDict []) (VDict []) = Ok (true, VStr (py "{repeat}")) /\
    ((is_dict (VStr (py "{repeat}")) = true /\
      (is_dict (VDict []) = true -> true = false)) \/
     (is_dict (VDict []) = true /\ true = true /\
      VStr (py "{repeat}") = VStr (py "{repeat}"))) /\
    delta (VInt 1) (VList [VInt 2]) = Ok (false, VList [VInt 2]) /\
    is_list (VList [VInt 2]) = true.
Proof.
  exists plain_env. split; [reflexivity|]. split.
  - exact (delta_keeps_type (env := plain_env) (VDict []) (VDict []) true
             (VStr (py "{repeat}")) eq_refl).
  - split; [reflexivity|].
    exact (delta_keeps_type (env := plain_env) (VInt 1) (VList [VInt 2]) false
             (VList [VInt 2]) eq_refl).
Defined.

(** X13 on a record whose label holds an angle bracket. *)
Lemma serialize_one_line_witness :
  exists env : Environment,
    (forall f, printable (float_repr f)) /\
    ints_ok (VDict [(py "label", VStr (py "a<b"))]) = true /\
    exists body,
      serialize [(py "label", VStr (py "a<b"))] = Ok (body ++ [10%N]) /\
      Forall (fun c => (32 <= c <= 126)%N /\ c <> 60%N /\ c <> 62%N) body.
Proof.
  exists plain_env. split; [exact plain_repr_printable|].
  split; [reflexivity|].
  exact (proj1 (serialize_one_line (env := plain_env)
                  [(py "label", VStr (py "a<b"))] plain_repr_printable)
           eq_refl).
Defined.

(** X15 on a new log and a summary. *)
Lemma preamble_keeps_file_witness :
  exists env : Environment,
    log_ok (Log_init (py "2026.01.01_12.00.00") true, ∅) /\
    match _preamble (Some (py "Fix login"))
            (Log_init (py "2026.01.01_12.00.00") true, ∅) with
    | (st', Ok _) =>
        log_ok st' /\ mode (fst st') <> absent /\
        snd st' !! path (fst st')
        = Some (log_content (Log_init (py "2026.01.01_12.00.00") true, ∅)) /\
        (forall p,
           p <> path (fst (Log_init (py "2026.01.01_12.00.00") true, ∅ : files)) ->
           p <> path (fst st') ->
           snd st' !! p
           = snd (Log_init (py "2026.01.01_12.00.00") true, ∅ : files) !! p) /\
        ts (fst st') = ts (fst (Log_init (py "2026.01.01_12.00.00") true, ∅ : files)) /\
        prev_log (fst st')
        = prev_log (fst (Log_init (py "2026.01.01_12.00.00") true, ∅ : files)) /\
        verbose (fst st')
        = verbose (fst (Log_init (py "2026.01.01_12.00.00") true, ∅ : files))
    | (st', Raise e) =>
        st' = (Log_init (py "2026.01.01_12.00.00") true, ∅) /\
        mode (fst (Log_init (py "2026.01.01_12.00.00") true, ∅ : files))
        = preambled /\
        exists s,
          Some (py "Fix login") = Some s /\
          os_rename_error
            (in_logdir
               (ts (fst (Log_init (py "2026.01.01_12.00.00") true, ∅ : files))
                ++ py " - " ++ firstn 120 (sanitize s) ++ py ".html"))
          = Some e
    end.
Proof.
  exists plain_env.
  assert (Hok : log_ok (@Log_init plain_env (py "2026.01.01_12.00.00") true,
                        (∅ : files))) by now left.
  split; [exact Hok|].
  exact (preamble_keeps_file (env := plain_env) (Some (py "Fix login")) _ Hok).
Defined.

(** X16 on what [pump_output] traces on a new log. *)
Lemma trace_keeps_file_witness :
  exists env : Environment,
    log_ok (Log_init (py "2026.01.01_12.00.00") true, ∅) /\
    log_ok (fst (trace (py "STDIO") (py "stdout") PNone None
                   (PBytes [x08; x01; x10; x02]) None (py "12:00:00.000")
                   (Log_init (py "2026.01.01_12.00.00") true, ∅))).
Proof.
  exists plain_env.
  assert (Hok : log_ok (@Log_init plain_env (py "2026.01.01_12.00.00") true,
                        (∅ : files))) by now left.
  split; [exact Hok|].
  exact (proj1 (proj2 (trace_keeps_file (env := plain_env)
                         (py "STDIO") (py "stdout") PNone None
                         (PBytes [x08; x01; x10; x02]) None (py "12:00:00.000")
                         (Log_init (py "2026.01.01_12.00.00") true, ∅)) Hok)).
Defined.

(** X17 on a request without a body to an endpoint of the trajectory
    summaries. *)
Lemma trace_exceptions_witness :
  exists (env : Environment) (e : exn),
    (forall f, ascii_only (float_repr f)) /\
    log_ok (Log_init (py "2026.01.01_12.00.00") true, ∅) /\
    snd (trace (py "API") (py "/UpdateCascadeTrajectorySummaries") PNone None
           PNone None (py "12:00:00.000")
           (Log_init (py "2026.01.01_12.00.00") true, ∅))
    = Raise e /\
    (e = TypeError \/ e = IndexError \/ e = AttributeError \/ e = KeyError \/
     e = ValueError \/
     (mode (fst (Log_init (py "2026.01.01_12.00.00") true, ∅ : files))
      = preambled /\
      exists s,
        os_rename_error
          (in_logdir
             (ts (fst (Log_init (py "2026.01.01_12.00.00") true, ∅ : files))
              ++ py " - " ++ firstn 120 (sanitize s) ++ py ".html"))
        = Some e)).
Proof.
  exists plain_env, AttributeError.
  assert (Hok : log_ok (@Log_init plain_env (py "2026.01.01_12.00.00") true,
                        (∅ : files))) by now left.
  split; [exact plain_repr_ascii|]. split; [exact Hok|].
  split; [reflexivity|].
  exact (trace_exceptions (env := plain_env)
           (py "API") (py "/UpdateCascadeTrajectorySummaries") PNone None
           PNone None (py "12:00:00.000")
           (Log_init (py "2026.01.01_12.00.00") true, ∅) AttributeError
           plain_repr_ascii Hok eq_refl).
Defined.


(** X19 on a binary request that the decoder reads as the dict
    [{request: 5}]. *)
Lemma trace_raises_on_scalar_request_witness :
  exists env : Environment,
    pretty (PBytes [x0a; x0d; x0a; x0b; x0a; x07; x72; x65; x71; x75; x65;
                    x73; x74; x10; x05])
    = Ok (VDict [(py "request", VInt 5)]) /\
    exists st',
      trace (py "API") (py "/v1/models")
        (PBytes [x0a; x0d; x0a; x0b; x0a; x07; x72; x65; x71; x75; x65;
                 x73; x74; x10; x05])
        None PNone None (py "12:00:00.000")
        (Log_init (py "2026.01.01_12.00.00") true, ∅)
      = (st', Raise TypeError) /\
      prev_log (fst st')
      = prev_log (fst (Log_init (py "2026.01.01_12.00.00") true, ∅ : files)) /\
      mode (fst st') <> absent /\
      snd st' !! path (fst st')
      = Some (log_content (Log_init (py "2026.01.01_12.00.00") true, ∅)).
Proof.
  exists plain_env.
  assert (Hok : log_ok (@Log_init plain_env (py "2026.01.01_12.00.00") true,
                        (∅ : files))) by now left.
  split; [reflexivity|].
  exact (trace_raises_on_scalar_request (env := plain_env)
           (py "API") (py "/v1/models")
           (PBytes [x0a; x0d; x0a; x0b; x0a; x07; x72; x65; x71; x75; x65;
                    x73; x74; x10; x05])
           None PNone None (py "12:00:00.000")
           (Log_init (py "2026.01.01_12.00.00") true, ∅)
           (VDict [(py "request", VInt 5)])
           Hok (or_introl eq_refl) eq_refl eq_refl I).
Defined.

(** X20 on a request for a title and its answer, [Fix login] on the
    first of two lines. *)
Lemma summary_single_line_witness :
  summary_of (py "/v1internal:streamGenerateContent") title_request title_response
  = Some (py "Fix login") /\
  contains (py "streamGenerateContent") (py "/v1internal:streamGenerateContent")
  = true /\
  truthy title_request = true /\
  Forall (fun c => is_linebreak c = false) (py "Fix login") /\
  exists c rest, py "Fix login" = c :: rest /\ is_space c = false.
Proof.
  split; [reflexivity|].
  exact (summary_single_line (py "/v1internal:streamGenerateContent")
           title_request title_response (py "Fix login") eq_refl).
Defined.

(** X21 on [Authorization] and [Accept]. *)
Lemma redact_headers_keeps_shape_witness :
  exists env : Environment,
    NoDup (map fst [(py "Authorization", py "Bearer xyz"); (py "Accept", py "*/*")]) /\
    _redact_headers [(py "Authorization", py "Bearer xyz"); (py "Accept", py "*/*")]
    = [(py "Authorization", py "[REDACTED]"); (py "Accept", py "*/*")].
Proof.
  exists plain_env.
  assert (Hnd : NoDup (map fst [(py "Authorization", py "Bearer xyz");
                                (py "Accept", py "*/*")])).
  { apply (bool_decide_unpack _). vm_compute. exact I. }
  split; [exact Hnd|].
  exact (proj1 (redact_headers_keeps_shape (env := plain_env) _ Hnd)).
Defined.

(** X22 on the empty dict sent twice. *)
Lemma trace_line_wordy_endpoint_witness :
  exists env : Environment,
    contains (py "UpdateCascadeTrajectorySummaries")
      (py "/UpdateCascadeTrajectorySummaries") = true /\
    delta (VDict []) (VDict []) = Ok (true, VStr (py "{repeat}")) /\
    delta VNone VNone = Ok (true, VNone) /\
    trace_line (py "API") (py "/UpdateCascadeTrajectorySummaries")
      (py "12:00:00.000") VNone (Some (VDict [], VNone)) (VDict []) VNone
      None None
    = Raise AttributeError.
Proof.
  exists plain_env.
  split; [reflexivity|]. split; [reflexivity|]. split; [reflexivity|].
  apply (trace_line_wordy_endpoint (env := plain_env)
           (py "API") (py "/UpdateCascadeTrajectorySummaries")
           (py "12:00:00.000") VNone (Some (VDict [], VNone)) (VDict []) VNone
           None None true true (VStr (py "{repeat}")) VNone
           eq_refl eq_refl eq_refl).
  right. split; [reflexivity|]. exists []. now split.
Defined.

(** X23 on the command line of the docstring of [parse_argv]. *)
Lemma parse_argv_roundtrip_witness :
  is_flag (py "--foo") = true /\
  NoDup (List.filter is_flag
           [py "--foo"; py "1"; py "--bar"; py "--baz"; py "2"; py "3"]) /\
  exists r,
    parse_argv [py "--foo"; py "1"; py "--bar"; py "--baz"; py "2"; py "3"]
    = Ok r /\
    args_to_argv r
    = [py "--foo"; py "1"; py "--bar"; py "--baz"; py "2"; py "3"].
Proof.
  assert (Hnd : NoDup (List.filter is_flag
                         [py "--foo"; py "1"; py "--bar"; py "--baz";
                          py "2"; py "3"])).
  { apply (bool_decide_unpack _). vm_compute. exact I. }
  split; [reflexivity|]. split; [exact Hnd|].
  exact (parse_argv_roundtrip
           [py "--foo"; py "1"; py "--bar"; py "--baz"; py "2"; py "3"]
           eq_refl Hnd).
Defined.

(** X24 on a command line with the four flags and one more, in front
    of proxies that listen on the port 5000 and at three local
    addresses. *)
Lemma shim_argv_spec_witness :
  let py_int := fun _ : str => Some 4000 in
  let extension_proxy := fun _ : Z => py "5000" in
  let web_proxy := fun (_ : str) (label : str) => py "http://127.0.0.1/" ++ label in
  let sys_argv :=
    [py "language_server"; py "--extension_server_port"; py "4000";
     py "--inference_api_server_url"; py "https://inference.example";
     py "--verbose";
     py "--api_server_url"; py "https://api.example";
     py "--cloud_code_endpoint"; py "https://cloud.example"] in
  shim_argv py_int extension_proxy web_proxy (py "server") sys_argv
  = Ok [py "server"; py "--extension_server_port"; py "5000";
        py "--inference_api_server_url"; py "http://127.0.0.1/INFERENCE";
        py "--verbose";
        py "--api_server_url"; py "http://127.0.0.1/API";
        py "--cloud_code_endpoint"; py "http://127.0.0.1/CLOUD"] /\
  exists args port inference api cloud p,
    parse_argv (skipn 1 sys_argv) = Ok args /\
    first_value (py "--extension_server_port") args = Ok port /\
    py_int port = Some p /\
    first_value (py "--inference_api_server_url") args = Ok inference /\
    first_value (py "--api_server_url") args = Ok api /\
    first_value (py "--cloud_code_endpoint") args = Ok cloud /\
    [py "server"; py "--extension_server_port"; py "5000";
     py "--inference_api_server_url"; py "http://127.0.0.1/INFERENCE";
     py "--verbose";
     py "--api_server_url"; py "http://127.0.0.1/API";
     py "--cloud_code_endpoint"; py "http://127.0.0.1/CLOUD"]
    = py "server" ::
      args_to_argv
        (map (proxied extension_proxy web_proxy p inference api cloud) args).
Proof.
  cbv zeta. split; [reflexivity|].
  exact (shim_argv_spec (fun _ : str => Some 4000) (fun _ : Z => py "5000")
           (fun (_ : str) (label : str) => py "http://127.0.0.1/" ++ label)
           (py "server")
           [py "language_server"; py "--extension_server_port"; py "4000";
            py "--inference_api_server_url"; py "https://inference.example";
            py "--verbose";
            py "--api_server_url"; py "https://api.example";
            py "--cloud_code_endpoint"; py "https://cloud.example"]).
Defined.

(* ===================================================================== *)
(** ** The limits of the interpreter and of the file system, on concrete
       inputs *)
(* ===================================================================== *)

(** [json.dumps] at the limit of 4300 digits: the integer written with
    4300 nines is converted, with or without a sign, and the one written
    as a one and 4300 zeros is not, wherever it is in the value. *)
Example json_dumps_int_limit :
  int_ok (nines 4300) = true /\
  int_ok (- nines 4300) = true /\
  int_ok (one_and_zeros 4300) = false /\
  (forall sort_keys,
     json_dumps (env := plain_env) sort_keys (VInt (nines 4300))
     = Ok (repeat 57%N 4300)) /\
  (forall sort_keys,
     json_dumps (env := plain_env) sort_keys (VInt (one_and_zeros 4300))
     = Raise ValueError) /\
  (forall sort_keys,
     json_dumps (env := plain_env) sort_keys
       (VDict [(py "a", VList [VInt 1; VInt (one_and_zeros 4300)])])
     = Raise ValueError).
Proof.
  assert (H1 : int_ok (nines 4300) = true).
  { unfold int_ok, int_digits, nines. rewrite DecimalZ.to_of.
    vm_compute. reflexivity. }
  assert (H2 : int_ok (- nines 4300) = true).
  { change (- nines 4300)%Z
      with (Z.of_int (Decimal.Neg (Nat.iter 4300 Decimal.D9 Decimal.Nil))).
    unfold int_ok, int_digits. rewrite DecimalZ.to_of.
    vm_compute. reflexivity. }
  assert (H3 : int_ok (one_and_zeros 4300) = false).
  { unfold int_ok, int_digits, one_and_zeros. rewrite DecimalZ.to_of.
    vm_compute. reflexivity. }
  split; [exact H1|]. split; [exact H2|]. split; [exact H3|].
  split; [|split]; intros sort_keys; unfold json_dumps; cbn [ints_ok forallb snd].
  - rewrite H1. cbn [json_text]. unfold int_str, nines.
    rewrite DecimalZ.to_of. vm_compute. reflexivity.
  - now rewrite H3.
  - rewrite H3. reflexivity.
Qed.

(** The renaming on a Linux file system, of a log that has its
    preamble.  A summary of 120 euro signs, which are three bytes each,
    asks for a file name of more than 255 bytes: [_preamble] raises
    [OSError] and the log is as it was.  A summary that holds a lone
    surrogate cannot be encoded: [_preamble] raises [ValueError].  The
    summary [Fix login] renames the file. *)
Example preamble_rename_refused (fs : files) (content : str) :
  let log := mkLog (py "2026.01.01_12.00.00")
               (in_logdir (env := linux_env) (py "2026.01.01_12.00.00.html"))
               preambled ∅ true in
  let renamed_to name :=
    mkLog (py "2026.01.01_12.00.00") (in_logdir (env := linux_env) name)
      renamed ∅ true in
  _preamble (env := linux_env) (Some (repeat 8364%N 120)) (log, fs)
  = ((log, fs), Raise OSError) /\
  _preamble (env := linux_env) (Some [55357%N]) (log, fs)
  = ((log, fs), Raise ValueError) /\
  (fs !! path log = Some content ->
   fst (fst (_preamble (env := linux_env) (Some (py "Fix login")) (log, fs)))
   = renamed_to (py "2026.01.01_12.00.00 - Fix login.html")).
Proof.
  cbv zeta. unfold _preamble. cbn [mode ts path prev_log verbose].
  change (@os_rename_error linux_env) with linux_rename_error.
  split; [|split].
  - assert (H : linux_rename_error
                  (in_logdir (env := linux_env)
                     (py "2026.01.01_12.00.00" ++ py " - "
                      ++ firstn 120 (sanitize (repeat 8364%N 120)) ++ py ".html"))
                = Some OSError) by (vm_compute; reflexivity).
    now rewrite H.
  - assert (H : linux_rename_error
                  (in_logdir (env := linux_env)
                     (py "2026.01.01_12.00.00" ++ py " - "
                      ++ firstn 120 (sanitize [55357%N]) ++ py ".html"))
                = Some ValueError) by (vm_compute; reflexivity).
    now rewrite H.
  - intros Hfile.
    assert (H : linux_rename_error
                  (in_logdir (env := linux_env)
                     (py "2026.01.01_12.00.00" ++ py " - "
                      ++ firstn 120 (sanitize (py "Fix login")) ++ py ".html"))
                = None) by (vm_compute; reflexivity).
    rewrite H, Hfile. reflexivity.
Qed.
